(** * Feature selection of the A-LOAM pipeline: a shallow embedding

    Source: [src/src/feature_selection.cpp] and
    [src/include/aloam_slam/feature_selection.h].

    Conventions of the embedding.
    - [unsigned int] and [int] values are integers in [Z]; every place where
      the source mixes the two writes the 32-bit wrap-around out ([u32],
      [i32]).
    - [float] and [double] values are exact real numbers ([R]); the values
      that the source can turn into not-a-number (a quotient by zero, the
      sentinel arithmetic on them) are of type [fl], a real or [NaN].
      Rounding, overflow, signed zeros and infinities are not modelled.
      Single-precision rounding can move a value across a step where the
      source floors a quotient or a product to an index (the bucket of a
      range, the cutoff index of the ranking) or adds up to a bound (the
      blend of the two resolution bounds).  What is stated about these
      places either does not depend on the index (it speaks of the cutoff
      that is returned, whichever entry it was read from), or keeps the
      arguments away from the steps, or is an outcome that rounding, being
      monotone, cannot change.
    - [std::vector::at] raises [std::out_of_range]; [std::vector::back] on an
      empty vector and an out-of-range conversion from floating point to an
      unsigned integer are undefined behaviour.  Both are outcomes of the
      [result] type.
    - The loops of the source are folds over the list of values their
      induction variable takes; the [while] loop of the constructor takes
      fuel. *)

From Stdlib Require Import Reals Lra Lia ZArith List Bool.
From stdpp Require Import base gmap list.
Import ListNotations.

Open Scope Z_scope.

(** ** Machine integers *)

Module CInt.

(** Value of an integer expression stored in an [unsigned int]. *)
Definition u32 (z : Z) : Z := z mod 2 ^ 32.

(** Value of an unsigned expression converted to [int]. *)
Definition i32 (z : Z) : Z :=
  let w := z mod 2 ^ 32 in
  if w <? 2 ^ 31 then w else w - 2 ^ 32.

(** The values [lo, lo+1, ..., hi-1] of the induction variable of
    [for (unsigned int i = lo; i < hi; i++)]. *)
Definition zrange (lo hi : Z) : list Z :=
  map (fun k : nat => lo + Z.of_nat k) (seq 0 (Z.to_nat (hi - lo))).

End CInt.
Export CInt.

(** ** Outcomes of fallible code *)

Inductive error : Type :=
| OutOfRange   (* std::out_of_range raised by [at] *)
| Undefined.   (* undefined behaviour *)

Inductive result (A : Type) : Type :=
| Ok (a : A)
| Err (e : error).
Arguments Ok {A} a.
Arguments Err {A} e.

#[global] Instance result_ret : MRet result := fun _ a => Ok a.
#[global] Instance result_bind : MBind result := fun _ _ k m =>
  match m with
  | Ok a => k a
  | Err e => Err e
  end.

(** A [for] loop whose body may raise, threading the loop-carried state. *)
Fixpoint forM {I S : Type} (body : I -> S -> result S) (xs : list I) (s : S)
  : result S :=
  match xs with
  | [] => Ok s
  | i :: xs' => s' ← body i s; forM body xs' s'
  end.

(** [v.at(i)] for a [std::vector]: the index is converted to [size_t], so a
    negative [int] is far beyond the size. *)
Definition at_ {A : Type} (v : list A) (i : Z) : result A :=
  if (0 <=? i) && (i <? Z.of_nat (length v)) then
    match nth_error v (Z.to_nat i) with
    | Some a => Ok a
    | None => Err OutOfRange
    end
  else Err OutOfRange.

(** [v.at(i) = a]. *)
Definition set_at {A : Type} (v : list A) (i : Z) (a : A) : result (list A) :=
  if (0 <=? i) && (i <? Z.of_nat (length v)) then Ok (<[Z.to_nat i := a]> v)
  else Err OutOfRange.

(** [v.back()]. *)
Definition back {A : Type} (v : list A) : result A :=
  match last v with
  | Some a => Ok a
  | None => Err Undefined
  end.

(** ** Floating-point values *)

Open Scope R_scope.

Inductive fl : Type :=
| Fin (r : R)
| NaN.

Module Fl.

Definition lift2 (f : R -> R -> R) (a b : fl) : fl :=
  match a, b with
  | Fin x, Fin y => Fin (f x y)
  | _, _ => NaN
  end.

Definition add : fl -> fl -> fl := lift2 Rplus.
Definition sub : fl -> fl -> fl := lift2 Rminus.
Definition mul : fl -> fl -> fl := lift2 Rmult.

(** Every quotient by zero the source can reach has a zero or NaN
    numerator, for which the result is NaN. *)
Definition div (a b : fl) : fl :=
  match a, b with
  | Fin x, Fin y => if Req_dec_T y 0 then NaN else Fin (x / y)
  | _, _ => NaN
  end.

Definition sqrt (a : fl) : fl :=
  match a with
  | Fin x => if Rlt_dec x 0 then NaN else Fin (R_sqrt.sqrt x)
  | NaN => NaN
  end.

(** [std::fmax]: a NaN argument is ignored. *)
Definition fmax (a b : fl) : fl :=
  match a, b with
  | Fin x, Fin y => Fin (Rmax x y)
  | Fin x, NaN => Fin x
  | NaN, b => b
  end.

(** Comparisons: false as soon as one side is NaN. *)
Definition lt (a b : fl) : bool :=
  match a, b with
  | Fin x, Fin y => if Rlt_dec x y then true else false
  | _, _ => false
  end.
Definition gt (a b : fl) : bool := lt b a.
Definition ge (a b : fl) : bool :=
  match a, b with
  | Fin x, Fin y => if Rle_dec y x then true else false
  | _, _ => false
  end.

(** [std::floor] followed by the conversion to an unsigned integer type of
    the given width: undefined when the floor is not representable. *)
Definition floor_to_unsigned (bits : Z) (x : R) : result Z :=
  let v := Zfloor x in
  if ((0 <=? v) && (v <? 2 ^ bits))%Z then Ok v else Err Undefined.

(** [std::atan2] on finite arguments. *)
Definition atan2 (y x : R) : R :=
  if Rlt_dec 0 x then atan (y / x)
  else if Rlt_dec x 0 then
         if Rle_dec 0 y then atan (y / x) + PI else atan (y / x) - PI
       else if Rlt_dec 0 y then PI / 2
            else if Rlt_dec y 0 then - (PI / 2) else 0.

End Fl.

(** ** The angular table (constructor of [FeatureSelection]) *)

Definition HFOV_RESOLUTION : R := 0.00613592315.
Definition VFOV_RESOLUTION : R := 0.03862995413.
Definition NEIGH_IDX_PREC_RANGE_RES : R := 0.2.

(** The local constant [R] of the constructor. *)
Definition R_radius : R := 0.6.

(** One bucket is the vector of (row offset bound, column offset bound). *)
Definition bucket : Type := list (Z * Z).
Definition angular_table : Type := list bucket.

Definition range_of (sample : Z) : R := IZR sample * NEIGH_IDX_PREC_RANGE_RES.

Definition max_v_idx_of (range : R) : Z :=
  Zfloor (Fl.atan2 R_radius range / VFOV_RESOLUTION).

Definition k_of (range : R) (i : Z) : R := range * tan (IZR i * VFOV_RESOLUTION).

Definition max_h_idx_of (range : R) (i : Z) : Z :=
  let k := k_of range i in
  Zfloor (Fl.atan2 (sqrt (R_radius * R_radius - k * k)) range / HFOV_RESOLUTION).

(** Body of [for (unsigned int i = 0; i <= max_v_idx; i++)]; the loop state
    is the bucket under construction and the [stop] flag. *)
Definition bucket_step (range : R) (max_v_idx : Z) (i : Z)
    (st : bucket * bool) : bucket * bool :=
  let '(idxs, stop) := st in
  let max_h_idx := max_h_idx_of range i in
  (idxs ++ [(max_v_idx, max_h_idx)],
   stop || ((max_v_idx =? 0)%Z && (max_h_idx =? 0)%Z)).

Definition build_bucket (sample : Z) (stop : bool) : bucket * bool :=
  let range := range_of sample in
  let max_v_idx := max_v_idx_of range in
  fold_left (fun st i => bucket_step range max_v_idx i st)
            (zrange 0 (max_v_idx + 1)) ([], stop).

(** [while (!stop) { ... }]: [None] when the fuel runs out. *)
Fixpoint table_loop (fuel : nat) (sample : Z) (tbl : angular_table)
  : option angular_table :=
  match fuel with
  | O => None
  | S fuel' =>
      let '(idxs, stop) := build_bucket sample false in
      let tbl' := tbl ++ [idxs] in
      if stop then Some tbl' else table_loop fuel' (u32 (sample + 1)) tbl'
  end.

(** The table the constructor leaves in [_neigh_idxs_rows_cols]. *)
Definition built_table : angular_table :=
  match table_loop 490 0 [] with
  | Some t => t
  | None => []
  end.

(** What one pass of the [while] body appends, and whether it sets [stop]:
    closed forms of [build_bucket], proved equal to it below. *)
Definition bucket_of (sample : Z) : bucket :=
  let range := range_of sample in
  let max_v_idx := max_v_idx_of range in
  map (fun i => (max_v_idx, max_h_idx_of range i)) (zrange 0 (max_v_idx + 1)).

Definition stop_at (sample : Z) : bool :=
  let range := range_of sample in
  (max_v_idx_of range =? 0)%Z && (max_h_idx_of range 0 =? 0)%Z.

(** ** Points, clouds and the extracted features *)

(** [Eigen::Vector3f]. *)
Definition Vector3f : Type := (R * R * R)%type.

Module Vec.
Definition Zero : Vector3f := (0, 0, 0).
Definition add (a b : Vector3f) : Vector3f :=
  let '(ax, ay, az) := a in let '(bx, by_, bz) := b in
  (ax + bx, ay + by_, az + bz).
Definition sub (a b : Vector3f) : Vector3f :=
  let '(ax, ay, az) := a in let '(bx, by_, bz) := b in
  (ax - bx, ay - by_, az - bz).
Definition div (a : Vector3f) (s : R) : Vector3f :=
  let '(ax, ay, az) := a in (ax / s, ay / s, az / s).
Definition norm (a : Vector3f) : R :=
  let '(ax, ay, az) := a in sqrt (ax * ax + ay * ay + az * az).
End Vec.

(** [pcl::PointXYZI]. *)
Module PointXYZI.
Record t : Type := mk { x : R; y : R; z : R; intensity : R }.
Definition zero : t := mk 0 0 0 0.
Definition xyz (p : t) : Vector3f := (x p, y p, z p).
End PointXYZI.

Definition PointType : Type := PointXYZI.t.
Definition PointCloud : Type := list PointType.

(** What feature selection reads from the [ExtractedFeatures] object handed
    over by feature extraction.  The class is declared outside the sources at
    hand, so its members are taken as given: the filtered cloud, the width of
    the raw cloud, the (row, column) address and the range of a point of the
    filtered cloud, the dense row by column table of indices into the
    filtered cloud (-1 for an absent cell), and the two feature batches
    with their counts and their clouds. *)
Record ExtractedFeatures : Type := {
  cloud_filt : PointCloud;
  cloud_raw_width : Z;
  getRowColInRawData : Z -> Z * Z;
  getRange : Z -> R;
  buildOrderedFeatureTable : list (list Z) -> list (list Z);
  indices_corners_less_sharp : list (list Z);
  indices_surfs_less_flat : list (list Z);
  corner_points_less_sharp_count : Z;
  surf_points_less_flat_count : Z;
  getLessSharpCorners : PointCloud;
  getLessFlatSurfs : PointCloud
}.

(** ** The [FeatureSelection] object *)

Record FeatureSelection : Type := {
  _resolution_corners : fl;
  _resolution_surfs : fl;
  _resolution_corners_min : R;
  _resolution_corners_max : R;
  _resolution_surfs_min : R;
  _resolution_surfs_max : R;
  _features_selection_enabled : bool;
  _features_min_count_percent : R;
  _corners_keep_percentile : R;
  _surfs_keep_percentile : R;
  _neigh_idxs_rows_cols : angular_table
}.

(** The parameters the constructor loads, with the defaults it gives. *)
Record Params : Type := {
  mapping_resolution_corners_min : R;
  mapping_resolution_corners_max : R;
  mapping_resolution_surfs_min : R;
  mapping_resolution_surfs_max : R;
  feature_selection_enable : bool;
  feature_selection_min_count_percent : R;
  feature_selection_corners_keep_percentile : R;
  feature_selection_surfs_keep_percentile : R
}.

Definition default_params : Params := {|
  mapping_resolution_corners_min := 0.05;
  mapping_resolution_corners_max := 0.6;
  mapping_resolution_surfs_min := 0.1;
  mapping_resolution_surfs_max := 1.0;
  feature_selection_enable := false;
  feature_selection_min_count_percent := 0.3;
  feature_selection_corners_keep_percentile := 0.5;
  feature_selection_surfs_keep_percentile := 0.5
|}.

(** The members the constructor sets from the parameters, around a table. *)
Definition init_members (p : Params) (tbl : angular_table) : FeatureSelection :=
  {| _resolution_corners :=
       Fin ((mapping_resolution_corners_max p
             + mapping_resolution_corners_min p) / 2);
     _resolution_surfs :=
       Fin ((mapping_resolution_surfs_max p
             + mapping_resolution_surfs_min p) / 2);
     _resolution_corners_min := mapping_resolution_corners_min p;
     _resolution_corners_max := mapping_resolution_corners_max p;
     _resolution_surfs_min := mapping_resolution_surfs_min p;
     _resolution_surfs_max := mapping_resolution_surfs_max p;
     _features_selection_enabled := feature_selection_enable p;
     _features_min_count_percent := feature_selection_min_count_percent p;
     _corners_keep_percentile := feature_selection_corners_keep_percentile p;
     _surfs_keep_percentile := feature_selection_surfs_keep_percentile p;
     _neigh_idxs_rows_cols := tbl |}.

(** [FeatureSelection::FeatureSelection]; [None] when the table loop runs
    out of fuel. *)
Definition FeatureSelection_new (p : Params) (fuel : nat)
  : option FeatureSelection :=
  init_members p <$> table_loop fuel 0 [].

(** ** [getNearestNeighborLimits] *)

(** The bucket index is the floor of the quotient of the distance by the
    range resolution, here of the exact quotient: at a distance within
    rounding of a multiple of the resolution the source can land in the
    bucket next to the one computed here. *)
Definition getNearestNeighborLimits (fs : FeatureSelection) (point_distance : R)
  : result bucket :=
  idx ← Fl.floor_to_unsigned 32 (point_distance / NEIGH_IDX_PREC_RANGE_RES);
  if (idx <? Z.of_nat (length (_neigh_idxs_rows_cols fs)))%Z
  then at_ (_neigh_idxs_rows_cols fs) idx
  else Ok [].

(** ** [getNeighborsInBB] *)

(** [std::unordered_map<unsigned int, std::vector<Eigen::Vector3f>>]. *)
Abbreviation NeighborMap := (gmap Z (list Vector3f)).

(** [neighbors_map[idx].push_back(neighbor)]. *)
Definition push_back_at (m : NeighborMap) (idx : Z) (neighbor : Vector3f)
  : NeighborMap :=
  <[idx := (m !!! idx) ++ [neighbor]]> m.

Section GetNeighborsInBB.
Variable fs : FeatureSelection.
Variable extracted_features : ExtractedFeatures.
Variable ordered_table : list (list Z).
Variable max_range : fl.

Let cloud_width : Z := i32 (cloud_raw_width extracted_features).
Let cloud_height : Z := i32 (Z.of_nat (length ordered_table)).

(** Body of the loop over [j]. *)
Definition visit_cell (idx_in_filt this_r this_c i j : Z) (m : NeighborMap)
  : result NeighborMap :=
  if ((i =? this_r) && (j =? this_c))%Z then Ok m
  else
    row ← at_ ordered_table i;
    neighbor_idx ← at_ row j;
    if (neighbor_idx =? -1)%Z then Ok m
    else
      neighbor_point ← at_ (cloud_filt extracted_features) neighbor_idx;
      p ← at_ (cloud_filt extracted_features) idx_in_filt;
      let point := PointXYZI.xyz p in
      let neighbor := PointXYZI.xyz neighbor_point in
      if Fl.lt (Fin (Vec.norm (Vec.sub neighbor point))) max_range
      then Ok (push_back_at m idx_in_filt neighbor)
      else Ok m.

(** Body of the loop over [i]. *)
Definition visit_row (row_col_idxs : bucket) (idx_in_filt this_r this_c i : Z)
    (m : NeighborMap) : result NeighborMap :=
  let dv := u32 (Z.abs (i32 (u32 (i - this_r)))) in
  e ← at_ row_col_idxs dv;
  let h_idx := e.2 in
  let col_min := u32 (Z.max 0 (i32 (u32 (this_c - h_idx)))) in
  let col_max := u32 (Z.min cloud_width (i32 (u32 (this_c + h_idx + 1)))) in
  forM (visit_cell idx_in_filt this_r this_c i) (zrange col_min col_max) m.

(** Body of the loop over the indices of one row of the batch. *)
Definition visit_candidate (idx_in_filt : Z) (m : NeighborMap)
  : result NeighborMap :=
  let '(this_r, this_c) := getRowColInRawData extracted_features idx_in_filt in
  let d := getRange extracted_features idx_in_filt in
  row_col_idxs ← getNearestNeighborLimits fs d;
  e ← back row_col_idxs;
  let max_v_idx := e.1 in
  let row_min := u32 (Z.max 0 (i32 (u32 (this_r - max_v_idx)))) in
  let row_max := u32 (Z.min cloud_height (i32 (u32 (this_r + max_v_idx + 1)))) in
  forM (visit_row row_col_idxs idx_in_filt this_r this_c)
       (zrange row_min row_max) m.

End GetNeighborsInBB.

Definition getNeighborsInBB (fs : FeatureSelection)
    (extracted_features : ExtractedFeatures)
    (indices_in_filt : list (list Z)) (max_range : fl) : result NeighborMap :=
  let ordered_table :=
    buildOrderedFeatureTable extracted_features indices_in_filt in
  forM (fun indices_row m =>
          forM (visit_candidate fs extracted_features ordered_table max_range)
               indices_row m)
       indices_in_filt ∅.

(** ** [estimateGradients] *)

(** [std::sort] with the comparator [i.second > j.second].  The order of
    elements the comparator does not separate is unspecified in the source;
    the insertion sort below keeps them in their order of arrival.  The
    properties stated of the ranking and of the selection hold for every
    order of such elements: they speak of the ranking up to rearrangement,
    of its gradients, or of inputs without equal gradients. *)
Fixpoint insert_desc (e : Z * fl) (l : list (Z * fl)) : list (Z * fl) :=
  match l with
  | [] => [e]
  | h :: t => if Fl.gt h.2 e.2 then h :: insert_desc e t else e :: h :: t
  end.

Definition sort_desc (l : list (Z * fl)) : list (Z * fl) :=
  foldr insert_desc [] l.

(** [v.size()] as an integer. *)
Definition size {A : Type} (v : list A) : Z := Z.of_nat (length v).

(** [std::vector<T> v(n)] and [v.resize(n)]. *)
Definition vector_of {A : Type} (n : Z) (d : A) : list A :=
  replicate (Z.to_nat n) d.
Definition resize_to {A : Type} (n : Z) (d : A) (v : list A) : list A :=
  resize (Z.to_nat n) d v.

(** The variables the first loop of [estimateGradients] carries. *)
Record GradLoop : Type := {
  grouped_features_count : Z;
  standalone_features_count : Z;
  grad_norm_max : fl;
  standalone_points_indices : list Z;
  gradient_norms : list (Z * fl)
}.

(** The sum [gradient += neighbor - point_xyz] over the neighbors. *)
Definition sum_gradient (point_xyz : Vector3f) (neighbors : list Vector3f)
  : Vector3f :=
  fold_left (fun gradient neighbor => Vec.add gradient (Vec.sub neighbor point_xyz))
            neighbors Vec.Zero.

(** Body of the loop over [j]. *)
Definition gradient_step (extracted_features : ExtractedFeatures)
    (neighbors : NeighborMap) (idx : Z) (st : GradLoop) : result GradLoop :=
  if (0 <? size (neighbors !!! idx))%Z then
    p ← at_ (cloud_filt extracted_features) idx;
    let point_xyz := PointXYZI.xyz p in
    let gradient := sum_gradient point_xyz (neighbors !!! idx) in
    let grad_norm :=
      Fin (Vec.norm (Vec.div gradient (IZR (size (neighbors !!! idx))))) in
    gn ← set_at (gradient_norms st) (grouped_features_count st) (idx, grad_norm);
    Ok {| grouped_features_count := u32 (grouped_features_count st + 1);
          standalone_features_count := standalone_features_count st;
          grad_norm_max := Fl.fmax (grad_norm_max st) grad_norm;
          standalone_points_indices := standalone_points_indices st;
          gradient_norms := gn |}
  else
    sp ← set_at (standalone_points_indices st) (standalone_features_count st) idx;
    Ok {| grouped_features_count := grouped_features_count st;
          standalone_features_count := u32 (standalone_features_count st + 1);
          grad_norm_max := grad_norm_max st;
          standalone_points_indices := sp;
          gradient_norms := gradient_norms st |}.

(** Body of the normalisation loop: the state is the vector and the running
    sum [grad_norm_mean]. *)
Definition normalize_step (grad_norm_max : fl) (i : Z)
    (st : list (Z * fl) * fl) : result (list (Z * fl) * fl) :=
  let '(gradient_norms, grad_norm_mean) := st in
  e ← at_ gradient_norms i;
  let second := Fl.div e.2 grad_norm_max in
  gn ← set_at gradient_norms i (e.1, second);
  Ok (gn, Fl.add grad_norm_mean second).

(** Body of the loop that sums the squared deviations. *)
Definition deviation_step (gradient_norms : list (Z * fl)) (grad_norm_mean : fl)
    (i : Z) (grad_norm_std : fl) : result fl :=
  e ← at_ gradient_norms i;
  let dev := Fl.sub e.2 grad_norm_mean in
  Ok (Fl.add grad_norm_std (Fl.mul dev dev)).

Definition estimateGradients (fs : FeatureSelection)
    (extracted_features : ExtractedFeatures) (features_count : Z)
    (indices_in_filt : list (list Z)) (search_radius : fl)
  : result (list Z * list (Z * fl) * fl * fl) :=
  let st0 := {| grouped_features_count := 0;
                standalone_features_count := 0;
                grad_norm_max := Fin 0;
                standalone_points_indices := vector_of features_count 0%Z;
                gradient_norms := vector_of features_count (0%Z, Fin 0) |} in
  neighbors ← getNeighborsInBB fs extracted_features indices_in_filt search_radius;
  st ← forM (fun indices_row st =>
               forM (gradient_step extracted_features neighbors) indices_row st)
            indices_in_filt st0;
  let grouped := grouped_features_count st in
  let gradient_norms :=
    if (grouped =? features_count)%Z then gradient_norms st
    else resize_to grouped (0%Z, Fin 0) (gradient_norms st) in
  let standalone_points_indices :=
    if (standalone_features_count st =? features_count)%Z
    then standalone_points_indices st
    else resize_to (standalone_features_count st) 0%Z
                   (standalone_points_indices st) in
  '(gradient_norms, grad_norm_mean) ←
    forM (normalize_step (grad_norm_max st)) (zrange 0 grouped)
         (gradient_norms, Fin 0);
  let grad_norm_mean := Fl.div grad_norm_mean (Fin (IZR grouped)) in
  grad_norm_std ←
    forM (deviation_step gradient_norms grad_norm_mean) (zrange 0 grouped) (Fin 0);
  let grad_norm_std :=
    Fl.sqrt (Fl.div grad_norm_std (Fin (IZR features_count))) in
  Ok (standalone_points_indices, sort_desc gradient_norms,
      grad_norm_mean, grad_norm_std).

(** ** Closed forms of the loops of [estimateGradients]

    What the loops compute, as functions of the batch (the indices of
    [indices_in_filt] in order) and of the neighbor map; proved equal to the
    loops below. *)

Section GradientForms.
Variable extracted_features : ExtractedFeatures.
Variable neighbors : NeighborMap.

Definition has_neighbors (idx : Z) : bool :=
  (0 <? size (neighbors !!! idx))%Z.

Definition point_xyz_of (idx : Z) : Vector3f :=
  match at_ (cloud_filt extracted_features) idx with
  | Ok p => PointXYZI.xyz p
  | Err _ => Vec.Zero
  end.

(** The magnitude of the mean of the differences to the neighbors. *)
Definition grad_norm_of (idx : Z) : fl :=
  Fin (Vec.norm (Vec.div (sum_gradient (point_xyz_of idx) (neighbors !!! idx))
                         (IZR (size (neighbors !!! idx))))).

(** The grouped features with their magnitudes, and the standalone ones. *)
Definition grouped_of (batch : list Z) : list (Z * fl) :=
  map (fun idx => (idx, grad_norm_of idx)) (List.filter has_neighbors batch).

Definition standalone_of (batch : list Z) : list Z :=
  List.filter (fun idx => negb (has_neighbors idx)) batch.

End GradientForms.

(** The running maximum, from its initial value 0. *)
Definition max_of (raw : list (Z * fl)) : fl :=
  fold_left (fun m e => Fl.fmax m e.2) raw (Fin 0).

Definition normalized_of (raw : list (Z * fl)) : list (Z * fl) :=
  map (fun e => (e.1, Fl.div e.2 (max_of raw))) raw.

Definition sum_of (l : list (Z * fl)) : fl :=
  fold_left (fun s e => Fl.add s e.2) l (Fin 0).

Definition mean_of (l : list (Z * fl)) : fl :=
  Fl.div (sum_of l) (Fin (IZR (size l))).

(** The sum of the squared deviations from [mean]. *)
Definition deviations_of (l : list (Z * fl)) (mean : fl) : fl :=
  fold_left (fun s e => Fl.add s (Fl.mul (Fl.sub e.2 mean) (Fl.sub e.2 mean)))
            l (Fin 0).

(** Is a normalized gradient inside the unit interval. *)
Definition in_unit (v : fl) : Prop :=
  match v with
  | Fin r => 0 <= r <= 1
  | NaN => False
  end.

(** The population standard deviation of the gradients of a ranking: the
    square root of the sum of the squared deviations from the mean, divided
    by the number of gradients. *)
Definition population_stddev (l : list (Z * fl)) : fl :=
  Fl.sqrt (Fl.div (deviations_of l (mean_of l)) (Fin (IZR (size l)))).

(** The variables of the first loop of [estimateGradients] once the indices
    [done] have been visited, [features_count] being the size the two
    vectors were given. *)
Definition grad_state_of (extracted_features : ExtractedFeatures)
    (neighbors : NeighborMap) (features_count : Z) (done : list Z) : GradLoop :=
  let grouped := grouped_of extracted_features neighbors done in
  let standalone := standalone_of neighbors done in
  {| grouped_features_count := size grouped;
     standalone_features_count := size standalone;
     grad_norm_max := max_of grouped;
     standalone_points_indices :=
       standalone ++ replicate (Z.to_nat features_count - length standalone) 0%Z;
     gradient_norms :=
       grouped ++ replicate (Z.to_nat features_count - length grouped)
                            (0%Z, Fin 0) |}.

(** ** [selectFeaturesFromCloudByGradient] *)

(** Body of the loop that copies the standalone features; the state is
    [selected_features] and [gradient_norms_all]. *)
Definition standalone_step (extracted_features : ExtractedFeatures)
    (standalone_points_indices : list Z) (i : Z)
    (st : PointCloud * list fl) : result (PointCloud * list fl) :=
  let '(selected_features, gradient_norms_all) := st in
  idx ← at_ standalone_points_indices i;
  p ← at_ (cloud_filt extracted_features) idx;
  sel ← set_at selected_features i p;
  gna ← set_at gradient_norms_all i (Fin 1);
  Ok (sel, gna).

(** Body of the loop over the ranking; the state also carries [k]. *)
Definition select_step (extracted_features : ExtractedFeatures)
    (standalone_points_indices : list Z) (gradients : list (Z * fl))
    (grad_cutoff_thrd : fl) (i : Z)
    (st : PointCloud * list fl * Z) : result (PointCloud * list fl * Z) :=
  let '(selected_features, gradient_norms_all, k) := st in
  e ← at_ gradients i;
  let grad := e.2 in
  gna ← set_at gradient_norms_all (size standalone_points_indices + i) grad;
  if Fl.ge grad grad_cutoff_thrd then
    e' ← at_ gradients i;
    let cloud_idx := i32 e'.1 in
    point_grad ← at_ (cloud_filt extracted_features) cloud_idx;
    sel ← set_at selected_features k point_grad;
    Ok (sel, gna, (k + 1)%Z)
  else Ok (selected_features, gna, k).

(** The cutoff index is the floor of [percentile * gradients.size()], here
    of the exact product; the source multiplies in single precision, which
    can yield the next index when the product is within rounding of an
    integer.  The index passes to [at], whose parameter is a 64-bit
    unsigned integer. *)
Definition selectFeaturesFromCloudByGradient (fs : FeatureSelection)
    (extracted_features : ExtractedFeatures) (features_count : Z)
    (indices_in_filt : list (list Z)) (search_radius : fl) (percentile : R)
  : result (PointCloud * list fl * fl * fl * fl) :=
  if (features_count =? 0)%Z then Ok ([], [], Fin (-1), Fin (-1), Fin (-1))
  else
    let selected_features := resize_to features_count PointXYZI.zero [] in
    let gradient_norms_all := resize_to features_count (Fin 0) [] in
    '(standalone_points_indices, gradients, grad_norm_mean, grad_norm_std) ←
      estimateGradients fs extracted_features features_count indices_in_filt
                        search_radius;
    cutoff_idx ← Fl.floor_to_unsigned 64 (percentile * IZR (size gradients));
    e ← at_ gradients cutoff_idx;
    let grad_cutoff_thrd := e.2 in
    st ← forM (standalone_step extracted_features standalone_points_indices)
              (zrange 0 (size standalone_points_indices))
              (selected_features, gradient_norms_all);
    '(selected_features, gradient_norms_all, k) ←
      forM (select_step extracted_features standalone_points_indices gradients
                        grad_cutoff_thrd)
           (zrange 0 (size gradients))
           (st.1, st.2, size standalone_points_indices);
    let selected_features :=
      if (k =? features_count)%Z then selected_features
      else resize_to k PointXYZI.zero selected_features in
    Ok (selected_features, gradient_norms_all, grad_norm_mean, grad_norm_std,
        grad_cutoff_thrd).

(** ** Closed forms of the loops of [selectFeaturesFromCloudByGradient] *)

(** The point of the filtered cloud at an index, as stored there. *)
Definition point_of (extracted_features : ExtractedFeatures) (idx : Z)
  : PointType :=
  match at_ (cloud_filt extracted_features) idx with
  | Ok p => p
  | Err _ => PointXYZI.zero
  end.

(** The entries of the ranking whose gradient reaches the cutoff. *)
Definition retained_of (ranking : list (Z * fl)) (grad_cutoff_thrd : fl)
  : list (Z * fl) :=
  List.filter (fun e => Fl.ge e.2 grad_cutoff_thrd) ranking.

(** The state of the loop over the ranking once the entries [done] have been
    visited: the standalone points, then the retained points, then what is
    left of the [n] default points; the synthetic gradients 1.0, then the
    gradients of [done], then what is left of the [n] zeros; and [k]. *)
Definition select_state_of (extracted_features : ExtractedFeatures)
    (standalone_points_indices : list Z) (grad_cutoff_thrd : fl) (n : nat)
    (done : list (Z * fl)) : PointCloud * list fl * Z :=
  let alone := map (point_of extracted_features) standalone_points_indices in
  let kept :=
    map (fun e => point_of extracted_features e.1)
        (retained_of done grad_cutoff_thrd) in
  ((alone ++ kept) ++ replicate (n - length (alone ++ kept)) PointXYZI.zero,
   (replicate (length alone) (Fin 1) ++ map snd done)
     ++ replicate (n - (length alone + length done)) (Fin 0),
   size (alone ++ kept)).

(** ** [estimateResolution] *)

(** The blend of the two bounds, in exact arithmetic. *)
Definition estimateResolution (percent : fl) (fnc_sorted : list fl)
    (min_res max_res : R) : fl :=
  Fl.add (Fin min_res) (Fl.mul percent (Fin (max_res - min_res))).

(** ** [selectFeatures] *)

(** The object after the call, with its two resolution scalars replaced. *)
Definition set_resolutions (fs : FeatureSelection) (corners surfs : fl)
  : FeatureSelection :=
  {| _resolution_corners := corners;
     _resolution_surfs := surfs;
     _resolution_corners_min := _resolution_corners_min fs;
     _resolution_corners_max := _resolution_corners_max fs;
     _resolution_surfs_min := _resolution_surfs_min fs;
     _resolution_surfs_max := _resolution_surfs_max fs;
     _features_selection_enabled := _features_selection_enabled fs;
     _features_min_count_percent := _features_min_count_percent fs;
     _corners_keep_percentile := _corners_keep_percentile fs;
     _surfs_keep_percentile := _surfs_keep_percentile fs;
     _neigh_idxs_rows_cols := _neigh_idxs_rows_cols fs |}.

(** The returned tuple and the object after the call.  The diagnostics
    message and the publication of the two clouds are write-only and left
    out. *)
Definition selectFeatures (fs : FeatureSelection)
    (extracted_features : ExtractedFeatures)
  : result ((PointCloud * PointCloud * fl * fl) * FeatureSelection) :=
  if negb (_features_selection_enabled fs) then
    Ok ((getLessSharpCorners extracted_features,
         getLessFlatSurfs extracted_features,
         _resolution_corners fs, _resolution_surfs fs), fs)
  else
    '(selected_corners, corner_gradients, corner_gradients_mean,
      corner_gradients_std, corner_grad_cutoff) ←
      selectFeaturesFromCloudByGradient fs extracted_features
        (corner_points_less_sharp_count extracted_features)
        (indices_corners_less_sharp extracted_features)
        (_resolution_corners fs) (_corners_keep_percentile fs);
    '(selected_surfs, surf_gradients, surf_gradients_mean,
      surf_gradients_std, surf_grad_cutoff) ←
      selectFeaturesFromCloudByGradient fs extracted_features
        (surf_points_less_flat_count extracted_features)
        (indices_surfs_less_flat extracted_features)
        (_resolution_surfs fs) (_surfs_keep_percentile fs);
    let resolution_corners :=
      estimateResolution corner_grad_cutoff corner_gradients
        (_resolution_corners_min fs) (_resolution_corners_max fs) in
    let resolution_surfs :=
      estimateResolution surf_grad_cutoff surf_gradients
        (_resolution_surfs_min fs) (_resolution_surfs_max fs) in
    Ok ((selected_corners, selected_surfs, resolution_corners, resolution_surfs),
        set_resolutions fs resolution_corners resolution_surfs).

(** ** Reference definitions for the neighbor search

    [cell_neighbor] is what one cell of the grid contributes to the neighbors
    of a candidate: the position stored at the cell when the cell is not the
    candidate's own, holds a valid index, and lies strictly closer than
    [max_range].  The exhaustive search visits every cell of the grid; the
    window search only the cells inside the angular envelope of the
    candidate. *)

Section Reference.
Variable extracted_features : ExtractedFeatures.
Variable ordered_table : list (list Z).
Variable max_range : fl.

Definition cell_neighbor (idx_in_filt : Z) (cell : Z * Z) : option Vector3f :=
  let '(i, j) := cell in
  let '(this_r, this_c) := getRowColInRawData extracted_features idx_in_filt in
  if ((i =? this_r) && (j =? this_c))%Z then None
  else
    match row ← at_ ordered_table i; at_ row j with
    | Ok neighbor_idx =>
        if (neighbor_idx =? -1)%Z then None
        else
          match at_ (cloud_filt extracted_features) neighbor_idx,
                at_ (cloud_filt extracted_features) idx_in_filt with
          | Ok neighbor_point, Ok p =>
              let point := PointXYZI.xyz p in
              let neighbor := PointXYZI.xyz neighbor_point in
              if Fl.lt (Fin (Vec.norm (Vec.sub neighbor point))) max_range
              then Some neighbor else None
          | _, _ => None
          end
    | Err _ => None
    end.

(** The cells of the grid, row by row. *)
Definition grid_cells : list (Z * Z) :=
  flat_map (fun i => map (pair i)
                       (zrange 0 (i32 (cloud_raw_width extracted_features))))
           (zrange 0 (size ordered_table)).

(** Exhaustive Euclidean radius search over every cell of the grid. *)
Definition bruteForceRadiusSearch (idx_in_filt : Z) : list Vector3f :=
  omap (cell_neighbor idx_in_filt) grid_cells.

(** Is a cell inside the envelope [row_col_idxs] around the candidate's
    cell: at most [max_v_idx] rows away, and at most the column bound of
    that row offset away. *)
Definition in_window (row_col_idxs : bucket) (this_r this_c : Z)
    (cell : Z * Z) : bool :=
  let '(i, j) := cell in
  match last row_col_idxs with
  | Some e =>
      let dv := Z.abs (i - this_r) in
      (dv <=? e.1)%Z &&
      match row_col_idxs !! Z.to_nat dv with
      | Some e' => (Z.abs (j - this_c) <=? e'.2)%Z
      | None => false
      end
  | None => false
  end.

(** The exhaustive search restricted to the cells inside the envelope. *)
Definition windowRadiusSearch (row_col_idxs : bucket) (idx_in_filt : Z)
  : list Vector3f :=
  let '(this_r, this_c) := getRowColInRawData extracted_features idx_in_filt in
  omap (cell_neighbor idx_in_filt)
       (List.filter (in_window row_col_idxs this_r this_c) grid_cells).

(** The same list written with the bounds of the two loops of
    [getNeighborsInBB]. *)
Definition windowNeighbors (row_col_idxs : bucket) (idx_in_filt : Z)
  : list Vector3f :=
  let '(this_r, this_c) := getRowColInRawData extracted_features idx_in_filt in
  let max_v_idx := from_option fst 0%Z (last row_col_idxs) in
  let row_min := Z.max 0 (this_r - max_v_idx) in
  let row_max := Z.min (size ordered_table) (this_r + max_v_idx + 1) in
  flat_map
    (fun i =>
       let h_idx :=
         from_option snd 0%Z (row_col_idxs !! Z.to_nat (Z.abs (i - this_r))) in
       let col_min := Z.max 0 (this_c - h_idx) in
       let col_max := Z.min (i32 (cloud_raw_width extracted_features))
                            (this_c + h_idx + 1) in
       omap (fun j => cell_neighbor idx_in_filt (i, j)) (zrange col_min col_max))
    (zrange row_min row_max).

End Reference.

(** [neighbors_map[idx]] receives the elements of a list one by one. *)
Definition append_at (m : NeighborMap) (idx : Z) (l : list Vector3f)
  : NeighborMap :=
  fold_left (fun m n => push_back_at m idx n) l m.

(** The envelope [getNearestNeighborLimits] hands to the search for a
    candidate (empty when the lookup itself is undefined). *)
Definition envelope_of (fs : FeatureSelection)
    (extracted_features : ExtractedFeatures) (idx_in_filt : Z) : bucket :=
  match getNearestNeighborLimits fs (getRange extracted_features idx_in_filt) with
  | Ok b => b
  | Err _ => []
  end.

(** A bucket as the constructor builds them: one entry per row offset up to
    the bound that every entry repeats. *)
Definition bucket_wf (b : bucket) : Prop :=
  exists max_v_idx : Z,
    (0 <= max_v_idx <= 51)%Z /\ size b = (max_v_idx + 1)%Z /\
    forall e, e ∈ b -> e.1 = max_v_idx /\ (0 <= e.2 <= 325)%Z.

(** A grid the search can run on without raising: every row of the table
    spans the width of the raw cloud, and every cell is either absent or an
    index into the filtered cloud. *)
Record grid_wf (extracted_features : ExtractedFeatures)
    (ordered_table : list (list Z)) : Prop := {
  wf_width : (0 <= cloud_raw_width extracted_features < 2 ^ 30)%Z;
  wf_height : (size ordered_table < 2 ^ 30)%Z;
  wf_rows : forall row, row ∈ ordered_table ->
      (cloud_raw_width extracted_features <= size row)%Z;
  wf_cells : forall row n, row ∈ ordered_table -> n ∈ row ->
      n = (-1)%Z \/ (0 <= n < size (cloud_filt extracted_features))%Z
}.

(** A candidate the search can run on: an index into the filtered cloud
    whose address is not negative and whose range falls into a bucket of the
    table (a well-formed envelope is not empty). *)
Record candidate_wf (fs : FeatureSelection)
    (extracted_features : ExtractedFeatures) (idx_in_filt : Z) : Prop := {
  wf_idx : (0 <= idx_in_filt < size (cloud_filt extracted_features))%Z;
  wf_row : (0 <= (getRowColInRawData extracted_features idx_in_filt).1 < 2 ^ 30)%Z;
  wf_col : (0 <= (getRowColInRawData extracted_features idx_in_filt).2 < 2 ^ 30)%Z;
  wf_bucket : bucket_wf (envelope_of fs extracted_features idx_in_filt)
}.

(** Is a resolution inside its configured bounds. *)
Definition within_bounds (v : fl) (lo hi : R) : Prop :=
  match v with
  | Fin r => lo <= r <= hi
  | NaN => False
  end.

(** ** Example inputs *)

(** The default parameters with selection switched on. *)
Definition params_enabled : Params := {|
  mapping_resolution_corners_min := 0.05;
  mapping_resolution_corners_max := 0.6;
  mapping_resolution_surfs_min := 0.1;
  mapping_resolution_surfs_max := 1.0;
  feature_selection_enable := true;
  feature_selection_min_count_percent := 0.3;
  feature_selection_corners_keep_percentile := 0.5;
  feature_selection_surfs_keep_percentile := 0.5
|}.

(** The objects the constructor builds from them. *)
Definition fs_default : FeatureSelection := init_members default_params built_table.
Definition fs_enabled : FeatureSelection := init_members params_enabled built_table.

(** Modelled from the spec: the dense row by column table that the scan
    collaborator builds for a batch (its code is not part of the sources at
    hand).  A grid of the given size that holds, at the address of every
    index of the batch, that index, and the sentinel -1 elsewhere. *)
Definition table_of (height width : nat) (rowcol : Z -> Z * Z)
    (indices_in_filt : list (list Z)) : list (list Z) :=
  fold_left
    (fun tbl idx =>
       let '(r, c) := rowcol idx in
       alter (fun row => <[Z.to_nat c := idx]> row) (Z.to_nat r) tbl)
    (concat indices_in_filt)
    (replicate height (replicate width (-1)%Z)).

(** A scan of one ring of the given width: the filtered cloud holds the
    given points, each with the column it was measured in; the range of a
    point is its distance to the origin. *)
Definition ring_scan (width : nat) (points : list (Z * PointType))
    (corners surfs : list (list Z)) : ExtractedFeatures :=
  let rowcol := fun idx : Z =>
    (0%Z, from_option fst 0%Z (points !! Z.to_nat idx)) in
  {| cloud_filt := points.*2;
     cloud_raw_width := Z.of_nat width;
     getRowColInRawData := rowcol;
     getRange := fun idx =>
       from_option (fun cp => Vec.norm (PointXYZI.xyz cp.2)) 0
                   (points !! Z.to_nat idx);
     buildOrderedFeatureTable := table_of 1 width rowcol;
     indices_corners_less_sharp := corners;
     indices_surfs_less_flat := surfs;
     corner_points_less_sharp_count := size (concat corners);
     surf_points_less_flat_count := size (concat surfs);
     getLessSharpCorners :=
       omap (fun idx : Z => snd <$> points !! Z.to_nat idx) (concat corners);
     getLessFlatSurfs :=
       omap (fun idx : Z => snd <$> points !! Z.to_nat idx) (concat surfs) |}.

(** A scan without features. *)
Definition ef_empty : ExtractedFeatures := ring_scan 1024 [] [] [].

(** A scan whose only corner feature lies 100 m away. *)
Definition ef_far : ExtractedFeatures :=
  ring_scan 1024 [(0%Z, PointXYZI.mk 100 0 0 1)] [[0%Z]] [].

(** Two corner features half a metre ahead, measured in the first and in the
    last column of the ring: the scan closes on itself there, and the two
    points are 3 mm apart. *)
Definition ef_seam : ExtractedFeatures :=
  ring_scan 1024
    [(0%Z, PointXYZI.mk 0.5 0 0 1); (1023%Z, PointXYZI.mk 0.5 (-0.003) 0 1)]
    [[0%Z; 1%Z]] [].

(** Two surface features about a metre ahead in a ring of 1024 columns: the
    first 1.02 m from the sensor in column 0, the second at the bearing of
    column 91 (0.562 rad), 0.544 m from the first. *)
Definition ef_mid : ExtractedFeatures :=
  ring_scan 1024
    [(0%Z, PointXYZI.mk 1.02 0 0 1); (91%Z, PointXYZI.mk 0.73 0.46 0 1)]
    [] [[0%Z; 1%Z]].

(** Four corner features half a metre ahead in a ring of 120 columns:
    three in a chain (0.1 and 0.14 apart) and a fourth 0.16 further on. *)
Definition ef_chain : ExtractedFeatures :=
  ring_scan 120
    [(0%Z, PointXYZI.mk 0.5 0 0 1); (32%Z, PointXYZI.mk 0.5 0.1 0 1);
     (73%Z, PointXYZI.mk 0.5 0.24 0 1); (110%Z, PointXYZI.mk 0.5 0.4 0 1)]
    [[0%Z; 1%Z; 2%Z; 3%Z]] [].

(** Two corner features in neighboring columns that hold the same point. *)
Definition ef_twin : ExtractedFeatures :=
  ring_scan 120
    [(0%Z, PointXYZI.mk 0.5 0 0 1); (1%Z, PointXYZI.mk 0.5 0 0 1)]
    [[0%Z; 1%Z]] [].

(** A single corner feature. *)
Definition ef_single : ExtractedFeatures :=
  ring_scan 120 [(0%Z, PointXYZI.mk 0.5 0 0 1)] [[0%Z]] [].

(** Does a cell of the grid hold a point other than the candidate. *)
Definition occupied (extracted_features : ExtractedFeatures)
    (ordered_table : list (list Z)) (idx_in_filt : Z) (cell : Z * Z) : bool :=
  let '(i, j) := cell in
  let '(this_r, this_c) := getRowColInRawData extracted_features idx_in_filt in
  negb ((i =? this_r) && (j =? this_c))%Z &&
  match row ← at_ ordered_table i; at_ row j with
  | Ok neighbor_idx => negb (neighbor_idx =? -1)%Z
  | Err _ => false
  end.

(** ** Predicates and forms used by the further properties *)

(** Is a ranking in non-ascending order of its gradients: every entry
    compares [>=] to every entry behind it. *)
Fixpoint descending (l : list (Z * fl)) : Prop :=
  match l with
  | [] => True
  | a :: t => Forall (fun b => Fl.ge a.2 b.2 = true) t /\ descending t
  end.

(** Does the batch hold a grouped feature whose gradient magnitude is not
    zero, so that the running maximum is positive. *)
Definition nondegenerate (extracted_features : ExtractedFeatures)
    (neighbors : NeighborMap) (batch : list Z) : Prop :=
  exists idx, idx ∈ batch /\ has_neighbors neighbors idx = true /\
              grad_norm_of extracted_features neighbors idx <> Fin 0.

(** What [estimateGradients] returns for a batch, given the neighbor map. *)
Definition ranking_of (extracted_features : ExtractedFeatures)
    (neighbors : NeighborMap) (batch : list Z) : list (Z * fl) :=
  sort_desc (normalized_of (grouped_of extracted_features neighbors batch)).

(** A batch the selection can be run on: its count is the number of its
    indices, every index is an index of the filtered cloud, the neighbor
    search with the given radius returns, and some grouped feature has a
    gradient magnitude that is not zero. *)
Definition selectable (fs : FeatureSelection)
    (extracted_features : ExtractedFeatures) (features_count : Z)
    (indices_in_filt : list (list Z)) (search_radius : fl) : Prop :=
  features_count = size (concat indices_in_filt) /\
  (0 < features_count < 2 ^ 32)%Z /\
  (forall idx, idx ∈ concat indices_in_filt ->
               (0 <= idx < size (cloud_filt extracted_features))%Z) /\
  exists neighbors : NeighborMap,
    getNeighborsInBB fs extracted_features indices_in_filt search_radius
      = Ok neighbors /\
    nondegenerate extracted_features neighbors (concat indices_in_filt).

(** Two features 0.1 apart, half a metre ahead in a ring of 120 columns,
    both listed as corners and as surfaces. *)
Definition ef_pair : ExtractedFeatures :=
  ring_scan 120
    [(0%Z, PointXYZI.mk 0.5 0 0 1); (32%Z, PointXYZI.mk 0.5 0.1 0 1)]
    [[0%Z; 1%Z]] [[0%Z; 1%Z]].

(** ** [fillRowNeighbors] and [fillColNeighbors] *)

(** A loop whose body may leave it with [break]: the body answers [None]
    to leave the loop with the state as it is. *)
Fixpoint for_break {I S : Type} (body : I -> S -> result (option S))
    (xs : list I) (s : S) : result S :=
  match xs with
  | [] => Ok s
  | x :: xs' =>
      o ← body x s;
      match o with
      | Some s' => for_break body xs' s'
      | None => Ok s
      end
  end.

(** [neighbors.at(idx).push_back(neighbor)]: [std::unordered_map::at]
    raises [std::out_of_range] for a key the map does not hold. *)
Definition push_back_existing (m : NeighborMap) (idx : Z) (neighbor : Vector3f)
  : result NeighborMap :=
  match m !! idx with
  | Some l => Ok (<[idx := l ++ [neighbor]]> m)
  | None => Err OutOfRange
  end.

(** Body of the two inner loops of [fillRowNeighbors], [k] being [l] or
    [r].  The difference of the two indices is computed on [unsigned int]. *)
Definition row_neighbor_step (cloud_filt : PointCloud)
    (row_features_idxs : list Z) (max_range_sq : fl) (point_idx : Z) (d1 : R)
    (leftwards : bool) (k : Z) (neighbors : NeighborMap)
  : result (option NeighborMap) :=
  v ← at_ row_features_idxs k;
  let neighbor_idx := i32 v in
  np ← at_ cloud_filt neighbor_idx;
  let neighbor := PointXYZI.xyz np in
  let d2 := Vec.norm neighbor in
  let angle :=
    (IZR (u32 (if leftwards then point_idx - neighbor_idx
               else neighbor_idx - point_idx)) * HFOV_RESOLUTION)%R in
  let rr := (d1 * d1 + d2 * d2 - 2 * d1 * d2 * cos angle)%R in
  if Fl.gt (Fin rr) max_range_sq then Ok None
  else (m ← push_back_existing neighbors point_idx neighbor; Ok (Some m)).

(** Body of the outer loop of [fillRowNeighbors]: [int l = i - 1] counts
    down to 0, [unsigned int r = i + 1] counts up to the size of the row. *)
Definition fillRowNeighbors_point (cloud_filt : PointCloud)
    (row_features_idxs : list Z) (max_range_sq : fl) (i : Z)
    (neighbors : NeighborMap) : result NeighborMap :=
  point_idx ← at_ row_features_idxs i;
  point ← at_ cloud_filt point_idx;
  let d1 := Vec.norm (PointXYZI.xyz point) in
  neighbors ←
    for_break (row_neighbor_step cloud_filt row_features_idxs max_range_sq
                                 point_idx d1 true)
              (rev (zrange 0 (i32 (u32 (i - 1)) + 1))) neighbors;
  for_break (row_neighbor_step cloud_filt row_features_idxs max_range_sq
                               point_idx d1 false)
            (zrange (u32 (i + 1)) (size row_features_idxs)) neighbors.

Definition fillRowNeighbors (neighbors : NeighborMap) (cloud_filt : PointCloud)
    (row_features_idxs : list Z) (max_range_sq : fl) : result NeighborMap :=
  forM (fillRowNeighbors_point cloud_filt row_features_idxs max_range_sq)
       (zrange 0 (size row_features_idxs)) neighbors.

(** Body of the loop over [i] of [fillColNeighbors]: the loop over the
    next row has an empty body. *)
Definition fillColNeighbors_point (indices_in_filt : list (list Z))
    (number_of_rows r i : Z) (neighbors : NeighborMap) : result NeighborMap :=
  row ← at_ indices_in_filt r;
  point_idx ← at_ row i;
  if (r <? u32 (number_of_rows - 1))%Z then
    next ← at_ indices_in_filt (u32 (r + 1));
    forM (fun (j : Z) (m : NeighborMap) => Ok m) (zrange 0 (size next)) neighbors
  else Ok neighbors.

Definition fillColNeighbors (neighbors : NeighborMap)
    (extracted_features : ExtractedFeatures)
    (indices_in_filt : list (list Z)) (max_range_sq : fl) : result NeighborMap :=
  let number_of_rows := u32 (size indices_in_filt) in
  forM (fun r m =>
          row ← at_ indices_in_filt r;
          forM (fillColNeighbors_point indices_in_filt number_of_rows r)
               (zrange 0 (size row)) m)
       (zrange 0 number_of_rows) neighbors.

(** [later] holds what [earlier] holds, under the same keys, with the lists
    grown at the back. *)
Definition extends (earlier later : NeighborMap) : Prop :=
  forall k,
    match earlier !! k with
    | Some l => exists l', later !! k = Some (l ++ l')
    | None => later !! k = None
    end.

(** What a neighbor map may hold: under every index, contributions of cells
    of the grid to that index, and only under the indices [allowed]. *)
Definition from_cells (extracted_features : ExtractedFeatures)
    (ordered_table : list (list Z)) (max_range : fl) (allowed : Z -> Prop)
    (m : NeighborMap) : Prop :=
  forall idx p, p ∈ m !!! idx ->
    allowed idx /\
    exists i j,
      cell_neighbor extracted_features ordered_table max_range idx (i, j) = Some p.

(** A map that holds the keys 0 and 1, each with an empty list. *)
Definition two_keys : NeighborMap := <[0%Z := []]> (<[1%Z := []]> ∅).

(** The object that [fs_enabled] becomes by a call on a scan without
    features: both cutoffs are the sentinel -1. *)
Definition fs_after_empty : FeatureSelection :=
  set_resolutions fs_enabled (Fin (0.05 + -1 * (0.6 - 0.05)))
                  (Fin (0.1 + -1 * (1.0 - 0.1))).

(* ================================================================== *)
(** * Proofs *)

(** The operations of the model are unfolded by hand in the proofs. *)
#[global] Arguments Fl.lt : simpl never.
#[global] Arguments Fl.gt : simpl never.
#[global] Arguments Fl.ge : simpl never.
#[global] Arguments Fl.add : simpl never.
#[global] Arguments Fl.sub : simpl never.
#[global] Arguments Fl.mul : simpl never.
#[global] Arguments Fl.div : simpl never.
#[global] Arguments Fl.sqrt : simpl never.
#[global] Arguments Fl.fmax : simpl never.
#[global] Arguments Vec.norm : simpl never.
#[global] Arguments Vec.sub : simpl never.
#[global] Arguments Vec.add : simpl never.
#[global] Arguments Vec.div : simpl never.
#[global] Arguments at_ : simpl never.
#[global] Arguments set_at : simpl never.
#[global] Arguments u32 : simpl never.
#[global] Arguments i32 : simpl never.
#[global] Arguments zrange : simpl never.
#[global] Arguments size : simpl never.
#[global] Arguments cell_neighbor : simpl never.

Section CIntFacts.
Open Scope Z_scope.

Lemma u32_small z : 0 <= z < 2 ^ 32 -> u32 z = z.
Proof. intros H. unfold u32. apply Z.mod_small. exact H. Qed.

Lemma i32_small z : 0 <= z < 2 ^ 31 -> i32 z = z.
Proof.
  intros H. unfold i32. rewrite Z.mod_small by lia.
  destruct (Z.ltb_spec z (2 ^ 31)); lia.
Qed.

Lemma i32_neg z : - 2 ^ 31 <= z < 0 -> i32 (u32 z) = z.
Proof.
  intros H. unfold i32, u32. rewrite Z.mod_mod by lia.
  replace (z mod 2 ^ 32) with (z + 2 ^ 32).
  - destruct (Z.ltb_spec (z + 2 ^ 32) (2 ^ 31)); lia.
  - apply Z.mod_unique with (q := -1); lia.
Qed.

Lemma i32_u32_signed z : - 2 ^ 31 <= z < 2 ^ 31 -> i32 (u32 z) = z.
Proof.
  intros H. destruct (Z_lt_le_dec z 0).
  - apply i32_neg. lia.
  - rewrite u32_small by lia. apply i32_small. lia.
Qed.

Lemma zrange_length lo hi : length (zrange lo hi) = Z.to_nat (hi - lo).
Proof. unfold zrange. rewrite length_map, length_seq. reflexivity. Qed.

Lemma in_zrange lo hi z : In z (zrange lo hi) <-> lo <= z < hi.
Proof.
  unfold zrange. rewrite in_map_iff. split.
  - intros [k [<- Hk]]. apply in_seq in Hk. lia.
  - intros H. exists (Z.to_nat (z - lo)). split; [lia|].
    apply in_seq. lia.
Qed.

End CIntFacts.

(** ** Real-number facts used by the table *)

Section RealFacts.
Open Scope R_scope.

Lemma PI2_lt_2 : PI / 2 <= 2.
Proof. pose proof PI_4. lra. Qed.

Lemma atan_nonneg x : 0 <= x -> 0 <= atan x.
Proof.
  intros [H | <-].
  - left. rewrite <- atan_0. apply atan_increasing. exact H.
  - rewrite atan_0. lra.
Qed.

Lemma atan_le x y : x <= y -> atan x <= atan y.
Proof.
  intros [H | ->]; [left; apply atan_increasing; exact H | lra].
Qed.

Lemma atan2_pos_x y x : 0 < x -> Fl.atan2 y x = atan (y / x).
Proof. intros H. unfold Fl.atan2. destruct (Rlt_dec 0 x); [reflexivity | lra]. Qed.

Lemma atan2_zero_x y : 0 < y -> Fl.atan2 y 0 = PI / 2.
Proof.
  intros H. unfold Fl.atan2.
  destruct (Rlt_dec 0 0); [lra|].
  destruct (Rlt_dec 0 y); [reflexivity | lra].
Qed.

(** In the first quadrant the angle is between 0 and a right angle. *)
Lemma atan2_quadrant y x : 0 <= y -> 0 <= x -> 0 <= Fl.atan2 y x <= PI / 2.
Proof.
  intros Hy Hx. pose proof PI2_RGT_0 as Hpi.
  destruct (Rlt_dec 0 x) as [Hpos | Hnpos].
  - rewrite atan2_pos_x by exact Hpos. split.
    + apply atan_nonneg. unfold Rdiv. apply Rmult_le_pos; [exact Hy|].
      left. apply Rinv_0_lt_compat. exact Hpos.
    + left. apply atan_bound.
  - assert (x = 0) as -> by lra. unfold Fl.atan2.
    destruct (Rlt_dec 0 0); [lra|].
    destruct (Rlt_dec 0 y); [lra|].
    destruct (Rlt_dec y 0); lra.
Qed.

Lemma tan_nonneg x : 0 <= x -> x < PI / 2 -> 0 <= tan x.
Proof.
  intros [H | <-] Hlt.
  - left. apply tan_gt_0; assumption.
  - rewrite tan_0. lra.
Qed.

Lemma tan_le x y : 0 <= x -> x <= y -> y < PI / 2 -> tan x <= tan y.
Proof.
  intros H0 [Hlt | ->] Hy; [|lra].
  left. apply tan_increasing; try assumption.
  pose proof PI2_RGT_0. lra.
Qed.

(** Third-order lower bound of the sine. *)
Lemma sin_lb_poly a : 0 <= a <= 1 -> a - a ^ 3 / 6 <= sin a.
Proof.
  intros H.
  assert (Hpi : a <= PI) by (pose proof PI2_1; lra).
  destruct (SIN a (proj1 H) Hpi) as [Hlb _].
  eapply Rle_trans; [|exact Hlb].
  unfold sin_lb, sin_approx, sin_term. cbn [sum_f_R0].
  replace (2 * 0 + 1)%nat with 1%nat by reflexivity.
  replace (2 * 1 + 1)%nat with 3%nat by reflexivity.
  replace (2 * 2 + 1)%nat with 5%nat by reflexivity.
  replace (2 * 3 + 1)%nat with 7%nat by reflexivity.
  replace (INR (fact 1)) with 1 by (simpl; lra).
  replace (INR (fact 3)) with 6 by (simpl; lra).
  replace (INR (fact 5)) with 120 by (rewrite INR_IZR_INZ; reflexivity).
  replace (INR (fact 7)) with 5040 by (rewrite INR_IZR_INZ; reflexivity).
  assert (0 <= a ^ 5 * (1 - a ^ 2 / 42)).
  { apply Rmult_le_pos; [apply pow_le; lra | nra]. }
  nra.
Qed.

Lemma tan_ge_sin a : 0 <= a <= 1 -> sin a <= tan a.
Proof.
  intros H. pose proof PI2_1 as Hpi.
  assert (Hc : 0 < cos a) by (apply cos_gt_0; lra).
  assert (Hs : 0 <= sin a) by (apply sin_ge_0; lra).
  pose proof (COS_bound a) as [_ Hc1].
  unfold tan. apply Rle_trans with (sin a / 1); [lra|].
  unfold Rdiv. apply Rmult_le_compat_l; [exact Hs|].
  apply Rinv_le_contravar; assumption.
Qed.

(** A small angle whose tangent bounds [u] bounds the arc tangent of [u]. *)
Lemma atan_lt_of_lt_tan u a : 0 <= a <= 1 -> u < a - a ^ 3 / 6 -> atan u < a.
Proof.
  intros Ha Hu. pose proof PI2_1 as Hpi.
  rewrite <- (atan_tan a) by lra.
  apply atan_increasing.
  pose proof (sin_lb_poly a Ha). pose proof (tan_ge_sin a Ha). lra.
Qed.

Lemma Zfloor_nonneg x : 0 <= x -> (0 <= Zfloor x)%Z.
Proof. intros H. apply Zfloor_lub. simpl. exact H. Qed.

Lemma Zfloor_upper x (z : Z) : x < IZR z + 1 -> (Zfloor x <= z)%Z.
Proof.
  intros H. pose proof (Zfloor_bound x) as [Hl _].
  assert (IZR (Zfloor x) < IZR (z + 1)) as Hlt by (rewrite plus_IZR; lra).
  apply lt_IZR in Hlt. lia.
Qed.

End RealFacts.

(** ** The angular table *)

Section AngularTableFacts.
Open Scope R_scope.

Lemma range_of_nonneg s : (0 <= s)%Z -> 0 <= range_of s.
Proof.
  intros H. unfold range_of, NEIGH_IDX_PREC_RANGE_RES.
  apply IZR_le in H. nra.
Qed.

Lemma max_v_idx_bounds range :
  0 <= range -> (0 <= max_v_idx_of range <= 51)%Z.
Proof.
  intros H. unfold max_v_idx_of.
  assert (HR : 0 <= R_radius) by (unfold R_radius; lra).
  pose proof (atan2_quadrant R_radius range HR H) as [Hlo Hhi].
  pose proof PI2_lt_2 as Hpi. unfold VFOV_RESOLUTION. split.
  - apply Zfloor_nonneg. apply Rmult_le_pos; [exact Hlo | lra].
  - apply Zfloor_upper. simpl. lra.
Qed.

Lemma max_h_idx_bounds range i :
  0 <= range -> (0 <= max_h_idx_of range i <= 325)%Z.
Proof.
  intros H. unfold max_h_idx_of. cbv zeta.
  set (q := sqrt _).
  assert (Hq : 0 <= q) by apply sqrt_pos.
  pose proof (atan2_quadrant q range Hq H) as [Hlo Hhi].
  pose proof PI2_lt_2 as Hpi. unfold HFOV_RESOLUTION. split.
  - apply Zfloor_nonneg. apply Rmult_le_pos; [exact Hlo | lra].
  - apply Zfloor_upper. simpl. lra.
Qed.

Lemma bucket_loop_eq range mv l idxs stop :
  fold_left (fun st i => bucket_step range mv i st) l (idxs, stop) =
  (idxs ++ map (fun i => (mv, max_h_idx_of range i)) l,
   stop || ((mv =? 0)%Z && existsb (fun i => (max_h_idx_of range i =? 0)%Z) l)).
Proof.
  revert idxs stop. induction l as [|i l IH]; intros idxs stop; simpl.
  - rewrite app_nil_r. destruct stop, (mv =? 0)%Z; reflexivity.
  - rewrite IH. rewrite <- app_assoc. simpl. f_equal.
    destruct stop, (mv =? 0)%Z, (max_h_idx_of range i =? 0)%Z; reflexivity.
Qed.

Lemma build_bucket_eq s : build_bucket s false = (bucket_of s, stop_at s).
Proof.
  unfold build_bucket, bucket_of, stop_at. cbv zeta.
  rewrite bucket_loop_eq. simpl. f_equal.
  destruct (Z.eqb_spec (max_v_idx_of (range_of s)) 0) as [-> | Hne].
  - change (zrange 0 (0 + 1)) with [0%Z]. simpl.
    rewrite orb_false_r. reflexivity.
  - reflexivity.
Qed.

Lemma bucket_of_length s :
  (0 <= s)%Z ->
  Z.of_nat (length (bucket_of s)) = (max_v_idx_of (range_of s) + 1)%Z.
Proof.
  intros Hs. unfold bucket_of. cbv zeta.
  rewrite length_map, zrange_length.
  pose proof (max_v_idx_bounds _ (range_of_nonneg s Hs)). lia.
Qed.

Lemma bucket_of_entry s e :
  (0 <= s)%Z -> In e (bucket_of s) ->
  e.1 = max_v_idx_of (range_of s) /\ (0 <= e.2 <= 325)%Z.
Proof.
  intros Hs Hin. unfold bucket_of in Hin. cbv zeta in Hin.
  apply in_map_iff in Hin as [i [<- _]]. simpl. split; [reflexivity|].
  apply max_h_idx_bounds, range_of_nonneg, Hs.
Qed.

End AngularTableFacts.

Section TableLoopFacts.
Open Scope Z_scope.

Lemma zrange_cons lo hi : lo < hi -> zrange lo hi = lo :: zrange (lo + 1) hi.
Proof.
  intros H. unfold zrange.
  replace (Z.to_nat (hi - lo)) with (S (Z.to_nat (hi - (lo + 1)))) by lia.
  simpl. f_equal; [lia|].
  rewrite <- seq_shift, map_map. apply map_ext. intros k. lia.
Qed.

Lemma zrange_nil lo hi : hi <= lo -> zrange lo hi = [].
Proof.
  intros H. unfold zrange. replace (Z.to_nat (hi - lo)) with 0%nat by lia.
  reflexivity.
Qed.

Lemma zrange_snoc lo hi : lo <= hi -> zrange lo (hi + 1) = zrange lo hi ++ [hi].
Proof.
  intros H. unfold zrange.
  replace (Z.to_nat (hi + 1 - lo)) with (Z.to_nat (hi - lo) + 1)%nat by lia.
  rewrite seq_app, map_app. simpl. do 2 f_equal. lia.
Qed.

(** The loop stops at the first sample whose bucket sets [stop], and has
    then appended the buckets of all samples up to it. *)
Lemma table_loop_run (n : nat) : forall fuel s tbl,
  0 <= s -> s + Z.of_nat n < 2 ^ 32 ->
  (forall j, s <= j < s + Z.of_nat n -> stop_at j = false) ->
  stop_at (s + Z.of_nat n) = true ->
  (n < fuel)%nat ->
  table_loop fuel s tbl =
    Some (tbl ++ map bucket_of (zrange s (s + Z.of_nat n + 1))).
Proof.
  induction n as [|n IH]; intros fuel s tbl Hs Hlt Hno Hstop Hfuel.
  - destruct fuel as [|fuel]; [lia|]. simpl.
    rewrite build_bucket_eq. rewrite Z.add_0_r in Hstop. rewrite Hstop.
    rewrite Z.add_0_r, zrange_cons, zrange_nil by lia. reflexivity.
  - destruct fuel as [|fuel]; [lia|]. simpl.
    rewrite build_bucket_eq. rewrite (Hno s) by lia.
    rewrite u32_small by lia.
    rewrite (IH fuel (s + 1) (tbl ++ [bucket_of s])); try lia.
    + rewrite <- app_assoc. simpl.
      rewrite (zrange_cons s) by lia. simpl.
      replace (s + 1 + Z.of_nat n + 1) with (s + Z.of_nat (S n) + 1) by lia.
      reflexivity.
    + intros j Hj. apply Hno. lia.
    + rewrite <- Hstop. f_equal. lia.
Qed.

(** Bounded search for the first index at which a test holds. *)
Lemma first_true (f : nat -> bool) (N : nat) :
  f N = true ->
  exists n, (n <= N)%nat /\ f n = true /\ forall j, (j < n)%nat -> f j = false.
Proof.
  induction N as [N IH] using lt_wf_ind. intros HN.
  destruct (forallb (fun j => negb (f j)) (seq 0 N)) eqn:Hall.
  - exists N. split; [lia|]. split; [exact HN|].
    intros j Hj. rewrite forallb_forall in Hall.
    specialize (Hall j). rewrite in_seq in Hall.
    apply negb_true_iff, Hall. lia.
  - apply not_true_iff_false in Hall.
    rewrite forallb_forall in Hall.
    assert (exists j, (j < N)%nat /\ f j = true) as [j [Hj Hfj]].
    { clear IH HN. induction N as [|N IHN].
      - exfalso. apply Hall. intros x Hx. inversion Hx.
      - destruct (f N) eqn:HfN; [exists N; split; [lia | exact HfN]|].
        destruct IHN as [j [Hj Hfj]].
        + intros Hall'. apply Hall. intros x Hx. rewrite in_seq in Hx.
          destruct (Nat.eq_dec x N) as [-> | Hne].
          * rewrite HfN. reflexivity.
          * apply Hall'. rewrite in_seq. lia.
        + exists j. split; [lia | exact Hfj]. }
    destruct (IH j Hj Hfj) as [n [Hn [Hfn Hmin]]].
    exists n. split; [lia|]. split; assumption.
Qed.

End TableLoopFacts.

Section TableNumerics.
Open Scope R_scope.

Lemma k_of_zero range : k_of range 0 = 0.
Proof. unfold k_of. rewrite Rmult_0_l, tan_0. lra. Qed.

Lemma max_h_idx_of_row0 range :
  max_h_idx_of range 0 = Zfloor (Fl.atan2 R_radius range / HFOV_RESOLUTION).
Proof.
  unfold max_h_idx_of. cbv zeta. rewrite k_of_zero.
  replace (R_radius * R_radius - 0 * 0) with (R_radius * R_radius) by lra.
  rewrite sqrt_square by (unfold R_radius; lra). reflexivity.
Qed.

(** Far enough from the sensor the envelope collapses to the own cell. *)
Lemma stop_at_far s : (489 <= s)%Z -> stop_at s = true.
Proof.
  intros Hs. unfold stop_at. cbv zeta. rewrite max_h_idx_of_row0.
  assert (Hr : 97.8 <= range_of s).
  { unfold range_of, NEIGH_IDX_PREC_RANGE_RES. apply IZR_le in Hs. lra. }
  assert (Hrp : 0 < range_of s) by lra.
  assert (Hatan : 0 <= Fl.atan2 R_radius (range_of s) < HFOV_RESOLUTION).
  { split.
    - apply atan2_quadrant; [unfold R_radius; lra | lra].
    - rewrite atan2_pos_x by exact Hrp.
      apply Rle_lt_trans with (atan (R_radius / 97.8)).
      + apply atan_le. unfold R_radius, Rdiv.
        apply Rmult_le_compat_l; [lra|].
        apply Rinv_le_contravar; lra.
      + apply atan_lt_of_lt_tan; unfold HFOV_RESOLUTION, R_radius; lra. }
  unfold max_v_idx_of.
  rewrite (Zfloor_eq 0), (Zfloor_eq 0); [reflexivity | |];
    unfold HFOV_RESOLUTION, VFOV_RESOLUTION in *; simpl; split.
  - apply Rmult_le_pos; lra.
  - apply Rmult_lt_reg_r with 0.00613592315; [lra|].
    unfold Rdiv. rewrite Rmult_assoc, Rinv_l by lra. lra.
  - apply Rmult_le_pos; lra.
  - apply Rmult_lt_reg_r with 0.03862995413; [lra|].
    unfold Rdiv. rewrite Rmult_assoc, Rinv_l by lra. lra.
Qed.

End TableNumerics.

Section BuiltTable.
Open Scope Z_scope.

(** The constructor's loop ends, at the first sample that sets [stop]; the
    table then holds the buckets of the samples up to that one. *)
Lemma built_table_spec :
  exists n : Z,
    0 <= n <= 489 /\ stop_at n = true /\
    (forall j, 0 <= j < n -> stop_at j = false) /\
    table_loop 490 0 [] = Some built_table /\
    built_table = map bucket_of (zrange 0 (n + 1)).
Proof.
  destruct (first_true (fun k => stop_at (Z.of_nat k)) 489)
    as [n [Hn [Hstop Hmin]]].
  { apply stop_at_far. lia. }
  assert (Hrun : table_loop 490 0 [] =
                 Some (map bucket_of (zrange 0 (Z.of_nat n + 1)))).
  { rewrite (table_loop_run n 490 0 []); try lia.
    - reflexivity.
    - intros j Hj. specialize (Hmin (Z.to_nat j)).
      rewrite Z2Nat.id in Hmin by lia. apply Hmin. lia.
    - exact Hstop. }
  exists (Z.of_nat n). split; [lia|]. split; [exact Hstop|]. split.
  - intros j Hj. specialize (Hmin (Z.to_nat j)).
    rewrite Z2Nat.id in Hmin by lia. apply Hmin. lia.
  - unfold built_table. rewrite Hrun. split; reflexivity.
Qed.

Lemma zrange_nth lo hi (k : nat) :
  (k < Z.to_nat (hi - lo))%nat ->
  nth_error (zrange lo hi) k = Some (lo + Z.of_nat k).
Proof.
  intros H. unfold zrange. rewrite nth_error_map.
  rewrite nth_error_seq.
  destruct (Nat.ltb_spec k (Z.to_nat (hi - lo))); [reflexivity | lia].
Qed.

Lemma at_Some {A} (v : list A) (i : Z) (a : A) :
  0 <= i -> nth_error v (Z.to_nat i) = Some a -> at_ v i = Ok a.
Proof.
  intros Hi Hnth. unfold at_.
  assert (Z.to_nat i < length v)%nat
    by (apply nth_error_Some; rewrite Hnth; discriminate).
  destruct (Z.leb_spec 0 i); [|lia].
  destruct (Z.ltb_spec i (Z.of_nat (length v))); [|lia].
  simpl. rewrite Hnth. reflexivity.
Qed.

Lemma at_out {A} (v : list A) (i : Z) :
  i < 0 \/ Z.of_nat (length v) <= i -> at_ v i = Err OutOfRange.
Proof.
  intros H. unfold at_.
  destruct (Z.leb_spec 0 i); [|reflexivity].
  destruct (Z.ltb_spec i (Z.of_nat (length v))); [lia | reflexivity].
Qed.

Lemma at_Ok_inv {A} (v : list A) (i : Z) (a : A) :
  at_ v i = Ok a ->
  0 <= i < Z.of_nat (length v) /\ nth_error v (Z.to_nat i) = Some a.
Proof.
  unfold at_. intros H.
  destruct (Z.leb_spec 0 i); [|discriminate].
  destruct (Z.ltb_spec i (Z.of_nat (length v))); [|discriminate].
  simpl in H. destruct (nth_error v (Z.to_nat i)); [|discriminate].
  inversion H. subst. split; [lia | reflexivity].
Qed.

(** Every bucket below the one that stopped the loop is in the table. *)
Lemma built_table_at s :
  0 <= s -> (forall j, 0 <= j < s -> stop_at j = false) ->
  at_ built_table s = Ok (bucket_of s).
Proof.
  intros Hs Hno.
  destruct built_table_spec as [n [Hn [Hstop [Hmin [_ Heq]]]]].
  assert (s <= n).
  { destruct (Z_le_gt_dec s n); [assumption|].
    rewrite Hno in Hstop by lia. discriminate. }
  apply at_Some; [exact Hs|]. rewrite Heq, nth_error_map.
  rewrite zrange_nth by lia. simpl. f_equal. f_equal. lia.
Qed.

Lemma built_table_length : (length built_table <= 490)%nat.
Proof.
  destruct built_table_spec as [n [Hn [_ [_ [_ Heq]]]]].
  rewrite Heq, length_map, zrange_length. lia.
Qed.

End BuiltTable.

(** ** Loops and vectors *)

Section LoopFacts.
Open Scope Z_scope.

(** A loop whose body never raises is a fold. *)
Lemma forM_fold {I S} (body : I -> S -> result S) (f : I -> S -> S) xs s :
  (forall x s', x ∈ xs -> body x s' = Ok (f x s')) ->
  forM body xs s = Ok (fold_left (fun s' x => f x s') xs s).
Proof.
  revert s. induction xs as [|x xs IH]; intros s H; simpl; [reflexivity|].
  rewrite H by apply list_elem_of_here. simpl.
  apply IH. intros y s' Hy. apply H. apply list_elem_of_further, Hy.
Qed.

Lemma forM_app {I S} (body : I -> S -> result S) xs ys s :
  forM body (xs ++ ys) s = (s' ← forM body xs s; forM body ys s').
Proof.
  revert s. induction xs as [|x xs IH]; intros s; simpl; [reflexivity|].
  destruct (body x s) as [s'|e]; simpl; [apply IH | reflexivity].
Qed.

Lemma elem_of_zrange lo hi z : z ∈ zrange lo hi <-> lo <= z < hi.
Proof. rewrite list_elem_of_In. apply in_zrange. Qed.

Lemma at_in_range {A} (v : list A) (i : Z) :
  0 <= i < size v -> exists a, at_ v i = Ok a /\ a ∈ v.
Proof.
  intros H. unfold size in H.
  destruct (nth_error v (Z.to_nat i)) as [a|] eqn:Hnth.
  - exists a. split; [apply at_Some; [lia | exact Hnth]|].
    apply list_elem_of_In. eapply nth_error_In, Hnth.
  - apply nth_error_None in Hnth. lia.
Qed.

Lemma lookup_nth_error {A} (v : list A) (n : nat) : v !! n = nth_error v n.
Proof. revert v. induction n; intros [|? ?]; simpl; auto. Qed.

Lemma at_lookup {A} (v : list A) (i : Z) (a : A) :
  at_ v i = Ok a <-> 0 <= i /\ v !! Z.to_nat i = Some a.
Proof.
  rewrite lookup_nth_error. split.
  - intros H. apply at_Ok_inv in H as [Hi Hnth]. split; [lia | exact Hnth].
  - intros [Hi Hl]. apply at_Some; assumption.
Qed.

Lemma back_last {A} (v : list A) (a : A) : last v = Some a -> back v = Ok a.
Proof. intros H. unfold back. rewrite H. reflexivity. Qed.

Lemma back_nil {A} : back (@nil A) = Err Undefined.
Proof. reflexivity. Qed.

End LoopFacts.

(** ** The neighbor map *)

Section NeighborMapFacts.
Open Scope Z_scope.

Lemma push_back_at_lookup (m : NeighborMap) idx n idx' :
  push_back_at m idx n !!! idx' =
  if decide (idx = idx') then (m !!! idx) ++ [n] else m !!! idx'.
Proof.
  unfold push_back_at. destruct (decide (idx = idx')) as [<- | Hne].
  - apply lookup_total_insert_eq.
  - apply lookup_total_insert_ne. exact Hne.
Qed.

Lemma append_at_lookup (m : NeighborMap) idx l idx' :
  append_at m idx l !!! idx' =
  if decide (idx = idx') then (m !!! idx) ++ l else m !!! idx'.
Proof.
  unfold append_at. revert m. induction l as [|n l IH]; intros m; simpl.
  - destruct (decide (idx = idx')) as [<- | Hne]; [rewrite app_nil_r|]; reflexivity.
  - rewrite IH. rewrite !push_back_at_lookup.
    destruct (decide (idx = idx')) as [<- | Hne].
    + destruct (decide (idx = idx)); [|congruence].
      rewrite <- app_assoc. reflexivity.
    + reflexivity.
Qed.

Lemma append_at_app (m : NeighborMap) idx l1 l2 :
  append_at m idx (l1 ++ l2) = append_at (append_at m idx l1) idx l2.
Proof. unfold append_at. apply fold_left_app. Qed.

Lemma append_at_cell (m : NeighborMap) idx (o : option Vector3f) :
  match o with Some n => push_back_at m idx n | None => m end =
  append_at m idx (option_list o).
Proof. destruct o; reflexivity. Qed.

End NeighborMapFacts.

(** ** [getNeighborsInBB] visits the cells of the envelope *)

Section WindowSearch.
Open Scope Z_scope.

Variable fs : FeatureSelection.
Variable ef : ExtractedFeatures.
Variable ordered_table : list (list Z).
Variable max_range : fl.
Hypothesis Hgrid : grid_wf ef ordered_table.

Lemma fold_append_omap (g : Z -> option Vector3f) idx xs (m : NeighborMap) :
  fold_left (fun m' x => append_at m' idx (option_list (g x))) xs m =
  append_at m idx (omap g xs).
Proof.
  revert m. induction xs as [|x xs IH]; intros m; simpl; [reflexivity|].
  rewrite IH. destruct (g x); reflexivity.
Qed.

Lemma fold_append_flat_map (g : Z -> list Vector3f) idx xs (m : NeighborMap) :
  fold_left (fun m' x => append_at m' idx (g x)) xs m =
  append_at m idx (flat_map g xs).
Proof.
  revert m. induction xs as [|x xs IH]; intros m; simpl; [reflexivity|].
  rewrite IH, append_at_app. reflexivity.
Qed.

Lemma cloud_width_eq : i32 (cloud_raw_width ef) = cloud_raw_width ef.
Proof. destruct Hgrid. apply i32_small. lia. Qed.

Lemma cloud_height_eq : i32 (size ordered_table) = size ordered_table.
Proof. destruct Hgrid. apply i32_small. unfold size in *. lia. Qed.

Lemma visit_cell_ok idx i j (m : NeighborMap) :
  0 <= idx < size (cloud_filt ef) ->
  0 <= i < size ordered_table ->
  0 <= j < cloud_raw_width ef ->
  visit_cell ef ordered_table max_range idx
             (getRowColInRawData ef idx).1 (getRowColInRawData ef idx).2 i j m =
  Ok (append_at m idx (option_list (cell_neighbor ef ordered_table max_range idx (i, j)))).
Proof.
  intros Hidx Hi Hj. unfold visit_cell, cell_neighbor.
  destruct (getRowColInRawData ef idx) as [r c]. simpl fst. simpl snd.
  destruct ((i =? r) && (j =? c)); [reflexivity|].
  destruct (at_in_range ordered_table i Hi) as [row [Hrow Hin]].
  rewrite Hrow. simpl.
  assert (Hj' : 0 <= j < size row).
  { pose proof (wf_rows _ _ Hgrid row Hin). lia. }
  destruct (at_in_range row j Hj') as [n [Hn Hnin]].
  rewrite Hn. simpl.
  destruct (Z.eqb_spec n (-1)); [reflexivity|].
  destruct (wf_cells _ _ Hgrid row n Hin Hnin) as [? | Hnr]; [contradiction|].
  destruct (at_in_range _ n Hnr) as [np [Hnp _]].
  destruct (at_in_range _ idx Hidx) as [p [Hp _]].
  rewrite Hnp, Hp. simpl.
  destruct (Fl.lt _ max_range); reflexivity.
Qed.

Lemma bucket_wf_last (b : bucket) :
  bucket_wf b ->
  exists mv e, last b = Some e /\ e.1 = mv /\ 0 <= mv <= 51 /\ size b = mv + 1 /\
               forall e', e' ∈ b -> e'.1 = mv /\ 0 <= e'.2 <= 325.
Proof.
  intros [mv [Hmv [Hsz Hall]]].
  destruct (last b) as [e|] eqn:Hlast.
  - exists mv, e. split; [reflexivity|]. split; [|auto].
    apply Hall. apply last_Some_elem_of. exact Hlast.
  - apply last_None in Hlast. subst b. unfold size in Hsz. simpl in Hsz. lia.
Qed.

Lemma bucket_wf_lookup (b : bucket) mv dv :
  size b = mv + 1 -> 0 <= dv <= mv ->
  exists e, b !! Z.to_nat dv = Some e /\ at_ b dv = Ok e /\ e ∈ b.
Proof.
  intros Hsz Hdv. unfold size in Hsz.
  destruct (b !! Z.to_nat dv) as [e|] eqn:Hl.
  - exists e. split; [reflexivity|]. split.
    + apply at_lookup. split; [lia | exact Hl].
    + eapply list_elem_of_lookup_2, Hl.
  - apply lookup_ge_None in Hl. lia.
Qed.

Lemma visit_row_ok (b : bucket) idx i (m : NeighborMap) :
  bucket_wf b ->
  candidate_wf fs ef idx ->
  0 <= i < size ordered_table ->
  Z.abs (i - (getRowColInRawData ef idx).1) <= from_option fst 0 (last b) ->
  let r := (getRowColInRawData ef idx).1 in
  let c := (getRowColInRawData ef idx).2 in
  let h := from_option snd 0 (b !! Z.to_nat (Z.abs (i - r))) in
  visit_row ef ordered_table max_range b idx r c i m =
  Ok (append_at m idx
        (omap (fun j => cell_neighbor ef ordered_table max_range idx (i, j))
              (zrange (Z.max 0 (c - h)) (Z.min (i32 (cloud_raw_width ef)) (c + h + 1))))).
Proof.
  intros Hb Hc Hi Hdv r c h.
  destruct (bucket_wf_last b Hb) as [mv [e [Hlast [He [Hmv [Hsz Hall]]]]]].
  rewrite Hlast in Hdv. simpl in Hdv. rewrite He in Hdv.
  destruct Hc as [Hidx Hr Hcc _]. fold r in Hr, Hdv. fold c in Hcc.
  pose proof (wf_height _ _ Hgrid) as Hh.
  pose proof (wf_width _ _ Hgrid) as Hw.
  unfold visit_row. cbv zeta.
  assert (Hdv' : u32 (Z.abs (i32 (u32 (i - r)))) = Z.abs (i - r)).
  { rewrite i32_u32_signed by lia. apply u32_small. lia. }
  rewrite Hdv'.
  destruct (bucket_wf_lookup b mv (Z.abs (i - r)) Hsz ltac:(lia))
    as [e' [Hl [Hat Hin]]].
  rewrite Hat. simpl.
  subst h. rewrite Hl. simpl.
  destruct (Hall e' Hin) as [_ Hh'].
  rewrite cloud_width_eq.
  rewrite (i32_u32_signed (c - e'.2)) by lia.
  rewrite (i32_u32_signed (c + e'.2 + 1)) by lia.
  rewrite !u32_small by lia.
  rewrite (forM_fold _ (fun j m' => append_at m' idx
             (option_list (cell_neighbor ef ordered_table max_range idx (i, j))))).
  - rewrite fold_append_omap. reflexivity.
  - intros j m' Hj. apply elem_of_zrange in Hj.
    apply visit_cell_ok; lia.
Qed.

Lemma visit_candidate_ok (b : bucket) idx (m : NeighborMap) :
  getNearestNeighborLimits fs (getRange ef idx) = Ok b ->
  bucket_wf b ->
  candidate_wf fs ef idx ->
  visit_candidate fs ef ordered_table max_range idx m =
  Ok (append_at m idx (windowNeighbors ef ordered_table max_range b idx)).
Proof.
  intros Hlim Hb Hc.
  destruct (bucket_wf_last b Hb) as [mv [e [Hlast [He [Hmv [Hsz Hall]]]]]].
  pose proof (wf_height _ _ Hgrid) as Hh.
  pose proof (visit_row_ok b idx) as Hrow.
  pose proof (wf_row _ _ _ Hc) as Hr. pose proof (wf_col _ _ _ Hc) as Hcc.
  unfold visit_candidate, windowNeighbors.
  destruct (getRowColInRawData ef idx) as [r c] eqn:Hrc.
  simpl fst in *. simpl snd in *.
  rewrite Hlim. simpl. rewrite (back_last _ _ Hlast). simpl.
  rewrite Hlast in *. simpl from_option in *. rewrite He in *.
  change (Z.of_nat (length ordered_table)) with (size ordered_table).
  rewrite cloud_height_eq.
  rewrite (i32_u32_signed (r - mv)) by lia.
  rewrite (i32_u32_signed (r + mv + 1)) by lia.
  assert (0 <= size ordered_table) by (unfold size; lia).
  rewrite !u32_small by lia.
  rewrite (forM_fold _ (fun i m' => append_at m' idx
     (omap (fun j => cell_neighbor ef ordered_table max_range idx (i, j))
        (zrange (Z.max 0 (c - from_option snd 0 (b !! Z.to_nat (Z.abs (i - r)))))
                (Z.min (i32 (cloud_raw_width ef))
                   (c + from_option snd 0 (b !! Z.to_nat (Z.abs (i - r))) + 1)))))).
  - rewrite fold_append_flat_map. reflexivity.
  - intros i m' Hi. apply elem_of_zrange in Hi.
    apply Hrow; [exact Hb | exact Hc | lia | lia].
Qed.

End WindowSearch.

Section BatchSearch.
Open Scope Z_scope.

Variable fs : FeatureSelection.
Variable ef : ExtractedFeatures.
Variable max_range : fl.

Lemma forM_concat {I S} (body : I -> S -> result S) (rows : list (list I)) s :
  forM (fun row s' => forM body row s') rows s = forM body (concat rows) s.
Proof.
  revert s. induction rows as [|row rows IH]; intros s; simpl; [reflexivity|].
  rewrite forM_app. destruct (forM body row s); simpl; [apply IH | reflexivity].
Qed.

Lemma envelope_of_wf idx :
  bucket_wf (envelope_of fs ef idx) ->
  getNearestNeighborLimits fs (getRange ef idx) = Ok (envelope_of fs ef idx).
Proof.
  unfold envelope_of. intros [mv [Hmv [Hsz _]]].
  destruct (getNearestNeighborLimits fs (getRange ef idx)); [reflexivity|].
  unfold size in Hsz. simpl in Hsz. lia.
Qed.

(** The neighbors of every candidate of the batch, in the order of the
    batch. *)
Lemma getNeighborsInBB_ok (indices_in_filt : list (list Z)) :
  grid_wf ef (buildOrderedFeatureTable ef indices_in_filt) ->
  (forall idx, idx ∈ concat indices_in_filt -> candidate_wf fs ef idx) ->
  getNeighborsInBB fs ef indices_in_filt max_range =
  Ok (fold_left
        (fun m idx =>
           append_at m idx
             (windowNeighbors ef (buildOrderedFeatureTable ef indices_in_filt)
                              max_range (envelope_of fs ef idx) idx))
        (concat indices_in_filt) ∅).
Proof.
  intros Hgrid Hcand. unfold getNeighborsInBB. cbv zeta.
  rewrite forM_concat.
  apply (forM_fold _ (fun idx m => append_at m idx
           (windowNeighbors ef (buildOrderedFeatureTable ef indices_in_filt)
                            max_range (envelope_of fs ef idx) idx))).
  intros idx m Hin. specialize (Hcand idx Hin).
  apply visit_candidate_ok; try assumption.
  - apply envelope_of_wf, (wf_bucket _ _ _ Hcand).
  - apply (wf_bucket _ _ _ Hcand).
Qed.

Lemma fold_append_lookup (W : Z -> list Vector3f) batch (m : NeighborMap) idx :
  fold_left (fun m' i => append_at m' i (W i)) batch m !!! idx =
  (m !!! idx) ++ flat_map (fun i => if decide (i = idx) then W i else []) batch.
Proof.
  revert m. induction batch as [|i batch IH]; intros m; simpl.
  - rewrite app_nil_r. reflexivity.
  - rewrite IH, append_at_lookup.
    destruct (decide (i = idx)) as [-> | Hne].
    + rewrite <- app_assoc. reflexivity.
    + reflexivity.
Qed.

Lemma fold_append_elem (W : Z -> list Vector3f) batch idx p :
  p ∈ fold_left (fun m' i => append_at m' i (W i)) batch (∅ : NeighborMap) !!! idx
  <-> idx ∈ batch /\ p ∈ W idx.
Proof.
  rewrite fold_append_lookup, lookup_total_empty. simpl.
  rewrite list_elem_of_In, in_flat_map. split.
  - intros [i [Hi Hp]]. destruct (decide (i = idx)) as [-> | Hne].
    + split; apply list_elem_of_In; assumption.
    + inversion Hp.
  - intros [Hi Hp]. exists idx. split; [apply list_elem_of_In, Hi|].
    destruct (decide (idx = idx)); [apply list_elem_of_In, Hp | congruence].
Qed.

End BatchSearch.

Section WindowIsFilter.
Open Scope Z_scope.

Variable ef : ExtractedFeatures.
Variable ordered_table : list (list Z).
Variable max_range : fl.

Lemma elem_of_grid_cells i j :
  (i, j) ∈ grid_cells ef ordered_table <->
  0 <= i < size ordered_table /\ 0 <= j < i32 (cloud_raw_width ef).
Proof.
  unfold grid_cells. rewrite list_elem_of_In, in_flat_map. split.
  - intros [i' [Hi Hj]]. apply in_map_iff in Hj as [j' [Heq Hj]].
    inversion Heq; subst. apply in_zrange in Hi, Hj. lia.
  - intros [Hi Hj]. exists i. split; [apply in_zrange; lia|].
    apply in_map_iff. exists j. split; [reflexivity | apply in_zrange; lia].
Qed.

Lemma elem_of_bruteForce idx p :
  p ∈ bruteForceRadiusSearch ef ordered_table max_range idx <->
  exists i j, 0 <= i < size ordered_table /\ 0 <= j < i32 (cloud_raw_width ef) /\
              cell_neighbor ef ordered_table max_range idx (i, j) = Some p.
Proof.
  unfold bruteForceRadiusSearch. rewrite list_elem_of_omap. split.
  - intros [[i j] [Hin Hc]]. apply elem_of_grid_cells in Hin.
    exists i, j. tauto.
  - intros [i [j [Hi [Hj Hc]]]]. exists (i, j).
    split; [apply elem_of_grid_cells; tauto | exact Hc].
Qed.

Lemma elem_of_windowRadiusSearch (b : bucket) idx p :
  p ∈ windowRadiusSearch ef ordered_table max_range b idx <->
  exists i j, 0 <= i < size ordered_table /\ 0 <= j < i32 (cloud_raw_width ef) /\
              in_window b (getRowColInRawData ef idx).1
                        (getRowColInRawData ef idx).2 (i, j) = true /\
              cell_neighbor ef ordered_table max_range idx (i, j) = Some p.
Proof.
  unfold windowRadiusSearch.
  destruct (getRowColInRawData ef idx) as [r c] eqn:Hrc. simpl fst. simpl snd.
  rewrite list_elem_of_omap. split.
  - intros [[i j] [Hin Hc]]. apply list_elem_of_In, filter_In in Hin as [Hin Hw].
    apply list_elem_of_In, elem_of_grid_cells in Hin.
    exists i, j. tauto.
  - intros [i [j [Hi [Hj [Hw Hc]]]]]. exists (i, j). split; [|exact Hc].
    apply list_elem_of_In, filter_In. split; [|exact Hw].
    apply list_elem_of_In, elem_of_grid_cells. tauto.
Qed.

(** The window search is the exhaustive search with cells left out. *)
Lemma windowRadiusSearch_subset (b : bucket) idx p :
  p ∈ windowRadiusSearch ef ordered_table max_range b idx ->
  p ∈ bruteForceRadiusSearch ef ordered_table max_range idx.
Proof.
  rewrite elem_of_windowRadiusSearch, elem_of_bruteForce.
  intros [i [j [Hi [Hj [_ Hc]]]]]. exists i, j. tauto.
Qed.

Lemma elem_of_windowNeighbors (b : bucket) idx p :
  p ∈ windowNeighbors ef ordered_table max_range b idx <->
  exists i j,
    let r := (getRowColInRawData ef idx).1 in
    let c := (getRowColInRawData ef idx).2 in
    let mv := from_option fst 0 (last b) in
    let h := from_option snd 0 (b !! Z.to_nat (Z.abs (i - r))) in
    Z.max 0 (r - mv) <= i < Z.min (size ordered_table) (r + mv + 1) /\
    Z.max 0 (c - h) <= j < Z.min (i32 (cloud_raw_width ef)) (c + h + 1) /\
    cell_neighbor ef ordered_table max_range idx (i, j) = Some p.
Proof.
  unfold windowNeighbors.
  destruct (getRowColInRawData ef idx) as [r c] eqn:Hrc. simpl fst. simpl snd.
  cbv zeta. rewrite list_elem_of_In, in_flat_map. split.
  - intros [i [Hi Hp]]. apply in_zrange in Hi.
    apply list_elem_of_In, list_elem_of_omap in Hp as [j [Hj Hc]].
    apply elem_of_zrange in Hj. exists i, j. tauto.
  - intros [i [j [Hi [Hj Hc]]]]. exists i. split; [apply in_zrange, Hi|].
    apply list_elem_of_In, list_elem_of_omap. exists j.
    split; [apply elem_of_zrange, Hj | exact Hc].
Qed.

(** The two loops of [getNeighborsInBB] visit exactly the cells of the grid
    that lie inside the envelope. *)
Lemma windowNeighbors_filter (b : bucket) idx p :
  bucket_wf b ->
  p ∈ windowNeighbors ef ordered_table max_range b idx <->
  p ∈ windowRadiusSearch ef ordered_table max_range b idx.
Proof.
  intros Hb.
  destruct (bucket_wf_last b Hb) as [mv [e [Hlast [He [Hmv [Hsz Hall]]]]]].
  rewrite elem_of_windowNeighbors, elem_of_windowRadiusSearch.
  destruct (getRowColInRawData ef idx) as [r c]. simpl fst. simpl snd. cbv zeta.
  unfold in_window. rewrite Hlast. simpl from_option. rewrite He.
  split.
  - intros [i [j [Hi [Hj Hc]]]]. exists i, j.
    destruct (bucket_wf_lookup b mv (Z.abs (i - r)) Hsz ltac:(lia))
      as [e' [Hl [_ Hin]]].
    rewrite Hl in *. simpl in Hj. destruct (Hall e' Hin) as [_ Hh].
    split; [lia|]. split; [lia|]. split; [|exact Hc].
    apply andb_true_intro. split; apply Z.leb_le; lia.
  - intros [i [j [Hi [Hj [Hw Hc]]]]]. exists i, j.
    apply andb_prop in Hw as [Hdv Hw]. apply Z.leb_le in Hdv.
    destruct (b !! Z.to_nat (Z.abs (i - r))) as [e'|]; [|discriminate].
    apply Z.leb_le in Hw. simpl. split; [lia|]. split; [lia | exact Hc].
Qed.

End WindowIsFilter.

(** ** Envelopes of the built table *)

Section BuiltEnvelopes.
Open Scope Z_scope.

Lemma bucket_of_wf s : 0 <= s -> bucket_wf (bucket_of s).
Proof.
  intros Hs. exists (max_v_idx_of (range_of s)). split; [|split].
  - apply max_v_idx_bounds, range_of_nonneg, Hs.
  - apply bucket_of_length, Hs.
  - intros e He. apply bucket_of_entry; [exact Hs | apply list_elem_of_In, He].
Qed.

Lemma built_table_bucket_wf (b : bucket) : b ∈ built_table -> bucket_wf b.
Proof.
  destruct built_table_spec as [n [Hn [_ [_ [_ Heq]]]]].
  rewrite Heq. intros Hin. apply list_elem_of_In, in_map_iff in Hin.
  destruct Hin as [s [<- Hs]]. apply in_zrange in Hs.
  apply bucket_of_wf. lia.
Qed.

Lemma floor_to_unsigned_ok bits x v :
  Zfloor x = v -> 0 <= v < 2 ^ bits -> Fl.floor_to_unsigned bits x = Ok v.
Proof.
  intros Hx Hv. unfold Fl.floor_to_unsigned. cbv zeta. rewrite Hx.
  destruct (Z.leb_spec 0 v); [|lia].
  destruct (Z.ltb_spec v (2 ^ bits)); [reflexivity | lia].
Qed.

(** A range that falls into a built bucket is answered with that bucket. *)
Lemma limits_of_built fs d s :
  _neigh_idxs_rows_cols fs = built_table ->
  Zfloor (d / NEIGH_IDX_PREC_RANGE_RES)%R = s -> 0 <= s ->
  (forall j, 0 <= j < s -> stop_at j = false) ->
  getNearestNeighborLimits fs d = Ok (bucket_of s).
Proof.
  intros Htbl Hd Hs Hno. unfold getNearestNeighborLimits.
  pose proof (built_table_at s Hs Hno) as Hat.
  pose proof built_table_length as Hlen.
  pose proof (at_Ok_inv _ _ _ Hat) as [Hrange _].
  rewrite (floor_to_unsigned_ok 32 _ s Hd) by lia. simpl.
  rewrite Htbl.
  destruct (Z.ltb_spec s (Z.of_nat (length built_table))); [exact Hat | lia].
Qed.

(** A range beyond the last built bucket is answered with the empty
    envelope. *)
Lemma limits_beyond fs d :
  0 <= Zfloor (d / NEIGH_IDX_PREC_RANGE_RES)%R < 2 ^ 32 ->
  size (_neigh_idxs_rows_cols fs) <= Zfloor (d / NEIGH_IDX_PREC_RANGE_RES)%R ->
  getNearestNeighborLimits fs d = Ok [].
Proof.
  intros Hr Hge. unfold getNearestNeighborLimits.
  rewrite (floor_to_unsigned_ok 32 _ _ eq_refl) by lia. simpl.
  unfold size in Hge.
  destruct (Z.ltb_spec (Zfloor (d / NEIGH_IDX_PREC_RANGE_RES))
                       (Z.of_nat (length (_neigh_idxs_rows_cols fs))));
    [lia | reflexivity].
Qed.

Lemma bucket_of_lookup s i :
  0 <= s -> 0 <= i <= max_v_idx_of (range_of s) ->
  bucket_of s !! Z.to_nat i =
  Some (max_v_idx_of (range_of s), max_h_idx_of (range_of s) i).
Proof.
  intros Hs Hi. unfold bucket_of, bucket. cbv zeta.
  rewrite lookup_nth_error, nth_error_map, zrange_nth by lia.
  simpl. rewrite Z2Nat.id by lia. reflexivity.
Qed.

Lemma bucket_of_lookup0 s :
  0 <= s ->
  bucket_of s !! 0%nat =
  Some (max_v_idx_of (range_of s), max_h_idx_of (range_of s) 0).
Proof.
  intros Hs. apply (bucket_of_lookup s 0 Hs).
  pose proof (max_v_idx_bounds _ (range_of_nonneg s Hs)). lia.
Qed.

End BuiltEnvelopes.

Section NearBuckets.
Open Scope R_scope.

(** Up to the radius of the table, the envelope spans an eighth of a turn. *)
Lemma near_angle range :
  0 <= range <= 0.6 -> PI / 4 <= Fl.atan2 R_radius range.
Proof.
  intros [[Hpos | <-] Hle].
  - rewrite atan2_pos_x by exact Hpos. rewrite <- atan_1.
    apply atan_le. unfold R_radius.
    apply Rmult_le_reg_r with range; [exact Hpos|].
    unfold Rdiv. rewrite Rmult_assoc, Rinv_l by lra. lra.
  - rewrite atan2_zero_x by (unfold R_radius; lra).
    pose proof PI_RGT_0. lra.
Qed.

Lemma near_max_v_idx range : 0 <= range <= 0.6 -> (19 <= max_v_idx_of range)%Z.
Proof.
  intros H. unfold max_v_idx_of. apply Zfloor_lub.
  pose proof (near_angle range H). pose proof PI2_3_2.
  unfold VFOV_RESOLUTION.
  apply Rmult_le_reg_r with 0.03862995413; [lra|].
  unfold Rdiv. rewrite Rmult_assoc, Rinv_l by lra. lra.
Qed.

Lemma near_max_h_idx range : 0 <= range <= 0.6 -> (122 <= max_h_idx_of range 0)%Z.
Proof.
  intros H. rewrite max_h_idx_of_row0. apply Zfloor_lub.
  pose proof (near_angle range H). pose proof PI2_3_2.
  unfold HFOV_RESOLUTION.
  apply Rmult_le_reg_r with 0.00613592315; [lra|].
  unfold Rdiv. rewrite Rmult_assoc, Rinv_l by lra. lra.
Qed.

Lemma near_no_stop s : (0 <= s <= 3)%Z -> stop_at s = false.
Proof.
  intros Hs. unfold stop_at. cbv zeta.
  assert (Hr : 0 <= range_of s <= 0.6).
  { unfold range_of, NEIGH_IDX_PREC_RANGE_RES.
    destruct Hs as [H0 H3]. apply IZR_le in H0, H3. lra. }
  pose proof (near_max_v_idx _ Hr).
  destruct (Z.eqb_spec (max_v_idx_of (range_of s)) 0); [lia | reflexivity].
Qed.

(** The bucket of a range between 0.4 and 0.6. *)
Lemma bucket_index_2 d : 0.4 <= d < 0.6 -> Zfloor (d / NEIGH_IDX_PREC_RANGE_RES) = 2%Z.
Proof.
  intros H. apply Zfloor_eq. unfold NEIGH_IDX_PREC_RANGE_RES. simpl. lra.
Qed.

End NearBuckets.

(** * Properties of the feature selection *)

Section Constructor.
Open Scope Z_scope.

Lemma FeatureSelection_new_built p :
  FeatureSelection_new p 490 = Some (init_members p built_table).
Proof.
  unfold FeatureSelection_new.
  destruct built_table_spec as [_ [_ [_ [_ [Hrun _]]]]].
  rewrite Hrun. reflexivity.
Qed.

End Constructor.

(** C9.  The loop that builds the angular table ends after finitely many
    buckets: there is a bucket index [n], at most 489, at which the row
    bound and the column bound of row offset 0 are both 0; the loop, run
    from sample 0, stops there and leaves a table of [n + 1] buckets whose
    last bucket is the single entry (0, 0). *)
Theorem table_construction_terminates :
  exists (n : Z) (tbl : angular_table),
    (0 <= n <= 489)%Z /\
    max_v_idx_of (range_of n) = 0%Z /\
    max_h_idx_of (range_of n) 0 = 0%Z /\
    table_loop 490 0 [] = Some tbl /\
    size tbl = (n + 1)%Z /\
    last tbl = Some [(0, 0)%Z].
Proof.
  destruct built_table_spec as [n [Hn [Hstop [_ [Hrun Heq]]]]].
  exists n, built_table.
  unfold stop_at in Hstop. cbv zeta in Hstop.
  apply andb_prop in Hstop as [Hv Hh].
  apply Z.eqb_eq in Hv, Hh.
  split; [exact Hn|]. split; [exact Hv|]. split; [exact Hh|].
  split; [exact Hrun|]. split.
  - rewrite Heq. unfold size. rewrite length_map, zrange_length. lia.
  - rewrite Heq, zrange_snoc, map_app by lia. simpl map.
    rewrite last_snoc. f_equal.
    unfold bucket_of. cbv zeta. rewrite Hv.
    change (zrange 0 (0 + 1)) with [0%Z]. simpl. rewrite Hh. reflexivity.
Qed.

(** C10.  For every bucket and every row offset [i] up to the row bound of
    the bucket, [k = range * tan (i * VFOV_RESOLUTION)] is at most the
    radius, so the argument of the square root is not negative; the column
    bound computed from it is a non-negative integer that the conversion to
    [unsigned int] represents, and it is the entry stored for [i]. *)
Theorem sqrt_argument_nonneg (sample i : Z) :
  (0 <= sample)%Z ->
  (0 <= i <= max_v_idx_of (range_of sample))%Z ->
  let range := range_of sample in
  let k := k_of range i in
  (0 <= k <= R_radius)%R /\
  (0 <= R_radius * R_radius - k * k)%R /\
  Fl.floor_to_unsigned 32
    (Fl.atan2 (sqrt (R_radius * R_radius - k * k)) range / HFOV_RESOLUTION)
  = Ok (max_h_idx_of range i) /\
  (0 <= max_h_idx_of range i)%Z /\
  bucket_of sample !! Z.to_nat i
  = Some (max_v_idx_of range, max_h_idx_of range i).
Proof.
  intros Hs Hi range k.
  pose proof (range_of_nonneg sample Hs) as Hr. fold range in Hr.
  pose proof (max_h_idx_bounds range i Hr) as Hh.
  assert (Hk : (0 <= k <= R_radius)%R).
  { subst k. unfold k_of.
    destruct Hr as [Hpos | <-]; [|rewrite Rmult_0_l; unfold R_radius; lra].
    assert (Hang : (0 <= IZR i * VFOV_RESOLUTION <= atan (R_radius / range))%R).
    { destruct Hi as [Hi0 Hi1]. apply IZR_le in Hi0, Hi1.
      unfold max_v_idx_of in Hi1. fold range in Hi1.
      rewrite atan2_pos_x in Hi1 by exact Hpos.
      pose proof (Zfloor_bound (atan (R_radius / range) / VFOV_RESOLUTION)) as [Hfl _].
      unfold VFOV_RESOLUTION in *. split; [nra|].
      apply Rmult_le_reg_r with (/ 0.03862995413)%R.
      - apply Rinv_0_lt_compat. lra.
      - rewrite Rmult_assoc, Rinv_r by lra. unfold Rdiv in Hfl. lra. }
    pose proof (atan_bound (R_radius / range)) as [_ Hub].
    assert (Htan : (0 <= tan (IZR i * VFOV_RESOLUTION) <= R_radius / range)%R).
    { split.
      - apply tan_nonneg; lra.
      - rewrite <- (tan_atan (R_radius / range)). apply tan_le; lra. }
    split.
    - apply Rmult_le_pos; lra.
    - apply Rle_trans with (range * (R_radius / range))%R.
      + apply Rmult_le_compat_l; lra.
      + unfold Rdiv. rewrite (Rmult_comm R_radius), <- Rmult_assoc, Rinv_r by lra.
        lra. }
  split; [exact Hk|]. split; [unfold R_radius in *; nra|]. split; [|split].
  - apply floor_to_unsigned_ok; [reflexivity | lia].
  - lia.
  - subst range. apply bucket_of_lookup; assumption.
Qed.

Lemma sqrt_argument_nonneg_witness :
  (0 <= k_of (range_of 0) 0 <= R_radius)%R /\
  (0 <= max_h_idx_of (range_of 0) 0)%Z.
Proof.
  assert (H : (0 <= 0 <= max_v_idx_of (range_of 0))%Z).
  { split; [lia|]. apply max_v_idx_bounds, range_of_nonneg. lia. }
  destruct (sqrt_argument_nonneg 0 0 ltac:(lia) H) as [Hk [_ [_ [Hh _]]]].
  split; assumption.
Defined.

(** C8.  With selection switched off, [selectFeatures] hands back the two
    input batches and the two resolutions it holds, and the object after the
    call is the object before it. *)
Theorem selectFeatures_disabled (fs : FeatureSelection) (ef : ExtractedFeatures) :
  _features_selection_enabled fs = false ->
  selectFeatures fs ef =
  Ok ((getLessSharpCorners ef, getLessFlatSurfs ef,
       _resolution_corners fs, _resolution_surfs fs), fs).
Proof.
  intros Hoff. unfold selectFeatures. rewrite Hoff. reflexivity.
Qed.

Lemma selectFeatures_disabled_witness :
  selectFeatures fs_default ef_far =
  Ok ((getLessSharpCorners ef_far, getLessFlatSurfs ef_far,
       _resolution_corners fs_default, _resolution_surfs fs_default),
      fs_default).
Proof.
  apply (selectFeatures_disabled fs_default ef_far). reflexivity.
Defined.

Section VectorFacts.
Open Scope R_scope.

Lemma norm_x_axis a : Vec.norm (a, 0, 0) = Rabs a.
Proof.
  unfold Vec.norm.
  replace (a * a + 0 * 0 + 0 * 0) with (Rsqr a) by (unfold Rsqr; lra).
  apply sqrt_Rsqr_abs.
Qed.

Lemma norm_y_axis a : Vec.norm (0, a, 0) = Rabs a.
Proof.
  unfold Vec.norm.
  replace (0 * 0 + a * a + 0 * 0) with (Rsqr a) by (unfold Rsqr; lra).
  apply sqrt_Rsqr_abs.
Qed.

Lemma norm_nonneg v : 0 <= Vec.norm v.
Proof. destruct v as [[a b] c]. unfold Vec.norm. apply sqrt_pos. Qed.

End VectorFacts.

(** C3.  A point whose range falls at or beyond the last built bucket gets
    the empty envelope from [getNearestNeighborLimits]; [getNeighborsInBB]
    then takes [back()] of that empty vector, which is undefined: the search
    does not go on with "no neighbors". *)
Theorem far_candidate_faults (fs : FeatureSelection) (ef : ExtractedFeatures)
    (idx : Z) (row : list Z) (rows : list (list Z)) (max_range : fl) :
  (size (_neigh_idxs_rows_cols fs)
   <= Zfloor (getRange ef idx / NEIGH_IDX_PREC_RANGE_RES) < 2 ^ 32)%Z ->
  getNearestNeighborLimits fs (getRange ef idx) = Ok [] /\
  getNeighborsInBB fs ef ((idx :: row) :: rows) max_range = Err Undefined.
Proof.
  intros Hfar.
  assert (Hlim : getNearestNeighborLimits fs (getRange ef idx) = Ok []).
  { apply limits_beyond; unfold size in *; lia. }
  split; [exact Hlim|].
  assert (Hvisit : forall tbl m,
            visit_candidate fs ef tbl max_range idx m = Err Undefined).
  { intros tbl m. unfold visit_candidate.
    destruct (getRowColInRawData ef idx) as [r c].
    rewrite Hlim. reflexivity. }
  unfold getNeighborsInBB. cbv zeta. simpl forM.
  rewrite Hvisit. reflexivity.
Qed.

Lemma far_candidate_faults_witness :
  getNearestNeighborLimits fs_default (getRange ef_far 0) = Ok [] /\
  getNeighborsInBB fs_default ef_far [[0%Z]] (Fin 0.325) = Err Undefined.
Proof.
  apply (far_candidate_faults fs_default ef_far 0 [] [] (Fin 0.325)).
  assert (Hr : getRange ef_far 0 = 100%R).
  { simpl. unfold PointXYZI.xyz. simpl.
    rewrite norm_x_axis. apply Rabs_pos_eq. lra. }
  rewrite Hr.
  assert (Hq : Zfloor (100 / NEIGH_IDX_PREC_RANGE_RES) = 500%Z).
  { apply Zfloor_eq. unfold NEIGH_IDX_PREC_RANGE_RES. simpl. lra. }
  rewrite Hq. pose proof built_table_length.
  change (_neigh_idxs_rows_cols fs_default) with built_table.
  unfold size. lia.
Defined.

(** C4.  With selection switched on and both batches empty, each pipeline
    returns the sentinel cutoff -1, and [estimateResolution] blends with it:
    under the default bounds the corner resolution becomes -0.5 and the
    surface resolution -0.8, both below their lower bounds. *)
Theorem empty_batch_resolution :
  exists out fs',
    selectFeatures fs_enabled ef_empty = Ok (out, fs') /\
    _resolution_corners fs' = Fin (-0.5) /\
    _resolution_surfs fs' = Fin (-0.8) /\
    ~ within_bounds (_resolution_corners fs')
        (_resolution_corners_min fs') (_resolution_corners_max fs') /\
    ~ within_bounds (_resolution_surfs fs')
        (_resolution_surfs_min fs') (_resolution_surfs_max fs').
Proof.
  set (rc := estimateResolution (Fin (-1)) [] 0.05 0.6).
  set (rs := estimateResolution (Fin (-1)) [] 0.1 1.0).
  assert (Hc : rc = Fin (-0.5)).
  { unfold rc, estimateResolution, Fl.add, Fl.mul. simpl. f_equal. lra. }
  assert (Hs : rs = Fin (-0.8)).
  { unfold rs, estimateResolution, Fl.add, Fl.mul. simpl. f_equal. lra. }
  exists ([], [], rc, rs), (set_resolutions fs_enabled rc rs).
  split; [reflexivity|].
  cbn [set_resolutions _resolution_corners _resolution_surfs
       _resolution_corners_min _resolution_corners_max
       _resolution_surfs_min _resolution_surfs_max].
  split; [exact Hc|]. split; [exact Hs|].
  rewrite Hc, Hs. simpl. split; lra.
Qed.

(** ** Scans of one ring close to the sensor *)

Section RingScans.
Open Scope Z_scope.

Lemma norm_bounds (v : Vector3f) (a b : R) :
  (0 <= a)%R -> (0 <= b)%R ->
  (a * a <= v.1.1 * v.1.1 + v.1.2 * v.1.2 + v.2 * v.2 < b * b)%R ->
  (a <= Vec.norm v < b)%R.
Proof.
  intros Ha Hb [Hlo Hhi]. destruct v as [[x y] z]. simpl in *.
  unfold Vec.norm. split.
  - rewrite <- (sqrt_square a) by exact Ha. apply sqrt_le_1_alt. exact Hlo.
  - rewrite <- (sqrt_square b) by exact Hb. apply sqrt_lt_1_alt.
    split; [nra | exact Hhi].
Qed.

(** Closer than 0.8 to the sensor the range falls into one of the first
    four buckets, none of which stops the construction, and the envelope is
    at least 122 columns wide in the candidate's own row. *)
Lemma near_envelope fs d :
  _neigh_idxs_rows_cols fs = built_table ->
  (0 <= d < 0.8)%R ->
  exists s mv h0,
    0 <= s <= 3 /\
    getNearestNeighborLimits fs d = Ok (bucket_of s) /\
    bucket_wf (bucket_of s) /\
    last (bucket_of s) = Some (mv, from_option snd 0 (last (bucket_of s))) /\
    0 <= mv <= 51 /\
    bucket_of s !! 0%nat = Some (mv, h0) /\ 122 <= h0 <= 325.
Proof.
  intros Htbl Hd.
  set (s := Zfloor (d / NEIGH_IDX_PREC_RANGE_RES)%R).
  assert (Hs : 0 <= s <= 3).
  { subst s. unfold NEIGH_IDX_PREC_RANGE_RES. split.
    - apply Zfloor_nonneg. apply Rmult_le_pos; lra.
    - apply Zfloor_upper. simpl. lra. }
  assert (Hr : (0 <= range_of s <= 0.6)%R).
  { unfold range_of, NEIGH_IDX_PREC_RANGE_RES.
    destruct Hs as [H0 H3]. apply IZR_le in H0, H3. lra. }
  pose proof (bucket_of_wf s ltac:(lia)) as Hwf.
  destruct (bucket_wf_last _ Hwf) as [mv [e [Hlast [He [Hmv [Hsz Hall]]]]]].
  exists s, mv, (max_h_idx_of (range_of s) 0).
  split; [exact Hs|]. split.
  { apply limits_of_built; [exact Htbl | reflexivity | lia |].
    intros j Hj. apply near_no_stop. lia. }
  split; [exact Hwf|]. split.
  { rewrite Hlast. simpl. destruct e as [e1 e2]. simpl in He. subst e1.
    reflexivity. }
  split; [exact Hmv|].
  assert (Hmv' : max_v_idx_of (range_of s) = mv).
  { pose proof (bucket_of_length s ltac:(lia)) as Hlen.
    unfold size in Hsz. lia. }
  split.
  - pose proof (bucket_of_lookup0 s) as H0. rewrite Hmv' in H0. apply H0. lia.
  - pose proof (near_max_h_idx _ Hr).
    pose proof (max_h_idx_bounds (range_of s) 0 (proj1 Hr)). lia.
Qed.

End RingScans.

(** ** The window search as a filter of the exhaustive search *)

Section WindowAsFilter.
Open Scope Z_scope.

Lemma filter_zrange lo hi a b :
  List.filter (fun j => (lo <=? j) && (j <? hi)) (zrange a b) =
  zrange (Z.max a lo) (Z.min b hi).
Proof.
  remember (Z.to_nat (b - a)) as n eqn:Hn. revert a Hn.
  induction n as [|n IH]; intros a Hn.
  - rewrite (zrange_nil a b) by lia. simpl. rewrite zrange_nil by lia. reflexivity.
  - rewrite (zrange_cons a b) by lia. simpl. rewrite (IH (a + 1)) by lia.
    destruct (Z.leb_spec lo a); destruct (Z.ltb_spec a hi); simpl.
    + rewrite (zrange_cons (Z.max a lo)) by lia.
      f_equal; [lia | f_equal; lia].
    + rewrite !zrange_nil by lia. reflexivity.
    + f_equal; lia.
    + rewrite !zrange_nil by lia. reflexivity.
Qed.

Lemma filter_flat_map {A B} (P : B -> bool) (g : A -> list B) l :
  List.filter P (flat_map g l) = flat_map (fun x => List.filter P (g x)) l.
Proof.
  induction l as [|x l IH]; simpl; [reflexivity|].
  rewrite List.filter_app, IH. reflexivity.
Qed.

Lemma filter_map_pair (P : Z * Z -> bool) (i : Z) l :
  List.filter P (map (pair i) l) = map (pair i) (List.filter (fun j => P (i, j)) l).
Proof.
  induction l as [|j l IH]; simpl; [reflexivity|].
  rewrite IH. destruct (P (i, j)); reflexivity.
Qed.

Lemma flat_map_skip {A B} (keep : A -> bool) (g : A -> list B) l :
  (forall x, In x l -> keep x = false -> g x = []) ->
  flat_map g l = flat_map g (List.filter keep l).
Proof.
  induction l as [|x l IH]; intros H; simpl; [reflexivity|].
  rewrite IH by (intros y Hy; apply H; right; exact Hy).
  destruct (keep x) eqn:Hk; simpl; [reflexivity|].
  rewrite (H x) by (auto; left; reflexivity). reflexivity.
Qed.

Lemma flat_map_ext_on {A B} (f g : A -> list B) l :
  (forall x, In x l -> f x = g x) -> flat_map f l = flat_map g l.
Proof.
  induction l as [|x l IH]; intros H; simpl; [reflexivity|].
  rewrite (H x) by (left; reflexivity).
  rewrite IH by (intros y Hy; apply H; right; exact Hy). reflexivity.
Qed.

Lemma omap_map_pair {B} (f : Z * Z -> option B) (i : Z) l :
  omap f (map (pair i) l) = omap (fun j => f (i, j)) l.
Proof.
  induction l as [|j l IH]; simpl; [reflexivity|].
  destruct (f (i, j)); [f_equal|]; exact IH.
Qed.

Lemma omap_flat_map_pair {B} (f : Z * Z -> option B) (cols : Z -> list Z) rows :
  omap f (flat_map (fun i => map (pair i) (cols i)) rows) =
  flat_map (fun i => omap (fun j => f (i, j)) (cols i)) rows.
Proof.
  induction rows as [|i rows IH]; simpl; [reflexivity|].
  rewrite omap_app, IH, omap_map_pair. reflexivity.
Qed.

Variable ef : ExtractedFeatures.
Variable ordered_table : list (list Z).
Variable max_range : fl.

(** The loops of [getNeighborsInBB] return the neighbors that the
    exhaustive search finds in the cells of the envelope, in the same
    order. *)
Lemma windowNeighbors_eq (b : bucket) idx :
  bucket_wf b ->
  windowNeighbors ef ordered_table max_range b idx =
  windowRadiusSearch ef ordered_table max_range b idx.
Proof.
  intros Hb.
  destruct (bucket_wf_last b Hb) as [mv [e [Hlast [He [Hmv [Hsz Hall]]]]]].
  unfold windowNeighbors, windowRadiusSearch, grid_cells.
  destruct (getRowColInRawData ef idx) as [r c]. cbv zeta.
  rewrite Hlast. simpl from_option. rewrite He.
  rewrite filter_flat_map.
  rewrite (flat_map_ext _
    (fun i => map (pair i)
       (List.filter (fun j => in_window b r c (i, j))
                    (zrange 0 (i32 (cloud_raw_width ef))))))
    by (intros i; apply filter_map_pair).
  rewrite (flat_map_skip
    (fun i => (r - mv <=? i) && (i <? r + mv + 1))
    (fun i => map (pair i)
       (List.filter (fun j => in_window b r c (i, j))
                    (zrange 0 (i32 (cloud_raw_width ef)))))).
  2:{ intros i _ Hout.
      assert (Hnone : forall j, in_window b r c (i, j) = false).
      { intros j. unfold in_window. rewrite Hlast. simpl. rewrite He.
        destruct (Z.leb_spec (Z.abs (i - r)) mv); [|reflexivity].
        destruct (Z.leb_spec (r - mv) i); destruct (Z.ltb_spec i (r + mv + 1));
          simpl in Hout; try discriminate; lia. }
      erewrite List.filter_ext; [|intros j; apply Hnone].
      clear. induction (zrange 0 _); simpl; auto. }
  rewrite filter_zrange.
  rewrite (omap_flat_map_pair (cell_neighbor ef ordered_table max_range idx)
            (fun i => List.filter (fun j => in_window b r c (i, j))
                        (zrange 0 (i32 (cloud_raw_width ef))))).
  apply flat_map_ext_on. intros i Hi. apply in_zrange in Hi.
  f_equal.
  destruct (bucket_wf_lookup b mv (Z.abs (i - r)) Hsz ltac:(lia))
    as [e' [Hl [_ Hin]]].
  rewrite Hl. simpl from_option. destruct (Hall e' Hin) as [_ Hh].
  rewrite <- (filter_zrange (c - e'.2) (c + e'.2 + 1)).
  apply List.filter_ext. intros j. unfold in_window.
  rewrite Hlast, Hl. simpl. rewrite He.
  destruct (Z.leb_spec (Z.abs (i - r)) mv); [|lia]. simpl.
  destruct (Z.leb_spec (Z.abs (j - c)) e'.2);
    destruct (Z.leb_spec (c - e'.2) j); destruct (Z.ltb_spec j (c + e'.2 + 1));
    simpl; try reflexivity; lia.
Qed.

End WindowAsFilter.

Section SparseGrids.
Open Scope Z_scope.

Variable ef : ExtractedFeatures.
Variable ordered_table : list (list Z).
Variable max_range : fl.

Lemma cell_neighbor_unoccupied idx cell :
  occupied ef ordered_table idx cell = false ->
  cell_neighbor ef ordered_table max_range idx cell = None.
Proof.
  unfold occupied, cell_neighbor. destruct cell as [i j].
  destruct (getRowColInRawData ef idx) as [r c].
  destruct ((i =? r) && (j =? c)); [reflexivity|]. simpl.
  destruct (at_ ordered_table i ≫= λ row, at_ row j) as [n|]; [|reflexivity].
  destruct (n =? -1); [reflexivity | discriminate].
Qed.

Lemma omap_filter_skip {A B} (f : A -> option B) (P keep : A -> bool) l :
  (forall x, keep x = false -> f x = None) ->
  omap f (List.filter P l) = omap f (List.filter P (List.filter keep l)).
Proof.
  intros H. induction l as [|x l IH]; simpl; [reflexivity|].
  destruct (keep x) eqn:Hk; simpl.
  - destruct (P x); simpl; [|exact IH].
    destruct (f x); [f_equal|]; exact IH.
  - destruct (P x); simpl; [|exact IH]. rewrite (H x Hk). exact IH.
Qed.

(** Only the occupied cells of the envelope matter. *)
Lemma windowRadiusSearch_sparse (b : bucket) idx :
  windowRadiusSearch ef ordered_table max_range b idx =
  omap (cell_neighbor ef ordered_table max_range idx)
       (List.filter (in_window b (getRowColInRawData ef idx).1
                                 (getRowColInRawData ef idx).2)
          (List.filter (occupied ef ordered_table idx)
                       (grid_cells ef ordered_table))).
Proof.
  unfold windowRadiusSearch.
  destruct (getRowColInRawData ef idx) as [r c] eqn:Hrc. simpl fst. simpl snd.
  apply omap_filter_skip. intros cell. apply cell_neighbor_unoccupied.
Qed.

Lemma in_window_own_row (b : bucket) mv h0 hl r c j :
  last b = Some (mv, hl) -> 0 <= mv -> b !! 0%nat = Some (mv, h0) ->
  in_window b r c (r, j) = (Z.abs (j - c) <=? h0).
Proof.
  intros Hlast Hmv H0. unfold in_window. rewrite Hlast.
  rewrite Z.sub_diag. change (Z.to_nat (Z.abs 0)) with 0%nat.
  rewrite H0. cbn [fst snd]. change (Z.abs 0) with 0.
  destruct (Z.leb_spec 0 mv); [reflexivity | lia].
Qed.

End SparseGrids.

Section WellFormedScans.
Open Scope Z_scope.

Lemma grid_wf_check ef (tbl : list (list Z)) n :
  size (cloud_filt ef) = n ->
  0 <= cloud_raw_width ef < 2 ^ 30 ->
  size tbl < 2 ^ 30 ->
  forallb (fun row : list Z =>
             (cloud_raw_width ef <=? size row) &&
             forallb (fun c => (c =? -1) || ((0 <=? c) && (c <? n))) row) tbl
  = true ->
  grid_wf ef tbl.
Proof.
  intros Hn Hw Hh Hall. rewrite forallb_forall in Hall.
  constructor; try assumption.
  - intros row Hrow. apply list_elem_of_In, Hall, andb_prop in Hrow as [Hlen _].
    apply Z.leb_le, Hlen.
  - intros row c Hrow Hc.
    apply list_elem_of_In, Hall, andb_prop in Hrow as [_ Hcells].
    rewrite forallb_forall in Hcells.
    apply list_elem_of_In, Hcells, orb_prop in Hc as [Hc | Hc].
    + left. apply Z.eqb_eq, Hc.
    + right. apply andb_prop in Hc as [H0 H1].
      apply Z.leb_le in H0. apply Z.ltb_lt in H1. rewrite Hn. lia.
Qed.

Lemma near_candidate_wf fs ef idx :
  _neigh_idxs_rows_cols fs = built_table ->
  0 <= idx < size (cloud_filt ef) ->
  0 <= (getRowColInRawData ef idx).1 < 2 ^ 30 ->
  0 <= (getRowColInRawData ef idx).2 < 2 ^ 30 ->
  (0 <= getRange ef idx < 0.8)%R ->
  candidate_wf fs ef idx.
Proof.
  intros Htbl Hidx Hr Hc Hd. constructor; try assumption.
  destruct (near_envelope fs _ Htbl Hd) as [s [mv [h0 [_ [Hlim [Hwf _]]]]]].
  unfold envelope_of. rewrite Hlim. exact Hwf.
Qed.

End WellFormedScans.

(** ** The neighbors of a batch *)

Section BatchNeighbors.
Open Scope Z_scope.

(** The neighbors [getNeighborsInBB] returns for a batch. *)
Lemma getNeighborsInBB_lookup fs ef (indices_in_filt : list (list Z)) max_range :
  grid_wf ef (buildOrderedFeatureTable ef indices_in_filt) ->
  (forall idx, idx ∈ concat indices_in_filt -> candidate_wf fs ef idx) ->
  exists m : NeighborMap,
    getNeighborsInBB fs ef indices_in_filt max_range = Ok m /\
    forall idx,
      m !!! idx =
      flat_map
        (fun i => if decide (i = idx)
                  then windowRadiusSearch ef
                         (buildOrderedFeatureTable ef indices_in_filt)
                         max_range (envelope_of fs ef i) i
                  else [])
        (concat indices_in_filt).
Proof.
  intros Hgrid Hcand. eexists. split.
  - apply getNeighborsInBB_ok; assumption.
  - intros idx. rewrite fold_append_lookup, lookup_total_empty. simpl.
    apply flat_map_ext_on. intros i Hi.
    destruct (decide (i = idx)); [|reflexivity].
    apply windowNeighbors_eq, (wf_bucket fs ef i), Hcand, list_elem_of_In, Hi.
Qed.

Section PickCandidate.
Context {B : Type} (W : Z -> list B) (idx : Z).

Lemma flat_map_pick_here l :
  flat_map (fun i => if decide (i = idx) then W i else []) (idx :: l) =
  W idx ++ flat_map (fun i => if decide (i = idx) then W i else []) l.
Proof. simpl. destruct (decide (idx = idx)); [reflexivity | congruence]. Qed.

Lemma flat_map_pick_skip i l :
  i <> idx ->
  flat_map (fun i => if decide (i = idx) then W i else []) (i :: l) =
  flat_map (fun i => if decide (i = idx) then W i else []) l.
Proof. intros Hne. simpl. destruct (decide (i = idx)); [congruence | reflexivity]. Qed.

Lemma flat_map_pick_nil :
  flat_map (fun i => if decide (i = idx) then W i else []) [] = [].
Proof. reflexivity. Qed.

End PickCandidate.

End BatchNeighbors.

(** What the search does find.  On a well-formed grid, for a batch whose
    candidates all fall into a built bucket, [getNeighborsInBB] returns, for
    every candidate, exactly the neighbors that the exhaustive radius search
    finds in the cells inside the candidate's angular envelope; every one of
    them is a neighbor for the exhaustive search over the whole grid. *)
Lemma getNeighborsInBB_window (fs : FeatureSelection) (ef : ExtractedFeatures)
    (indices_in_filt : list (list Z)) (max_range : fl) :
  grid_wf ef (buildOrderedFeatureTable ef indices_in_filt) ->
  (forall idx, idx ∈ concat indices_in_filt -> candidate_wf fs ef idx) ->
  exists m : NeighborMap,
    getNeighborsInBB fs ef indices_in_filt max_range = Ok m /\
    forall idx p, idx ∈ concat indices_in_filt ->
      (p ∈ m !!! idx <->
       p ∈ windowRadiusSearch ef (buildOrderedFeatureTable ef indices_in_filt)
             max_range (envelope_of fs ef idx) idx) /\
      (p ∈ m !!! idx ->
       p ∈ bruteForceRadiusSearch ef
             (buildOrderedFeatureTable ef indices_in_filt) max_range idx).
Proof.
  intros Hgrid Hcand.
  destruct (getNeighborsInBB_lookup fs ef indices_in_filt max_range Hgrid Hcand)
    as [m [Hm Hlook]].
  exists m. split; [exact Hm|]. intros idx p Hidx.
  assert (Hiff : p ∈ m !!! idx <->
                 p ∈ windowRadiusSearch ef
                       (buildOrderedFeatureTable ef indices_in_filt)
                       max_range (envelope_of fs ef idx) idx).
  { rewrite Hlook, list_elem_of_In, in_flat_map. split.
    - intros [i [Hi Hp]]. destruct (decide (i = idx)) as [-> | Hne].
      + apply list_elem_of_In, Hp.
      + inversion Hp.
    - intros Hp. exists idx. split; [apply list_elem_of_In, Hidx|].
      destruct (decide (idx = idx)); [apply list_elem_of_In, Hp | congruence]. }
  split; [exact Hiff|].
  intros Hp. apply Hiff in Hp. eapply windowRadiusSearch_subset, Hp.
Qed.


(** ** A scan that closes on itself *)

#[global] Arguments in_window : simpl never.

(** Bounds between closed integers, by evaluation. *)
Ltac zbounds :=
  lazy; repeat split; solve [reflexivity | discriminate | intro; discriminate].


Section Seam.
Open Scope Z_scope.

Let tbl : list (list Z) := [0 :: replicate 1022 (-1) ++ [1]].

Lemma seam_table : buildOrderedFeatureTable ef_seam [[0; 1]] = tbl.
Proof. reflexivity. Qed.

Lemma seam_grid_wf : grid_wf ef_seam tbl.
Proof.
  apply (grid_wf_check ef_seam tbl 2); [reflexivity | zbounds | zbounds | reflexivity].
Qed.

Lemma seam_range idx : idx = 0 \/ idx = 1 -> (0 <= getRange ef_seam idx < 0.8)%R.
Proof.
  intros [-> | ->]; simpl; unfold PointXYZI.xyz; simpl;
    apply norm_bounds; simpl; lra.
Qed.

Lemma seam_candidate_wf idx :
  idx ∈ concat [[0; 1]] -> candidate_wf fs_default ef_seam idx.
Proof.
  intros Hin. simpl in Hin.
  assert (Hidx : idx = 0 \/ idx = 1).
  { apply list_elem_of_In in Hin. simpl in Hin. intuition. }
  apply near_candidate_wf; [reflexivity | | | | apply seam_range, Hidx];
    destruct Hidx as [-> | ->]; zbounds.
Qed.

Lemma seam_window0 :
  windowRadiusSearch ef_seam tbl (Fin 0.325)
    (envelope_of fs_default ef_seam 0) 0 = [].
Proof.
  rewrite windowRadiusSearch_sparse.
  assert (Hocc : List.filter (occupied ef_seam tbl 0) (grid_cells ef_seam tbl)
                 = [(0, 1023)]) by reflexivity.
  rewrite Hocc.
  destruct (near_envelope fs_default (getRange ef_seam 0) eq_refl
              (seam_range 0 (or_introl eq_refl)))
    as [s [mv [h0 [_ [Hlim [_ [Hlast [Hmv [H0 Hh]]]]]]]]].
  unfold envelope_of. rewrite Hlim.
  change (getRowColInRawData ef_seam 0) with (0, 0). simpl fst. simpl snd.
  cbn [List.filter]. rewrite (in_window_own_row _ _ _ _ _ _ _ Hlast (proj1 Hmv) H0).
  destruct (Z.leb_spec (Z.abs (1023 - 0)) h0); [lia | reflexivity].
Qed.

Lemma seam_brute0 :
  (0.5, -0.003, 0)%R ∈ bruteForceRadiusSearch ef_seam tbl (Fin 0.325) 0.
Proof.
  apply elem_of_bruteForce. exists 0, 1023.
  split; [zbounds|]. split; [zbounds|].
  unfold cell_neighbor.
  change (getRowColInRawData ef_seam 0) with (0, 0).
  change ((0 =? 0) && (1023 =? 0)) with false. cbv iota.
  change (at_ tbl 0 ≫= λ row : list Z, at_ row 1023) with (Ok 1 : result Z).
  cbv iota. change (1 =? -1) with false. cbv iota.
  change (at_ (cloud_filt ef_seam) 1) with (Ok (PointXYZI.mk 0.5 (-0.003) 0 1)).
  change (at_ (cloud_filt ef_seam) 0) with (Ok (PointXYZI.mk 0.5 0 0 1)).
  cbv iota zeta. unfold PointXYZI.xyz. simpl.
  unfold Fl.lt.
  destruct (Rlt_dec _ _) as [_ | Hn]; [reflexivity|].
  exfalso. apply Hn. unfold Vec.sub.
  apply (norm_bounds _ 0 0.325); simpl; lra.
Qed.

(** The window does not wrap around the ring either.  Two points 3 mm
    apart, measured in the first and in the last column of a ring of 1024
    columns: the exhaustive search finds the second as a neighbor of the
    first, the envelope of the first (at most 325 columns wide) does not
    reach it. *)
Lemma seam_neighbor_missed :
  ~ exists m : NeighborMap,
      getNeighborsInBB fs_default ef_seam [[0; 1]] (Fin 0.325) = Ok m /\
      forall p,
        p ∈ m !!! 0 <->
        p ∈ bruteForceRadiusSearch ef_seam
              (buildOrderedFeatureTable ef_seam [[0; 1]]) (Fin 0.325) 0.
Proof.
  intros [m [Hm Heq]].
  destruct (getNeighborsInBB_lookup fs_default ef_seam [[0; 1]] (Fin 0.325))
    as [m' [Hm' Hlook]].
  - rewrite seam_table. apply seam_grid_wf.
  - apply seam_candidate_wf.
  - rewrite Hm in Hm'. inversion Hm'. subst m'.
    specialize (Hlook 0). rewrite seam_table in Hlook, Heq.
    change (concat [[0; 1]]) with [0; 1] in Hlook.
    rewrite flat_map_pick_here, flat_map_pick_skip, flat_map_pick_nil in Hlook
      by discriminate.
    rewrite seam_window0 in Hlook.
    pose proof seam_brute0 as Hb. apply Heq in Hb.
    rewrite Hlook in Hb. inversion Hb.
Qed.


End Seam.

(** ** The loops of [estimateGradients] *)

Section VectorLoops.
Open Scope Z_scope.

Lemma set_at_next {A} (pre : list A) (d a : A) (k : nat) :
  set_at (pre ++ replicate (S k) d) (size pre) a =
  Ok ((pre ++ [a]) ++ replicate k d).
Proof.
  unfold set_at, size. rewrite length_app, length_replicate.
  destruct (Z.leb_spec 0 (Z.of_nat (length pre))); [|lia].
  destruct (Z.ltb_spec (Z.of_nat (length pre)) (Z.of_nat (length pre + S k)));
    [|lia].
  simpl. f_equal. rewrite Nat2Z.id.
  replace (length pre) with (length pre + 0)%nat at 1 by lia.
  rewrite insert_app_r. simpl. rewrite <- app_assoc. reflexivity.
Qed.

Lemma set_at_full {A} (v : list A) (a : A) :
  set_at v (size v) a = Err OutOfRange.
Proof.
  unfold set_at, size.
  destruct (Z.leb_spec 0 (Z.of_nat (length v))); [|reflexivity].
  destruct (Z.ltb_spec (Z.of_nat (length v)) (Z.of_nat (length v)));
    [lia | reflexivity].
Qed.

Lemma at_middle {A} (pre post : list A) (a : A) :
  at_ (pre ++ a :: post) (size pre) = Ok a.
Proof.
  apply at_lookup. unfold size. split; [lia|]. rewrite Nat2Z.id.
  apply list_lookup_middle. reflexivity.
Qed.

Lemma set_at_middle {A} (pre post : list A) (a a' : A) :
  set_at (pre ++ a :: post) (size pre) a' = Ok (pre ++ a' :: post).
Proof.
  unfold set_at, size. rewrite length_app. simpl.
  destruct (Z.leb_spec 0 (Z.of_nat (length pre))); [|lia].
  destruct (Z.ltb_spec (Z.of_nat (length pre)) (Z.of_nat (length pre + S (length post))));
    [|lia].
  simpl. f_equal. rewrite Nat2Z.id.
  replace (length pre) with (length pre + 0)%nat at 1 by lia.
  rewrite insert_app_r. reflexivity.
Qed.

Lemma size_app {A} (l1 l2 : list A) : size (l1 ++ l2) = size l1 + size l2.
Proof. unfold size. rewrite length_app. lia. Qed.

Lemma size_nonneg {A} (l : list A) : 0 <= size l.
Proof. unfold size. lia. Qed.

(** A loop over the indices of a vector that rewrites every element in
    place and accumulates over the rewritten elements. *)
Lemma forM_rewrite_in_place {A S} (f : A -> A) (g : S -> A -> S) :
  forall (post pre : list A) (acc : S),
    forM (fun i (st : list A * S) =>
            let '(v, s) := st in
            e ← at_ v i;
            v' ← set_at v i (f e);
            Ok (v', g s (f e)))
         (zrange (size pre) (size pre + size post)) (pre ++ post, acc) =
    Ok (pre ++ map f post, fold_left (fun s e => g s (f e)) post acc).
Proof.
  induction post as [|a post IH]; intros pre acc.
  - rewrite zrange_nil by (unfold size; simpl; lia). reflexivity.
  - rewrite zrange_cons by (unfold size; simpl; lia).
    cbn [forM]. rewrite at_middle. cbn [mbind result_bind].
    rewrite set_at_middle. cbn [mbind result_bind].
    replace (pre ++ f a :: post) with ((pre ++ [f a]) ++ post)
      by (rewrite <- app_assoc; reflexivity).
    replace (size pre + 1) with (size (pre ++ [f a]))
      by (rewrite size_app; reflexivity).
    replace (size pre + size (a :: post)) with (size (pre ++ [f a]) + size post)
      by (rewrite size_app; unfold size; simpl; lia).
    rewrite IH. cbn [map fold_left]. rewrite <- app_assoc. reflexivity.
Qed.

(** A loop over the indices of a vector that only reads it. *)
Lemma forM_read {A S} (v : list A) (g : S -> A -> S) :
  forall (post pre : list A) (acc : S),
    v = pre ++ post ->
    forM (fun i s => e ← at_ v i; Ok (g s e))
         (zrange (size pre) (size pre + size post)) acc =
    Ok (fold_left g post acc).
Proof.
  induction post as [|a post IH]; intros pre acc Hv.
  - rewrite zrange_nil by (unfold size; simpl; lia). reflexivity.
  - rewrite zrange_cons by (unfold size; simpl; lia).
    cbn [forM]. rewrite Hv at 1. rewrite at_middle. cbn [mbind result_bind].
    replace (size pre + 1) with (size (pre ++ [a]))
      by (rewrite size_app; reflexivity).
    replace (size pre + size (a :: post)) with (size (pre ++ [a]) + size post)
      by (rewrite size_app; unfold size; simpl; lia).
    rewrite (IH (pre ++ [a])); [reflexivity|].
    rewrite Hv, <- app_assoc. reflexivity.
Qed.

End VectorLoops.

Section GradientLoop.
Open Scope Z_scope.

Variable ef : ExtractedFeatures.
Variable neighbors : NeighborMap.
Variable features_count : Z.
Hypothesis Hfc : 0 <= features_count < 2 ^ 32.

Lemma grouped_of_app l1 l2 :
  grouped_of ef neighbors (l1 ++ l2) =
  grouped_of ef neighbors l1 ++ grouped_of ef neighbors l2.
Proof. unfold grouped_of. rewrite List.filter_app, map_app. reflexivity. Qed.

Lemma standalone_of_app l1 l2 :
  standalone_of neighbors (l1 ++ l2) =
  standalone_of neighbors l1 ++ standalone_of neighbors l2.
Proof. unfold standalone_of. apply List.filter_app. Qed.

Lemma grouped_standalone_length l :
  (length (grouped_of ef neighbors l) + length (standalone_of neighbors l)
   = length l)%nat.
Proof.
  unfold grouped_of, standalone_of. rewrite length_map.
  induction l as [|idx l IH]; simpl; [reflexivity|].
  destruct (has_neighbors neighbors idx); simpl; lia.
Qed.

Lemma max_of_snoc raw e : max_of (raw ++ [e]) = Fl.fmax (max_of raw) e.2.
Proof. unfold max_of. rewrite fold_left_app. reflexivity. Qed.

Lemma grouped_of_one idx :
  grouped_of ef neighbors [idx] =
  if has_neighbors neighbors idx then [(idx, grad_norm_of ef neighbors idx)]
  else [].
Proof.
  unfold grouped_of. cbn [List.filter].
  destruct (has_neighbors neighbors idx); reflexivity.
Qed.

Lemma standalone_of_one idx :
  standalone_of neighbors [idx] =
  if has_neighbors neighbors idx then [] else [idx].
Proof.
  unfold standalone_of. cbn [List.filter].
  destruct (has_neighbors neighbors idx); reflexivity.
Qed.

Lemma gradient_step_ok done idx :
  size (done ++ [idx]) <= features_count ->
  (has_neighbors neighbors idx = true -> 0 <= idx < size (cloud_filt ef)) ->
  gradient_step ef neighbors idx (grad_state_of ef neighbors features_count done) =
  Ok (grad_state_of ef neighbors features_count (done ++ [idx])).
Proof.
  intros Hlen Hvalid. rewrite size_app in Hlen. unfold size in Hlen. simpl in Hlen.
  pose proof (grouped_standalone_length done) as Hpart.
  unfold grad_state_of. cbv zeta.
  rewrite grouped_of_app, standalone_of_app, grouped_of_one, standalone_of_one.
  set (g := grouped_of ef neighbors done) in *.
  set (s := standalone_of neighbors done) in *.
  unfold gradient_step.
  cbn [grouped_features_count standalone_features_count grad_norm_max
       standalone_points_indices gradient_norms].
  change (0 <? size (neighbors !!! idx)) with (has_neighbors neighbors idx).
  destruct (has_neighbors neighbors idx) eqn:Hn.
  - destruct (at_in_range _ idx (Hvalid eq_refl)) as [p [Hp _]].
    rewrite Hp. cbn [mbind result_bind].
    replace (Z.to_nat features_count - length g)%nat
      with (S (Z.to_nat features_count - length (g ++ [(idx, grad_norm_of ef neighbors idx)])))
      by (rewrite length_app; simpl; lia).
    assert (Hgn : Fin (Vec.norm (Vec.div
                   (sum_gradient (PointXYZI.xyz p) (neighbors !!! idx))
                   (IZR (size (neighbors !!! idx)))))
                  = grad_norm_of ef neighbors idx).
    { unfold grad_norm_of, point_xyz_of. rewrite Hp. reflexivity. }
    rewrite Hgn, set_at_next. cbn [mbind result_bind].
    rewrite max_of_snoc, !app_nil_r, !size_app.
    rewrite u32_small by (unfold size; simpl; lia).
    reflexivity.
  - replace (Z.to_nat features_count - length s)%nat
      with (S (Z.to_nat features_count - length (s ++ [idx])))
      by (rewrite length_app; simpl; lia).
    rewrite set_at_next. cbn [mbind result_bind].
    rewrite !app_nil_r, !size_app.
    rewrite u32_small by (unfold size; simpl; lia).
    reflexivity.
Qed.

Lemma gradient_loop_ok : forall todo done,
  size (done ++ todo) <= features_count ->
  (forall idx, idx ∈ todo -> has_neighbors neighbors idx = true ->
               0 <= idx < size (cloud_filt ef)) ->
  forM (gradient_step ef neighbors) todo
       (grad_state_of ef neighbors features_count done) =
  Ok (grad_state_of ef neighbors features_count (done ++ todo)).
Proof.
  induction todo as [|idx todo IH]; intros done Hlen Hvalid.
  - rewrite app_nil_r. reflexivity.
  - cbn [forM]. rewrite gradient_step_ok.
    + cbn [mbind result_bind].
      replace (done ++ idx :: todo) with ((done ++ [idx]) ++ todo)
        by (rewrite <- app_assoc; reflexivity).
      apply IH.
      * rewrite <- app_assoc. exact Hlen.
      * intros i Hi. apply Hvalid. apply list_elem_of_further, Hi.
    + rewrite !size_app in *. pose proof (size_nonneg todo).
      unfold size in *. simpl in *. lia.
    + apply Hvalid. apply list_elem_of_here.
Qed.

End GradientLoop.

Section EstimateGradients.
Open Scope Z_scope.

Lemma grad_state_of_nil ef (neighbors : NeighborMap) fc :
  grad_state_of ef neighbors fc [] =
  {| grouped_features_count := 0;
     standalone_features_count := 0;
     grad_norm_max := Fin 0;
     standalone_points_indices := vector_of fc 0;
     gradient_norms := vector_of fc (0, Fin 0) |}.
Proof.
  unfold grad_state_of, vector_of. cbv zeta. simpl.
  rewrite Nat.sub_0_r. reflexivity.
Qed.

Lemma trim_vector {A} (l : list A) (d : A) (fc : Z) :
  size l <= fc ->
  (if size l =? fc then l ++ replicate (Z.to_nat fc - length l) d
   else resize_to (size l) d (l ++ replicate (Z.to_nat fc - length l) d)) = l.
Proof.
  intros Hle. unfold size in *. destruct (Z.eqb_spec (Z.of_nat (length l)) fc) as [Heq | Hne].
  - replace (Z.to_nat fc - length l)%nat with 0%nat by lia.
    simpl. apply app_nil_r.
  - unfold resize_to. rewrite Nat2Z.id.
    rewrite resize_le by (rewrite length_app; lia).
    rewrite take_app_length. reflexivity.
Qed.

Lemma sum_of_normalized raw :
  fold_left (fun s e => Fl.add s (e.1, Fl.div e.2 (max_of raw)).2) raw (Fin 0) =
  sum_of (normalized_of raw).
Proof.
  unfold sum_of, normalized_of. generalize (Fin 0). generalize (max_of raw).
  induction raw as [|e raw IH]; intros mx acc; simpl; [reflexivity|].
  apply IH.
Qed.

Lemma size_normalized raw : size (normalized_of raw) = size raw.
Proof. unfold size, normalized_of. rewrite length_map. reflexivity. Qed.

(** [estimateGradients] in closed form. *)
Lemma estimateGradients_closed fs ef (features_count : Z)
    (indices_in_filt : list (list Z)) search_radius (neighbors : NeighborMap) :
  getNeighborsInBB fs ef indices_in_filt search_radius = Ok neighbors ->
  0 <= features_count < 2 ^ 32 ->
  size (concat indices_in_filt) <= features_count ->
  (forall idx, idx ∈ concat indices_in_filt ->
               has_neighbors neighbors idx = true ->
               0 <= idx < size (cloud_filt ef)) ->
  estimateGradients fs ef features_count indices_in_filt search_radius =
  let normalized :=
    normalized_of (grouped_of ef neighbors (concat indices_in_filt)) in
  Ok (standalone_of neighbors (concat indices_in_filt),
      sort_desc normalized,
      mean_of normalized,
      Fl.sqrt (Fl.div (deviations_of normalized (mean_of normalized))
                      (Fin (IZR features_count)))).
Proof.
  intros Hn Hfc Hlen Hvalid. unfold estimateGradients. cbv zeta.
  rewrite Hn. cbn [mbind result_bind].
  rewrite forM_concat, <- (grad_state_of_nil ef neighbors features_count).
  rewrite (gradient_loop_ok ef neighbors features_count Hfc _ []) by assumption.
  cbn [mbind result_bind app].
  set (batch := concat indices_in_filt) in *.
  pose proof (grouped_standalone_length ef neighbors batch) as Hpart.
  unfold grad_state_of. cbv zeta.
  cbn [grouped_features_count standalone_features_count grad_norm_max
       standalone_points_indices gradient_norms].
  set (raw := grouped_of ef neighbors batch) in *.
  set (alone := standalone_of neighbors batch) in *.
  rewrite (trim_vector raw) by (unfold size in *; lia).
  rewrite (trim_vector alone) by (unfold size in *; lia).
  pose proof (forM_rewrite_in_place
                (fun e : Z * fl => (e.1, Fl.div e.2 (max_of raw)))
                (fun (s : fl) (e : Z * fl) => Fl.add s e.2) raw [] (Fin 0)) as Hnorm.
  change (size (@nil (Z * fl))) with 0 in Hnorm. rewrite Z.add_0_l in Hnorm.
  cbn [app] in Hnorm.
  change (forM (normalize_step (max_of raw)) (zrange 0 (size raw)) (raw, Fin 0)
          = Ok (map (fun e : Z * fl => (e.1, Fl.div e.2 (max_of raw))) raw,
                fold_left (fun (s : fl) (e : Z * fl) =>
                             Fl.add s (e.1, Fl.div e.2 (max_of raw)).2) raw (Fin 0)))
    in Hnorm.
  rewrite Hnorm. cbn [mbind result_bind].
  rewrite sum_of_normalized.
  fold (normalized_of raw).
  assert (Hmean : Fl.div (sum_of (normalized_of raw)) (Fin (IZR (size raw)))
                  = mean_of (normalized_of raw)).
  { unfold mean_of. rewrite size_normalized. reflexivity. }
  rewrite Hmean.
  set (normalized := normalized_of raw) in *.
  pose proof (forM_read normalized
                (fun (s : fl) (e : Z * fl) =>
                   Fl.add s (Fl.mul (Fl.sub e.2 (mean_of normalized))
                                    (Fl.sub e.2 (mean_of normalized))))
                normalized [] (Fin 0) eq_refl) as Hdev.
  change (size (@nil (Z * fl))) with 0 in Hdev. rewrite Z.add_0_l in Hdev.
  assert (Hsz : size normalized = size raw) by apply size_normalized.
  rewrite Hsz in Hdev.
  change (forM (deviation_step normalized (mean_of normalized))
               (zrange 0 (size raw)) (Fin 0)
          = Ok (deviations_of normalized (mean_of normalized))) in Hdev.
  rewrite Hdev. reflexivity.
Qed.

End EstimateGradients.

(** ** Evaluation on scans of one ring *)

Section CellEvaluation.
Open Scope Z_scope.

Lemma cell_neighbor_at ef (tbl : list (list Z)) max_range idx i j r c n np p :
  getRowColInRawData ef idx = (r, c) ->
  (i =? r) && (j =? c) = false ->
  (row ← at_ tbl i; at_ row j) = Ok n ->
  (n =? -1) = false ->
  at_ (cloud_filt ef) n = Ok np ->
  at_ (cloud_filt ef) idx = Ok p ->
  cell_neighbor ef tbl max_range idx (i, j) =
  if Fl.lt (Fin (Vec.norm (Vec.sub (PointXYZI.xyz np) (PointXYZI.xyz p)))) max_range
  then Some (PointXYZI.xyz np) else None.
Proof.
  intros Hrc Hown Hn Hne Hnp Hp. unfold cell_neighbor.
  rewrite Hrc, Hown, Hn, Hne, Hnp, Hp. reflexivity.
Qed.

Lemma lt_norm_true (v : Vector3f) (r : R) :
  (0 <= r)%R -> (v.1.1 * v.1.1 + v.1.2 * v.1.2 + v.2 * v.2 < r * r)%R ->
  Fl.lt (Fin (Vec.norm v)) (Fin r) = true.
Proof.
  intros Hr Hlt. unfold Fl.lt.
  destruct (Rlt_dec (Vec.norm v) r) as [_ | Hn]; [reflexivity|].
  exfalso. apply Hn.
  apply (norm_bounds v 0 r); [lra | exact Hr |]. split; [nra | exact Hlt].
Qed.

Lemma lt_norm_false (v : Vector3f) (r : R) :
  (0 <= r)%R -> (r * r <= v.1.1 * v.1.1 + v.1.2 * v.1.2 + v.2 * v.2)%R ->
  Fl.lt (Fin (Vec.norm v)) (Fin r) = false.
Proof.
  intros Hr Hge. unfold Fl.lt.
  destruct (Rlt_dec (Vec.norm v) r) as [Hlt | _]; [|reflexivity].
  exfalso. destruct v as [[a b] c]. unfold Vec.norm in Hlt. simpl in Hge.
  assert (r <= sqrt (a * a + b * b + c * c))%R; [|lra].
  rewrite <- (sqrt_square r) by exact Hr. apply sqrt_le_1_alt. exact Hge.
Qed.

End CellEvaluation.


Section RingEvaluation.
Open Scope Z_scope.

(** In a ring narrower than the envelope, every occupied cell is visited. *)
Lemma ring_window_eval fs ef (tbl : list (list Z)) max_range idx c occ :
  _neigh_idxs_rows_cols fs = built_table ->
  (0 <= getRange ef idx < 0.8)%R ->
  getRowColInRawData ef idx = (0, c) ->
  List.filter (occupied ef tbl idx) (grid_cells ef tbl) = occ ->
  forallb (fun cell : Z * Z => (cell.1 =? 0) && (Z.abs (cell.2 - c) <=? 122)) occ
  = true ->
  windowRadiusSearch ef tbl max_range (envelope_of fs ef idx) idx =
  omap (cell_neighbor ef tbl max_range idx) occ.
Proof.
  intros Htbl Hd Hrc Hocc Hnear.
  rewrite windowRadiusSearch_sparse, Hocc, Hrc. simpl fst. simpl snd.
  destruct (near_envelope fs (getRange ef idx) Htbl Hd)
    as [s [mv [h0 [_ [Hlim [_ [Hlast [Hmv [H0 Hh]]]]]]]]].
  unfold envelope_of. rewrite Hlim. f_equal.
  rewrite forallb_forall in Hnear.
  clear Hocc. induction occ as [|[i j] occ IH]; [reflexivity|].
  cbn [List.filter].
  pose proof (Hnear (i, j) (or_introl eq_refl)) as Hc.
  apply andb_prop in Hc as [Hi Hj]. simpl in Hi, Hj.
  apply Z.eqb_eq in Hi. apply Z.leb_le in Hj. subst i.
  rewrite (in_window_own_row _ _ _ _ _ _ _ Hlast (proj1 Hmv) H0).
  destruct (Z.leb_spec (Z.abs (j - c)) h0); [|lia].
  f_equal. apply IH. intros x Hx. apply Hnear. right. exact Hx.
Qed.

Lemma norm_eq (a b c v : R) :
  (0 <= v)%R -> (a * a + b * b + c * c = v * v)%R -> Vec.norm (a, b, c) = v.
Proof.
  intros Hv Heq. unfold Vec.norm. rewrite Heq. apply sqrt_square, Hv.
Qed.

End RingEvaluation.

(** ** Two features that hold the same point *)

Section Twin.
Open Scope Z_scope.

Let tbl : list (list Z) := [0 :: 1 :: replicate 118 (-1)].

Lemma twin_table : buildOrderedFeatureTable ef_twin [[0; 1]] = tbl.
Proof. reflexivity. Qed.

Lemma twin_grid_wf : grid_wf ef_twin tbl.
Proof.
  apply (grid_wf_check ef_twin tbl 2); [reflexivity | zbounds | zbounds | reflexivity].
Qed.

Lemma twin_range idx : idx = 0 \/ idx = 1 -> (0 <= getRange ef_twin idx < 0.8)%R.
Proof.
  intros [-> | ->]; simpl; unfold PointXYZI.xyz; simpl;
    apply norm_bounds; simpl; lra.
Qed.

Lemma twin_candidate_wf idx :
  idx ∈ concat [[0; 1]] -> candidate_wf fs_default ef_twin idx.
Proof.
  intros Hin.
  assert (Hidx : idx = 0 \/ idx = 1).
  { apply list_elem_of_In in Hin. simpl in Hin. intuition. }
  apply near_candidate_wf; [reflexivity | | | | apply twin_range, Hidx];
    destruct Hidx as [-> | ->]; zbounds.
Qed.

Lemma twin_window idx :
  idx = 0 \/ idx = 1 ->
  windowRadiusSearch ef_twin tbl (Fin 0.325)
    (envelope_of fs_default ef_twin idx) idx = [(0.5, 0, 0)%R].
Proof.
  intros Hidx.
  assert (Hr := twin_range idx Hidx).
  destruct Hidx as [-> | ->].
  - rewrite (ring_window_eval fs_default ef_twin tbl _ 0 0 [(0, 1)]
               eq_refl Hr eq_refl eq_refl eq_refl).
    cbn [omap list_omap]. erewrite cell_neighbor_at by reflexivity.
    rewrite lt_norm_true; [reflexivity | lra | simpl; lra].
  - rewrite (ring_window_eval fs_default ef_twin tbl _ 1 1 [(0, 0)]
               eq_refl Hr eq_refl eq_refl eq_refl).
    cbn [omap list_omap]. erewrite cell_neighbor_at by reflexivity.
    rewrite lt_norm_true; [reflexivity | lra | simpl; lra].
Qed.

Lemma twin_neighbors :
  exists m : NeighborMap,
    getNeighborsInBB fs_default ef_twin [[0; 1]] (Fin 0.325) = Ok m /\
    m !!! 0 = ([(0.5, 0, 0)%R] : list Vector3f) /\
    m !!! 1 = ([(0.5, 0, 0)%R] : list Vector3f).
Proof.
  destruct (getNeighborsInBB_lookup fs_default ef_twin [[0; 1]] (Fin 0.325))
    as [m [Hm Hlook]].
  - rewrite twin_table. apply twin_grid_wf.
  - apply twin_candidate_wf.
  - exists m. split; [exact Hm|]. rewrite twin_table in Hlook.
    change (concat [[0; 1]]) with [0; 1] in Hlook. split.
    + rewrite Hlook, flat_map_pick_here, flat_map_pick_skip, flat_map_pick_nil
        by discriminate.
      rewrite app_nil_r. apply twin_window. left. reflexivity.
    + rewrite Hlook, flat_map_pick_skip, flat_map_pick_here, flat_map_pick_nil
        by discriminate.
      rewrite app_nil_r. apply twin_window. right. reflexivity.
Qed.

Lemma twin_grad_norm (m : NeighborMap) idx :
  idx = 0 \/ idx = 1 ->
  m !!! idx = ([(0.5, 0, 0)%R] : list Vector3f) ->
  grad_norm_of ef_twin m idx = Fin 0.
Proof.
  intros Hidx Hm. unfold grad_norm_of, point_xyz_of. rewrite Hm.
  assert (Hp : at_ (cloud_filt ef_twin) idx = Ok (PointXYZI.mk 0.5 0 0 1))
    by (destruct Hidx as [-> | ->]; reflexivity).
  rewrite Hp. f_equal.
  unfold sum_gradient, PointXYZI.xyz, Vec.div, Vec.add, Vec.sub, Vec.Zero.
  cbn [fold_left PointXYZI.x PointXYZI.y PointXYZI.z].
  apply norm_eq; [lra|].
  change (size [(0.5, 0, 0)%R]) with 1. lra.
Qed.

(** C7.  Two grouped features that hold the same point: both magnitudes and
    their running maximum are 0, and the division by the maximum turns both
    gradients into NaN, which is not in the unit interval; no feature
    attains 1. *)
Theorem twin_gradients_not_normalized :
  exists ranking,
    estimateGradients fs_default ef_twin 2 [[0; 1]] (Fin 0.325) =
    Ok ([], ranking, NaN, NaN) /\
    ranking = [(0, NaN); (1, NaN)] /\
    Forall (fun e : Z * fl => ~ in_unit e.2 /\ e.2 <> Fin 1) ranking.
Proof.
  destruct twin_neighbors as [m [Hm [Hm0 Hm1]]].
  assert (Hh0 : has_neighbors m 0 = true) by (unfold has_neighbors; rewrite Hm0; reflexivity).
  assert (Hh1 : has_neighbors m 1 = true) by (unfold has_neighbors; rewrite Hm1; reflexivity).
  assert (Hraw : grouped_of ef_twin m [0; 1] = [(0, Fin 0); (1, Fin 0)]).
  { unfold grouped_of. cbn [List.filter]. rewrite Hh0, Hh1. cbn [map].
    rewrite !twin_grad_norm by auto. reflexivity. }
  assert (Halone : standalone_of m [0; 1] = []).
  { unfold standalone_of. cbn [List.filter]. rewrite Hh0, Hh1. reflexivity. }
  assert (Hmax : max_of [(0, Fin 0); (1, Fin 0)] = Fin 0).
  { unfold max_of. cbn [fold_left snd]. unfold Fl.fmax.
    rewrite !(Rmax_left 0 0) by lra. reflexivity. }
  assert (Hnorm : normalized_of [(0, Fin 0); (1, Fin 0)] = [(0, NaN); (1, NaN)]).
  { unfold normalized_of. rewrite Hmax. cbn [map fst snd]. unfold Fl.div.
    destruct (Req_dec_T 0 0); [reflexivity | lra]. }
  exists [(0, NaN); (1, NaN)].
  split; [|split; [reflexivity|]].
  - rewrite (estimateGradients_closed _ _ _ _ _ m Hm); [| zbounds | zbounds |].
    + cbv zeta. change (concat [[0; 1]]) with [0; 1].
      rewrite Halone, Hraw, Hnorm. reflexivity.
    + intros idx Hin _. change (concat [[0; 1]]) with [0; 1] in Hin.
      apply list_elem_of_In in Hin. simpl in Hin.
      destruct Hin as [<- | [<- | []]]; zbounds.
  - repeat constructor; simpl; auto; discriminate.
Qed.

End Twin.

(** Evaluation of one occupied cell, the distance test being decided by the
    squared distance. *)
Ltac cell_is :=
  erewrite cell_neighbor_at by reflexivity;
  first [ rewrite lt_norm_true
            by (unfold Vec.sub, PointXYZI.xyz; simpl; lra)
        | rewrite lt_norm_false
            by (unfold Vec.sub, PointXYZI.xyz; simpl; lra) ];
  reflexivity.

(** ** A chain of three features and a fourth apart *)

Section Chain.
Open Scope Z_scope.

Let tbl : list (list Z) := buildOrderedFeatureTable ef_chain [[0; 1; 2; 3]].
Let P0 : Vector3f := (0.5, 0, 0)%R.
Let P1 : Vector3f := (0.5, 0.1, 0)%R.
Let P2 : Vector3f := (0.5, 0.24, 0)%R.
Let P3 : Vector3f := (0.5, 0.4, 0)%R.

Lemma chain_grid_wf : grid_wf ef_chain tbl.
Proof.
  apply (grid_wf_check ef_chain tbl 4); [reflexivity | zbounds | zbounds | reflexivity].
Qed.

Lemma chain_idx idx :
  idx ∈ concat [[0; 1; 2; 3]] -> idx = 0 \/ idx = 1 \/ idx = 2 \/ idx = 3.
Proof.
  intros Hin. apply list_elem_of_In in Hin. simpl in Hin. intuition.
Qed.

Lemma chain_range idx :
  idx = 0 \/ idx = 1 \/ idx = 2 \/ idx = 3 ->
  (0 <= getRange ef_chain idx < 0.8)%R.
Proof.
  intros [-> | [-> | [-> | ->]]]; simpl; unfold PointXYZI.xyz; simpl;
    apply norm_bounds; simpl; lra.
Qed.

Lemma chain_candidate_wf idx :
  idx ∈ concat [[0; 1; 2; 3]] -> candidate_wf fs_default ef_chain idx.
Proof.
  intros Hin. apply chain_idx in Hin.
  apply near_candidate_wf; [reflexivity | | | | apply chain_range, Hin];
    destruct Hin as [-> | [-> | [-> | ->]]]; zbounds.
Qed.

Lemma chain_window0 :
  windowRadiusSearch ef_chain tbl (Fin 0.15) (envelope_of fs_default ef_chain 0) 0
  = [P1].
Proof.
  rewrite (ring_window_eval fs_default ef_chain tbl _ 0 0 [(0, 32); (0, 73); (0, 110)]
             eq_refl (chain_range 0 ltac:(auto)) eq_refl eq_refl eq_refl).
  assert (H1 : cell_neighbor ef_chain tbl (Fin 0.15) 0 (0, 32) = Some P1) by cell_is.
  assert (H2 : cell_neighbor ef_chain tbl (Fin 0.15) 0 (0, 73) = None) by cell_is.
  assert (H3 : cell_neighbor ef_chain tbl (Fin 0.15) 0 (0, 110) = None) by cell_is.
  cbn [omap list_omap]. rewrite H1, H2, H3. reflexivity.
Qed.

Lemma chain_window1 :
  windowRadiusSearch ef_chain tbl (Fin 0.15) (envelope_of fs_default ef_chain 1) 1
  = [P0; P2].
Proof.
  rewrite (ring_window_eval fs_default ef_chain tbl _ 1 32 [(0, 0); (0, 73); (0, 110)]
             eq_refl (chain_range 1 ltac:(auto)) eq_refl eq_refl eq_refl).
  assert (H1 : cell_neighbor ef_chain tbl (Fin 0.15) 1 (0, 0) = Some P0) by cell_is.
  assert (H2 : cell_neighbor ef_chain tbl (Fin 0.15) 1 (0, 73) = Some P2) by cell_is.
  assert (H3 : cell_neighbor ef_chain tbl (Fin 0.15) 1 (0, 110) = None) by cell_is.
  cbn [omap list_omap]. rewrite H1, H2, H3. reflexivity.
Qed.

Lemma chain_window2 :
  windowRadiusSearch ef_chain tbl (Fin 0.15) (envelope_of fs_default ef_chain 2) 2
  = [P1].
Proof.
  rewrite (ring_window_eval fs_default ef_chain tbl _ 2 73 [(0, 0); (0, 32); (0, 110)]
             eq_refl (chain_range 2 ltac:(auto)) eq_refl eq_refl eq_refl).
  assert (H1 : cell_neighbor ef_chain tbl (Fin 0.15) 2 (0, 0) = None) by cell_is.
  assert (H2 : cell_neighbor ef_chain tbl (Fin 0.15) 2 (0, 32) = Some P1) by cell_is.
  assert (H3 : cell_neighbor ef_chain tbl (Fin 0.15) 2 (0, 110) = None) by cell_is.
  cbn [omap list_omap]. rewrite H1, H2, H3. reflexivity.
Qed.

Lemma chain_window3 :
  windowRadiusSearch ef_chain tbl (Fin 0.15) (envelope_of fs_default ef_chain 3) 3
  = [].
Proof.
  rewrite (ring_window_eval fs_default ef_chain tbl _ 3 110 [(0, 0); (0, 32); (0, 73)]
             eq_refl (chain_range 3 ltac:(auto)) eq_refl eq_refl eq_refl).
  assert (H1 : cell_neighbor ef_chain tbl (Fin 0.15) 3 (0, 0) = None) by cell_is.
  assert (H2 : cell_neighbor ef_chain tbl (Fin 0.15) 3 (0, 32) = None) by cell_is.
  assert (H3 : cell_neighbor ef_chain tbl (Fin 0.15) 3 (0, 73) = None) by cell_is.
  cbn [omap list_omap]. rewrite H1, H2, H3. reflexivity.
Qed.

Lemma chain_neighbors :
  exists m : NeighborMap,
    getNeighborsInBB fs_default ef_chain [[0; 1; 2; 3]] (Fin 0.15) = Ok m /\
    m !!! 0 = [P1] /\ m !!! 1 = [P0; P2] /\ m !!! 2 = [P1] /\ m !!! 3 = [].
Proof.
  destruct (getNeighborsInBB_lookup fs_default ef_chain [[0; 1; 2; 3]] (Fin 0.15)
              chain_grid_wf chain_candidate_wf) as [m [Hm Hlook]].
  exists m. split; [exact Hm|]. fold tbl in Hlook.
  change (concat [[0; 1; 2; 3]]) with [0; 1; 2; 3] in Hlook.
  repeat split; rewrite Hlook.
  - rewrite flat_map_pick_here, !flat_map_pick_skip, flat_map_pick_nil by discriminate.
    rewrite app_nil_r. apply chain_window0.
  - rewrite flat_map_pick_skip, flat_map_pick_here, !flat_map_pick_skip,
      flat_map_pick_nil by discriminate.
    rewrite app_nil_r. apply chain_window1.
  - rewrite !flat_map_pick_skip, flat_map_pick_here, !flat_map_pick_skip,
      flat_map_pick_nil by discriminate.
    rewrite app_nil_r. apply chain_window2.
  - rewrite !flat_map_pick_skip, flat_map_pick_here, flat_map_pick_nil by discriminate.
    rewrite app_nil_r. apply chain_window3.
Qed.

End Chain.

Section FlFacts.
Open Scope R_scope.

Lemma div_fin a b : b <> 0 -> Fl.div (Fin a) (Fin b) = Fin (a / b).
Proof. intros H. unfold Fl.div. destruct (Req_dec_T b 0); [contradiction | reflexivity]. Qed.

Lemma sqrt_fin a : 0 <= a -> Fl.sqrt (Fin a) = Fin (sqrt a).
Proof. intros H. unfold Fl.sqrt. destruct (Rlt_dec a 0); [lra | reflexivity]. Qed.

Lemma gt_fin_true a b : b < a -> Fl.gt (Fin a) (Fin b) = true.
Proof. intros H. unfold Fl.gt, Fl.lt. destruct (Rlt_dec b a); [reflexivity | contradiction]. Qed.

Lemma gt_fin_false a b : a <= b -> Fl.gt (Fin a) (Fin b) = false.
Proof. intros H. unfold Fl.gt, Fl.lt. destruct (Rlt_dec b a); [lra | reflexivity]. Qed.

Lemma ge_fin_true a b : b <= a -> Fl.ge (Fin a) (Fin b) = true.
Proof. intros H. unfold Fl.ge. destruct (Rle_dec b a); [reflexivity | contradiction]. Qed.

Lemma ge_fin_false a b : a < b -> Fl.ge (Fin a) (Fin b) = false.
Proof. intros H. unfold Fl.ge. destruct (Rle_dec b a); [lra | reflexivity]. Qed.

Lemma fin_eq a b : a = b -> Fin a = Fin b.
Proof. intros ->. reflexivity. Qed.

End FlFacts.

Section ChainGradients.
Open Scope Z_scope.

Variable m : NeighborMap.
Hypothesis Hm0 : m !!! 0 = ([(0.5, 0.1, 0)%R] : list Vector3f).
Hypothesis Hm1 : m !!! 1 = ([(0.5, 0, 0)%R; (0.5, 0.24, 0)%R] : list Vector3f).
Hypothesis Hm2 : m !!! 2 = ([(0.5, 0.1, 0)%R] : list Vector3f).
Hypothesis Hm3 : m !!! 3 = ([] : list Vector3f).

Lemma chain_grad_norm0 : grad_norm_of ef_chain m 0 = Fin 0.1.
Proof.
  unfold grad_norm_of, point_xyz_of. rewrite Hm0.
  change (at_ (cloud_filt ef_chain) 0) with (Ok (PointXYZI.mk 0.5 0 0 1)).
  apply fin_eq.
  unfold sum_gradient, PointXYZI.xyz, Vec.div, Vec.add, Vec.sub, Vec.Zero.
  cbn [fold_left PointXYZI.x PointXYZI.y PointXYZI.z].
  change (size [(0.5, 0.1, 0)%R]) with 1.
  apply norm_eq; lra.
Qed.

Lemma chain_grad_norm1 : grad_norm_of ef_chain m 1 = Fin 0.02.
Proof.
  unfold grad_norm_of, point_xyz_of. rewrite Hm1.
  change (at_ (cloud_filt ef_chain) 1) with (Ok (PointXYZI.mk 0.5 0.1 0 1)).
  apply fin_eq.
  unfold sum_gradient, PointXYZI.xyz, Vec.div, Vec.add, Vec.sub, Vec.Zero.
  cbn [fold_left PointXYZI.x PointXYZI.y PointXYZI.z].
  change (size [(0.5, 0, 0)%R; (0.5, 0.24, 0)%R]) with 2.
  apply norm_eq; lra.
Qed.

Lemma chain_grad_norm2 : grad_norm_of ef_chain m 2 = Fin 0.14.
Proof.
  unfold grad_norm_of, point_xyz_of. rewrite Hm2.
  change (at_ (cloud_filt ef_chain) 2) with (Ok (PointXYZI.mk 0.5 0.24 0 1)).
  apply fin_eq.
  unfold sum_gradient, PointXYZI.xyz, Vec.div, Vec.add, Vec.sub, Vec.Zero.
  cbn [fold_left PointXYZI.x PointXYZI.y PointXYZI.z].
  change (size [(0.5, 0.1, 0)%R]) with 1.
  apply norm_eq; lra.
Qed.

Lemma chain_has_neighbors :
  has_neighbors m 0 = true /\ has_neighbors m 1 = true /\
  has_neighbors m 2 = true /\ has_neighbors m 3 = false.
Proof.
  unfold has_neighbors. rewrite Hm0, Hm1, Hm2, Hm3. repeat split.
Qed.

Lemma chain_grouped :
  grouped_of ef_chain m [0; 1; 2; 3] = [(0, Fin 0.1); (1, Fin 0.02); (2, Fin 0.14)].
Proof.
  destruct chain_has_neighbors as [H0 [H1 [H2 H3]]].
  unfold grouped_of. cbn [List.filter]. rewrite H0, H1, H2, H3. cbn [map].
  rewrite chain_grad_norm0, chain_grad_norm1, chain_grad_norm2. reflexivity.
Qed.

Lemma chain_standalone : standalone_of m [0; 1; 2; 3] = [3].
Proof.
  destruct chain_has_neighbors as [H0 [H1 [H2 H3]]].
  unfold standalone_of. cbn [List.filter]. rewrite H0, H1, H2, H3. reflexivity.
Qed.

Lemma chain_max : max_of [(0, Fin 0.1); (1, Fin 0.02); (2, Fin 0.14)] = Fin 0.14.
Proof.
  unfold max_of. cbn [fold_left snd]. unfold Fl.fmax. apply fin_eq.
  rewrite (Rmax_right 0 0.1), (Rmax_left 0.1 0.02), (Rmax_right 0.1 0.14); lra.
Qed.

Lemma chain_normalized :
  normalized_of [(0, Fin 0.1); (1, Fin 0.02); (2, Fin 0.14)] =
  [(0, Fin (5 / 7)); (1, Fin (1 / 7)); (2, Fin 1)].
Proof.
  unfold normalized_of. rewrite chain_max. cbn [map fst snd].
  rewrite !div_fin by lra.
  rewrite (fin_eq (0.1 / 0.14) (5 / 7)), (fin_eq (0.02 / 0.14) (1 / 7)),
    (fin_eq (0.14 / 0.14) 1) by lra.
  reflexivity.
Qed.

Lemma chain_sorted :
  sort_desc [(0, Fin (5 / 7)); (1, Fin (1 / 7)); (2, Fin 1)] =
  [(2, Fin 1); (0, Fin (5 / 7)); (1, Fin (1 / 7))].
Proof.
  unfold sort_desc. cbn [foldr insert_desc snd].
  rewrite (gt_fin_true 1 (1 / 7)) by lra. cbn [insert_desc snd].
  rewrite (gt_fin_true 1 (5 / 7)) by lra. cbn [insert_desc snd].
  rewrite (gt_fin_false (1 / 7) (5 / 7)) by lra. reflexivity.
Qed.

Lemma chain_mean :
  mean_of [(0, Fin (5 / 7)); (1, Fin (1 / 7)); (2, Fin 1)] = Fin (13 / 21).
Proof.
  unfold mean_of, sum_of. cbn [fold_left snd]. unfold Fl.add, Fl.lift2.
  change (size [(0, Fin (5 / 7)); (1, Fin (1 / 7)); (2, Fin 1)]) with 3.
  rewrite div_fin by lra. apply fin_eq. lra.
Qed.

Lemma chain_deviations :
  deviations_of [(0, Fin (5 / 7)); (1, Fin (1 / 7)); (2, Fin 1)] (Fin (13 / 21))
  = Fin (8 / 21).
Proof.
  unfold deviations_of. cbn [fold_left snd].
  unfold Fl.add, Fl.sub, Fl.mul, Fl.lift2. apply fin_eq. lra.
Qed.

Lemma chain_estimateGradients :
  getNeighborsInBB fs_default ef_chain [[0; 1; 2; 3]] (Fin 0.15) = Ok m ->
  estimateGradients fs_default ef_chain 4 [[0; 1; 2; 3]] (Fin 0.15) =
  Ok ([3], [(2, Fin 1); (0, Fin (5 / 7)); (1, Fin (1 / 7))],
      Fin (13 / 21), Fin (sqrt (2 / 21))).
Proof.
  intros Hm.
  rewrite (estimateGradients_closed _ _ _ _ _ m Hm); [| zbounds | zbounds |].
  - cbv zeta. change (concat [[0; 1; 2; 3]]) with [0; 1; 2; 3].
    rewrite chain_standalone, chain_grouped, chain_normalized, chain_sorted,
      chain_mean, chain_deviations.
    change (IZR 4) with 4%R.
    rewrite div_fin by lra. rewrite sqrt_fin by lra.
    replace (8 / 21 / 4)%R with (2 / 21)%R by lra. reflexivity.
  - intros idx Hin _. apply chain_idx in Hin.
    destruct Hin as [-> | [-> | [-> | ->]]]; zbounds.
Qed.

End ChainGradients.

Section StandaloneLoop.
Open Scope Z_scope.

Variable ef : ExtractedFeatures.
Variable alone : list Z.
Variable n : nat.

Hypothesis Halone : forall idx, idx ∈ alone -> 0 <= idx < size (cloud_filt ef).
Hypothesis Hroom : (length alone <= n)%nat.

Lemma at_point_of idx :
  0 <= idx < size (cloud_filt ef) ->
  at_ (cloud_filt ef) idx = Ok (point_of ef idx).
Proof.
  intros H. destruct (at_in_range _ idx H) as [p [Hp _]].
  unfold point_of. rewrite Hp. reflexivity.
Qed.

Lemma standalone_step_ok pre idx post :
  alone = pre ++ idx :: post ->
  standalone_step ef alone (size pre)
    (map (point_of ef) pre ++ replicate (n - length pre) PointXYZI.zero,
     replicate (length pre) (Fin 1) ++ replicate (n - length pre) (Fin 0)) =
  Ok (map (point_of ef) (pre ++ [idx])
        ++ replicate (n - length (pre ++ [idx])) PointXYZI.zero,
      replicate (length (pre ++ [idx])) (Fin 1)
        ++ replicate (n - length (pre ++ [idx])) (Fin 0)).
Proof.
  intros Hpre.
  assert (Hat : at_ alone (size pre) = Ok idx)
    by (rewrite Hpre; apply at_middle).
  assert (Hlen : (length pre + S (length post) <= n)%nat).
  { pose proof Hroom. rewrite Hpre, length_app in *. simpl in *. lia. }
  unfold standalone_step. rewrite Hat. cbn [mbind result_bind].
  rewrite at_point_of
    by (apply Halone; rewrite Hpre; apply elem_of_app; right; apply list_elem_of_here).
  cbn [mbind result_bind].
  replace (n - length pre)%nat with (S (n - length (pre ++ [idx])))
    by (rewrite length_app; simpl; lia).
  replace (size pre) with (size (map (point_of ef) pre)) at 1
    by (unfold size; rewrite length_map; reflexivity).
  rewrite set_at_next. cbn [mbind result_bind].
  replace (size pre) with (size (replicate (length pre) (Fin 1)))
    by (unfold size; rewrite length_replicate; reflexivity).
  rewrite set_at_next. cbn [mbind result_bind].
  rewrite map_app, length_app. cbn [map length].
  rewrite replicate_add. reflexivity.
Qed.

Lemma standalone_loop : forall post pre,
  alone = pre ++ post ->
  @forM Z (PointCloud * list fl)
       (standalone_step ef alone) (zrange (size pre) (size pre + size post))
       (map (point_of ef) pre ++ replicate (n - length pre) PointXYZI.zero,
        replicate (length pre) (Fin 1) ++ replicate (n - length pre) (Fin 0)) =
  Ok (map (point_of ef) alone
        ++ replicate (n - length alone) PointXYZI.zero,
      replicate (length alone) (Fin 1) ++ replicate (n - length alone) (Fin 0)).
Proof.
  induction post as [|idx post IH]; intros pre Hpre.
  - rewrite zrange_nil by (unfold size; simpl; lia).
    rewrite app_nil_r in Hpre. subst pre. reflexivity.
  - rewrite zrange_cons by (unfold size; simpl; lia).
    cbn [forM]. rewrite (standalone_step_ok pre idx post Hpre).
    cbn [mbind result_bind].
    replace (size pre + 1) with (size (pre ++ [idx]))
      by (rewrite size_app; reflexivity).
    replace (size pre + size (idx :: post)) with (size (pre ++ [idx]) + size post)
      by (rewrite size_app; unfold size; simpl; lia).
    apply IH. rewrite Hpre, <- app_assoc. reflexivity.
Qed.

End StandaloneLoop.

Section SelectionLoops.
Open Scope Z_scope.

Variable ef : ExtractedFeatures.
Variable alone : list Z.
Variable ranking : list (Z * fl).
Variable cutoff : fl.
Variable n : nat.

Hypothesis Hranking : forall e, e ∈ ranking ->
  0 <= e.1 < size (cloud_filt ef) /\ e.1 < 2 ^ 31.
Hypothesis Hfit : (length alone + length ranking <= n)%nat.

Lemma retained_of_app l1 l2 :
  retained_of (l1 ++ l2) cutoff = retained_of l1 cutoff ++ retained_of l2 cutoff.
Proof. unfold retained_of. apply List.filter_app. Qed.

Lemma retained_length l : (length (retained_of l cutoff) <= length l)%nat.
Proof. unfold retained_of. apply List.filter_length_le. Qed.

Lemma retained_of_one e :
  retained_of [e] cutoff = if Fl.ge e.2 cutoff then [e] else [].
Proof. unfold retained_of. cbn [List.filter]. destruct (Fl.ge e.2 cutoff); reflexivity. Qed.

Lemma select_step_ok pre e post :
  ranking = pre ++ e :: post ->
  select_step ef alone ranking cutoff (size pre)
              (select_state_of ef alone cutoff n pre) =
  Ok (select_state_of ef alone cutoff n (pre ++ [e])).
Proof.
  intros Hr.
  assert (He : 0 <= e.1 < size (cloud_filt ef) /\ e.1 < 2 ^ 31).
  { apply Hranking. rewrite Hr. apply elem_of_app. right. apply list_elem_of_here. }
  assert (Hlen : (length alone + (length pre + S (length post)) <= n)%nat).
  { pose proof Hfit. rewrite Hr, length_app in *. simpl in *. lia. }
  pose proof (retained_length pre) as Hret.
  assert (Hat : at_ ranking (size pre) = Ok e)
    by (rewrite Hr; apply at_middle).
  unfold select_state_of. cbv zeta.
  rewrite retained_of_app, retained_of_one, !map_app.
  set (A := map (point_of ef) alone).
  set (K := map (fun e0 : Z * fl => point_of ef e0.1) (retained_of pre cutoff)).
  assert (HA : length A = length alone) by (unfold A; apply length_map).
  assert (HK : length K = length (retained_of pre cutoff)) by (unfold K; apply length_map).
  unfold select_step.
  rewrite Hat. cbn [mbind result_bind].
  replace (size alone + size pre)
    with (size (replicate (length A) (Fin 1) ++ map snd pre))
    by (rewrite size_app; unfold size;
        rewrite length_replicate, length_map, HA; reflexivity).
  replace (n - (length A + length pre))%nat
    with (S (n - (length A + length (pre ++ [e]))))
    by (rewrite length_app; simpl; lia).
  rewrite set_at_next. cbn [mbind result_bind map].
  destruct (Fl.ge e.2 cutoff) eqn:Hge.
  - rewrite i32_small by lia. rewrite (at_point_of ef) by lia.
    cbn [mbind result_bind map].
    replace (n - length (A ++ K))%nat
      with (S (n - length (A ++ K ++ [point_of ef e.1])))
      by (rewrite !length_app, HA, HK; simpl; lia).
    rewrite set_at_next. cbn [mbind result_bind].
    rewrite <- !app_assoc, !size_app.
    change (size [point_of ef e.1]) with 1. rewrite Z.add_assoc. reflexivity.
  - cbn [map]. rewrite !app_nil_r, <- !app_assoc. reflexivity.
Qed.

Lemma select_loop : forall post pre,
  ranking = pre ++ post ->
  forM (select_step ef alone ranking cutoff)
       (zrange (size pre) (size pre + size post))
       (select_state_of ef alone cutoff n pre) =
  Ok (select_state_of ef alone cutoff n ranking).
Proof.
  induction post as [|e post IH]; intros pre Hpre.
  - rewrite zrange_nil by (unfold size; simpl; lia).
    rewrite app_nil_r in Hpre. subst pre. reflexivity.
  - rewrite zrange_cons by (unfold size; simpl; lia).
    cbn [forM]. rewrite (select_step_ok pre e post Hpre).
    cbn [mbind result_bind].
    replace (size pre + 1) with (size (pre ++ [e]))
      by (rewrite size_app; reflexivity).
    replace (size pre + size (e :: post)) with (size (pre ++ [e]) + size post)
      by (rewrite size_app; unfold size; simpl; lia).
    apply IH. rewrite Hpre, <- app_assoc. reflexivity.
Qed.

End SelectionLoops.

Section SortFacts.

Lemma insert_desc_perm e l : insert_desc e l ≡ₚ e :: l.
Proof.
  induction l as [|h t IH]; simpl; [reflexivity|].
  destruct (Fl.gt h.2 e.2); [|reflexivity].
  rewrite IH. apply Permutation_swap.
Qed.

Lemma sort_desc_perm l : sort_desc l ≡ₚ l.
Proof.
  unfold sort_desc. induction l as [|e l IH]; simpl; [reflexivity|].
  rewrite insert_desc_perm, IH. reflexivity.
Qed.

Lemma sort_desc_length l : length (sort_desc l) = length l.
Proof. apply Permutation_length, sort_desc_perm. Qed.

Lemma elem_of_sort_desc e l : e ∈ sort_desc l <-> e ∈ l.
Proof. rewrite sort_desc_perm. reflexivity. Qed.

Lemma normalized_fst raw e :
  e ∈ normalized_of raw -> exists e', e' ∈ raw /\ e.1 = e'.1.
Proof.
  unfold normalized_of. rewrite list_elem_of_In, in_map_iff.
  intros [e' [<- Hin]]. exists e'. split; [apply list_elem_of_In, Hin | reflexivity].
Qed.

Lemma grouped_fst ef (m : NeighborMap) batch e :
  e ∈ grouped_of ef m batch -> e.1 ∈ batch.
Proof.
  unfold grouped_of. rewrite list_elem_of_In, in_map_iff.
  intros [idx [<- Hin]]. apply filter_In in Hin as [Hin _].
  apply list_elem_of_In, Hin.
Qed.

Lemma standalone_elem (m : NeighborMap) batch idx :
  idx ∈ standalone_of m batch -> idx ∈ batch.
Proof.
  unfold standalone_of. rewrite list_elem_of_In. intros Hin.
  apply filter_In in Hin as [Hin _]. apply list_elem_of_In, Hin.
Qed.

Lemma bind_congr {A B : Type} (m m' : result A) (k : A -> result B) :
  m = m' -> m ≫= k = m' ≫= k.
Proof. intros ->. reflexivity. Qed.

End SortFacts.

Section SelectionResult.
Open Scope Z_scope.

(** [selectFeaturesFromCloudByGradient] in closed form. *)
Lemma selection_returns
    (fs : FeatureSelection) (ef : ExtractedFeatures) (features_count : Z)
    (indices_in_filt : list (list Z)) (search_radius : fl) (percentile : R)
    (neighbors : NeighborMap) (e : Z * fl) :
  let batch := concat indices_in_filt in
  let alone := standalone_of neighbors batch in
  let grouped := normalized_of (grouped_of ef neighbors batch) in
  let ranking := sort_desc grouped in
  let retained := retained_of ranking e.2 in
  let selected :=
    map (point_of ef) alone ++ map (fun g => point_of ef g.1) retained in
  features_count = size batch ->
  0 < features_count < 2 ^ 32 ->
  size (cloud_filt ef) <= 2 ^ 31 ->
  (forall idx, idx ∈ batch -> 0 <= idx < size (cloud_filt ef)) ->
  getNeighborsInBB fs ef indices_in_filt search_radius = Ok neighbors ->
  at_ ranking (Zfloor (percentile * IZR (size ranking))) = Ok e ->
  selectFeaturesFromCloudByGradient fs ef features_count indices_in_filt
    search_radius percentile =
  Ok (selected,
      replicate (length alone) (Fin 1) ++ map snd ranking,
      mean_of grouped,
      Fl.sqrt (Fl.div (deviations_of grouped (mean_of grouped))
                      (Fin (IZR features_count))),
      e.2).
Proof.
  intros batch alone grouped ranking retained selected
         Hcount Hfc Hcloud Hvalid Hn Hcut.
  pose proof (grouped_standalone_length ef neighbors batch) as Hpart.
  assert (Hrank_len : length ranking = length (grouped_of ef neighbors batch)).
  { unfold ranking, grouped. rewrite sort_desc_length.
    unfold normalized_of. apply length_map. }
  assert (Halone : forall idx, idx ∈ alone -> 0 <= idx < size (cloud_filt ef)).
  { intros idx Hin. apply Hvalid. eapply standalone_elem, Hin. }
  assert (Hranking : forall g, g ∈ ranking ->
            0 <= g.1 < size (cloud_filt ef) /\ g.1 < 2 ^ 31).
  { intros g Hin. apply elem_of_sort_desc, normalized_fst in Hin.
    destruct Hin as [g' [Hin ->]]. apply grouped_fst in Hin.
    specialize (Hvalid _ Hin). lia. }
  assert (Hfit : (length alone + length ranking <= Z.to_nat features_count)%nat).
  { rewrite Hrank_len. unfold alone. subst features_count. unfold size. lia. }
  assert (Hsel : size selected = size alone + size retained).
  { unfold selected. rewrite size_app. unfold size. rewrite !length_map. reflexivity. }
  unfold selectFeaturesFromCloudByGradient.
  destruct (Z.eqb_spec features_count 0); [lia|].
  rewrite (estimateGradients_closed _ _ _ _ _ neighbors Hn); [| lia | | ].
  2:{ fold batch. lia. }
  2:{ intros idx Hin _. apply Hvalid, Hin. }
  cbv zeta. cbn [mbind result_bind].
  fold batch. fold alone. fold grouped. fold ranking.
  pose proof (at_Ok_inv _ _ _ Hcut) as [Hidx _].
  rewrite (floor_to_unsigned_ok 64 _ _ eq_refl)
    by (unfold size in *; lia).
  cbn [mbind result_bind]. rewrite Hcut. cbn [mbind result_bind].
  unfold resize_to. rewrite !resize_nil.
  pose proof (standalone_loop ef alone (Z.to_nat features_count) Halone
                ltac:(lia) alone [] eq_refl) as Hloop1.
  cbn [map app length] in Hloop1. rewrite Nat.sub_0_r in Hloop1.
  change (size (@nil Z)) with 0 in Hloop1. rewrite Z.add_0_l in Hloop1.
  cbn [replicate app] in Hloop1.
  etransitivity; [apply bind_congr; exact Hloop1|].
  cbn [mbind result_bind fst snd].
  pose proof (select_loop ef alone ranking e.2 (Z.to_nat features_count)
                Hranking Hfit ranking [] eq_refl) as Hloop2.
  change (size (@nil (Z * fl))) with 0 in Hloop2. rewrite Z.add_0_l in Hloop2.
  unfold select_state_of at 1 in Hloop2. cbv zeta in Hloop2.
  cbn [retained_of List.filter map length] in Hloop2.
  rewrite !app_nil_r, Nat.add_0_r, length_map in Hloop2.
  replace (size (map (point_of ef) alone)) with (size alone) in Hloop2
    by (unfold size; rewrite length_map; reflexivity).
  etransitivity; [apply bind_congr; exact Hloop2|].
  cbn [mbind result_bind].
  unfold select_state_of. cbv zeta. fold retained. fold selected.
  rewrite length_map.
  replace (Z.to_nat features_count - (length alone + length ranking))%nat
    with 0%nat by (rewrite Hrank_len; unfold alone; subst features_count; unfold size; lia).
  cbn [replicate]. rewrite app_nil_r.
  assert (Htrim : size selected <= features_count).
  { rewrite Hsel. pose proof (retained_length e.2 ranking) as Hlen.
    fold retained in Hlen. unfold size in *. lia. }
  pose proof (trim_vector selected PointXYZI.zero features_count Htrim) as Ht.
  unfold resize_to in Ht. repeat f_equal. exact Ht.
Qed.

Lemma filter_perm {A} (f : A -> bool) (l l' : list A) :
  l ≡ₚ l' -> List.filter f l ≡ₚ List.filter f l'.
Proof.
  induction 1 as [|x l l' _ IH|x y l|l l' l'' _ IH1 _ IH2]; cbn [List.filter].
  - reflexivity.
  - destruct (f x); [constructor|]; exact IH.
  - destruct (f x), (f y); try reflexivity. constructor.
  - etransitivity; eassumption.
Qed.

(** A call that returns has read its cutoff from the ranking. *)
Lemma selection_cutoff_read
    (fs : FeatureSelection) (ef : ExtractedFeatures) (features_count : Z)
    (indices_in_filt : list (list Z)) (search_radius : fl) (percentile : R)
    (neighbors : NeighborMap) (out : PointCloud * list fl * fl * fl * fl) :
  let batch := concat indices_in_filt in
  let ranking := sort_desc (normalized_of (grouped_of ef neighbors batch)) in
  features_count = size batch ->
  0 < features_count < 2 ^ 32 ->
  (forall idx, idx ∈ batch -> 0 <= idx < size (cloud_filt ef)) ->
  getNeighborsInBB fs ef indices_in_filt search_radius = Ok neighbors ->
  selectFeaturesFromCloudByGradient fs ef features_count indices_in_filt
    search_radius percentile = Ok out ->
  exists e, at_ ranking (Zfloor (percentile * IZR (size ranking))) = Ok e.
Proof.
  intros batch ranking Hcount Hfc Hvalid Hn.
  unfold selectFeaturesFromCloudByGradient.
  destruct (Z.eqb_spec features_count 0); [lia|].
  rewrite (estimateGradients_closed _ _ _ _ _ neighbors Hn); [| lia | | ].
  2:{ fold batch. lia. }
  2:{ intros idx Hin _. apply Hvalid, Hin. }
  cbv zeta. cbn [mbind result_bind]. fold batch. fold ranking.
  unfold Fl.floor_to_unsigned. cbv zeta.
  destruct ((0 <=? Zfloor (percentile * IZR (size ranking)))
            && (Zfloor (percentile * IZR (size ranking)) <? 2 ^ 64));
    cbn [mbind result_bind]; [|discriminate].
  destruct (at_ ranking (Zfloor (percentile * IZR (size ranking)))) as [e|err];
    [intros _; exists e; reflexivity | cbn [mbind result_bind]; discriminate].
Qed.

(** C6.  For a non-empty batch whose count is the number of its indices,
    once the neighbor search has returned: whenever
    [selectFeaturesFromCloudByGradient] returns, the cutoff it reports is
    the normalized gradient of a grouped feature; the cloud is the points of
    all standalone features followed by the points of exactly the grouped
    features whose normalized gradient is at least that cutoff (in the order
    of the ranking, an arrangement of them); the gradients reported are 1.0
    for every standalone feature followed by the gradients of the grouped
    features; the size of the cloud is the number of standalone features
    plus the number of retained ones; and every point of the cloud is a
    point of the filtered cloud, as stored there. *)
Theorem selection_keeps_standalone_and_retained
    (fs : FeatureSelection) (ef : ExtractedFeatures) (features_count : Z)
    (indices_in_filt : list (list Z)) (search_radius : fl) (percentile : R)
    (neighbors : NeighborMap)
    (selected : PointCloud) (norms : list fl) (mean std cutoff : fl) :
  let batch := concat indices_in_filt in
  let alone := standalone_of neighbors batch in
  let grouped := normalized_of (grouped_of ef neighbors batch) in
  let retained := retained_of grouped cutoff in
  features_count = size batch ->
  0 < features_count < 2 ^ 32 ->
  size (cloud_filt ef) <= 2 ^ 31 ->
  (forall idx, idx ∈ batch -> 0 <= idx < size (cloud_filt ef)) ->
  getNeighborsInBB fs ef indices_in_filt search_radius = Ok neighbors ->
  selectFeaturesFromCloudByGradient fs ef features_count indices_in_filt
    search_radius percentile = Ok (selected, norms, mean, std, cutoff) ->
  (exists g, g ∈ grouped /\ g.2 = cutoff) /\
  (exists kept, selected = map (point_of ef) alone ++ kept /\
                kept ≡ₚ map (fun g => point_of ef g.1) retained) /\
  (exists rest, norms = replicate (length alone) (Fin 1) ++ rest /\
                rest ≡ₚ map snd grouped) /\
  size selected = size alone + size retained /\
  size alone <= size selected /\
  (forall q, q ∈ selected -> q ∈ cloud_filt ef).
Proof.
  intros batch alone grouped retained Hcount Hfc Hcloud Hvalid Hn Hret.
  destruct (selection_cutoff_read fs ef features_count indices_in_filt
              search_radius percentile neighbors _ Hcount Hfc Hvalid Hn Hret)
    as [e Hcut].
  pose proof (selection_returns fs ef features_count indices_in_filt
                search_radius percentile neighbors e Hcount Hfc Hcloud Hvalid
                Hn Hcut) as Hsel.
  cbv zeta in Hsel. fold batch in Hsel. fold alone in Hsel. fold grouped in Hsel.
  rewrite Hsel in Hret. injection Hret as <- <- _ _ <-.
  assert (Hkept : map (fun g : Z * fl => point_of ef g.1)
                      (retained_of (sort_desc grouped) e.2)
                  ≡ₚ map (fun g : Z * fl => point_of ef g.1)
                         (retained_of grouped e.2)).
  { apply Permutation_map, filter_perm, sort_desc_perm. }
  assert (Hin : forall g, g ∈ grouped -> 0 <= g.1 < size (cloud_filt ef)).
  { intros g Hg. apply normalized_fst in Hg as [g' [Hg' ->]].
    apply grouped_fst in Hg'. apply Hvalid, Hg'. }
  assert (Hpt : forall idx, 0 <= idx < size (cloud_filt ef) ->
                            point_of ef idx ∈ cloud_filt ef).
  { intros idx Hidx. destruct (at_in_range _ idx Hidx) as [p [Hp Hp']].
    unfold point_of. rewrite Hp. exact Hp'. }
  assert (Hsize : size (map (point_of ef) alone
                        ++ map (fun g : Z * fl => point_of ef g.1)
                               (retained_of (sort_desc grouped) e.2))
                  = size alone + size (retained_of grouped e.2)).
  { unfold size. rewrite length_app, (Permutation_length Hkept), !length_map. lia. }
  split; [|split; [|split; [|split; [|split]]]].
  - exists e. split; [|reflexivity].
    apply at_lookup in Hcut as [_ Hl]. apply elem_of_sort_desc.
    eapply list_elem_of_lookup_2, Hl.
  - eexists. split; [reflexivity | exact Hkept].
  - eexists. split; [reflexivity|]. apply Permutation_map, sort_desc_perm.
  - exact Hsize.
  - rewrite Hsize. unfold size. lia.
  - intros q Hq. apply elem_of_app in Hq as [Hq | Hq];
      apply list_elem_of_In, in_map_iff in Hq.
    + destruct Hq as [idx [<- Hidx]]. apply Hpt, Hvalid.
      eapply standalone_elem, list_elem_of_In, Hidx.
    + destruct Hq as [g [<- Hg]]. apply Hpt, Hin.
      apply filter_In in Hg as [Hg _].
      apply elem_of_sort_desc, list_elem_of_In, Hg.
Qed.

End SelectionResult.

Section ChainSelection.
Open Scope Z_scope.

Lemma chain_cutoff_index :
  Zfloor (0.5 * IZR (size [(2, Fin 1); (0, Fin (5 / 7)); (1, Fin (1 / 7))])) = 1.
Proof.
  change (size [(2, Fin 1); (0, Fin (5 / 7)); (1, Fin (1 / 7))]) with 3.
  apply Zfloor_eq. lra.
Qed.

Lemma chain_retained :
  retained_of [(2, Fin 1); (0, Fin (5 / 7)); (1, Fin (1 / 7))] (Fin (5 / 7)) =
  [(2, Fin 1); (0, Fin (5 / 7))].
Proof.
  unfold retained_of. cbn [List.filter snd].
  rewrite (ge_fin_true 1 (5 / 7)), (ge_fin_true (5 / 7) (5 / 7)),
    (ge_fin_false (1 / 7) (5 / 7)) by lra.
  reflexivity.
Qed.

Lemma chain_selection :
  selectFeaturesFromCloudByGradient fs_default ef_chain 4 [[0; 1; 2; 3]]
    (Fin 0.15) 0.5 =
  Ok ([PointXYZI.mk 0.5 0.4 0 1; PointXYZI.mk 0.5 0.24 0 1; PointXYZI.mk 0.5 0 0 1],
      [Fin 1; Fin 1; Fin (5 / 7); Fin (1 / 7)],
      Fin (13 / 21), Fin (sqrt (2 / 21)), Fin (5 / 7)).
Proof.
  destruct chain_neighbors as [m [Hm [H0 [H1 [H2 H3]]]]].
  pose proof (selection_returns fs_default ef_chain 4
                [[0; 1; 2; 3]] (Fin 0.15) 0.5 m (0, Fin (5 / 7))) as Hsel.
  cbv zeta in Hsel. change (concat [[0; 1; 2; 3]]) with [0; 1; 2; 3] in Hsel.
  rewrite (chain_standalone m H0 H1 H2 H3), (chain_grouped m H0 H1 H2 H3),
    chain_normalized, chain_sorted, chain_mean, chain_deviations,
    chain_cutoff_index in Hsel.
  cbn [snd] in Hsel. rewrite chain_retained in Hsel.
  rewrite Hsel.
  - change (IZR 4) with 4%R.
    rewrite div_fin by lra. rewrite sqrt_fin by lra.
    replace (8 / 21 / 4)%R with (2 / 21)%R by lra. reflexivity.
  - reflexivity.
  - lia.
  - zbounds.
  - intros idx Hin. apply (chain_idx idx) in Hin.
    destruct Hin as [-> | [-> | [-> | ->]]]; zbounds.
  - exact Hm.
  - reflexivity.
Qed.

Lemma selection_keeps_standalone_and_retained_witness :
  exists m : NeighborMap,
    getNeighborsInBB fs_default ef_chain [[0; 1; 2; 3]] (Fin 0.15) = Ok m /\
    let alone := standalone_of m [0; 1; 2; 3] in
    let grouped := normalized_of (grouped_of ef_chain m [0; 1; 2; 3]) in
    let retained := retained_of grouped (Fin (5 / 7)) in
    let selected :=
      [PointXYZI.mk 0.5 0.4 0 1; PointXYZI.mk 0.5 0.24 0 1;
       PointXYZI.mk 0.5 0 0 1] in
    (exists g, g ∈ grouped /\ g.2 = Fin (5 / 7)) /\
    (exists kept, selected = map (point_of ef_chain) alone ++ kept /\
                  kept ≡ₚ map (fun g => point_of ef_chain g.1) retained) /\
    (exists rest, [Fin 1; Fin 1; Fin (5 / 7); Fin (1 / 7)]
                  = replicate (length alone) (Fin 1) ++ rest /\
                  rest ≡ₚ map snd grouped) /\
    size selected = size alone + size retained /\
    size alone <= size selected /\
    (forall q, q ∈ selected -> q ∈ cloud_filt ef_chain).
Proof.
  destruct chain_neighbors as [m [Hm H]]. exists m. split; [exact Hm|].
  apply (selection_keeps_standalone_and_retained fs_default ef_chain 4
           [[0; 1; 2; 3]] (Fin 0.15) 0.5 m _ _ (Fin (13 / 21))
           (Fin (sqrt (2 / 21))) (Fin (5 / 7))).
  - reflexivity.
  - lia.
  - zbounds.
  - intros idx Hin. apply (chain_idx idx) in Hin.
    destruct Hin as [-> | [-> | [-> | ->]]]; zbounds.
  - exact Hm.
  - exact chain_selection.
Defined.

End ChainSelection.

Section ChainDeviation.
Open Scope Z_scope.

Lemma chain_population_stddev :
  population_stddev [(2, Fin 1); (0, Fin (5 / 7)); (1, Fin (1 / 7))] =
  Fin (sqrt (8 / 63)).
Proof.
  unfold population_stddev, mean_of, sum_of, deviations_of.
  change (size [(2, Fin 1); (0, Fin (5 / 7)); (1, Fin (1 / 7))]) with 3.
  change (IZR 3) with 3%R.
  cbn [fold_left snd]. unfold Fl.add, Fl.lift2.
  rewrite div_fin by lra. unfold Fl.sub, Fl.mul, Fl.add, Fl.lift2.
  rewrite div_fin by lra. rewrite sqrt_fin by lra.
  apply fin_eq. f_equal. lra.
Qed.

Lemma chain_stddev_differ : Fin (sqrt (2 / 21)) <> Fin (sqrt (8 / 63)).
Proof.
  intros H. injection H as H. apply sqrt_inj in H; lra.
Qed.

(** C5.  On the chain of four corner features (three grouped, one
    standalone) [estimateGradients] returns the square root of the sum of the
    squared deviations divided by the count of all four features,
    sqrt (2/21); the population standard deviation of the three normalized
    gradients is sqrt (8/63). *)
Theorem chain_stddev_over_feature_count :
  exists alone ranking mean std,
    estimateGradients fs_default ef_chain 4 [[0; 1; 2; 3]] (Fin 0.15) =
      Ok (alone, ranking, mean, std) /\
    size alone = 1 /\ size ranking = 3 /\
    std = Fin (sqrt (2 / 21)) /\
    population_stddev ranking = Fin (sqrt (8 / 63)) /\
    std <> population_stddev ranking.
Proof.
  destruct chain_neighbors as [m [Hm [H0 [H1 [H2 H3]]]]].
  exists [3], [(2, Fin 1); (0, Fin (5 / 7)); (1, Fin (1 / 7))],
         (Fin (13 / 21)), (Fin (sqrt (2 / 21))).
  split; [apply (chain_estimateGradients m H0 H1 H2 H3 Hm)|].
  split; [reflexivity|]. split; [reflexivity|]. split; [reflexivity|].
  rewrite chain_population_stddev. split; [reflexivity | apply chain_stddev_differ].
Qed.

End ChainDeviation.

Section CutoffIndex.
Open Scope Z_scope.

(** C2.  The cutoff index is the floor of [percentile * N], used as it is:
    whenever it is not below the length [N] of the ranking (a percentile of
    1.0; an empty ranking), the bounds-checked access raises and
    [selectFeaturesFromCloudByGradient] ends in the out-of-range error. *)
Theorem cutoff_index_unclamped
    (fs : FeatureSelection) (ef : ExtractedFeatures) (features_count : Z)
    (indices_in_filt : list (list Z)) (search_radius : fl) (percentile : R)
    (alone : list Z) (ranking : list (Z * fl)) (mean std : fl) :
  features_count <> 0 ->
  estimateGradients fs ef features_count indices_in_filt search_radius =
    Ok (alone, ranking, mean, std) ->
  size ranking <= Zfloor (percentile * IZR (size ranking)) < 2 ^ 64 ->
  selectFeaturesFromCloudByGradient fs ef features_count indices_in_filt
    search_radius percentile = Err OutOfRange.
Proof.
  intros Hfc Hest Hidx. unfold selectFeaturesFromCloudByGradient.
  destruct (Z.eqb_spec features_count 0) as [|_]; [contradiction|].
  cbv zeta. rewrite Hest. cbn [mbind result_bind].
  assert (0 <= size ranking) by (unfold size; lia).
  rewrite (floor_to_unsigned_ok 64 _ _ eq_refl) by lia.
  cbn [mbind result_bind].
  rewrite at_out by (unfold size in *; lia).
  reflexivity.
Qed.

End CutoffIndex.

Section Single.
Open Scope Z_scope.

Let tbl : list (list Z) := buildOrderedFeatureTable ef_single [[0]].

Lemma single_grid_wf : grid_wf ef_single tbl.
Proof.
  apply (grid_wf_check ef_single tbl 1); [reflexivity | zbounds | zbounds | reflexivity].
Qed.

Lemma single_range : (0 <= getRange ef_single 0 < 0.8)%R.
Proof.
  simpl; unfold PointXYZI.xyz; simpl; apply norm_bounds; simpl; lra.
Qed.

Lemma single_idx idx : idx ∈ concat [[0]] -> idx = 0.
Proof.
  intros Hin. apply list_elem_of_In in Hin. simpl in Hin. intuition.
Qed.

Lemma single_candidate_wf idx :
  idx ∈ concat [[0]] -> candidate_wf fs_default ef_single idx.
Proof.
  intros Hin. apply single_idx in Hin. subst idx.
  apply near_candidate_wf; [reflexivity | | | | apply single_range]; zbounds.
Qed.

Lemma single_window :
  windowRadiusSearch ef_single tbl (Fin 0.15) (envelope_of fs_default ef_single 0) 0
  = [].
Proof.
  rewrite (ring_window_eval fs_default ef_single tbl _ 0 0 []
             eq_refl single_range eq_refl eq_refl eq_refl).
  reflexivity.
Qed.

Lemma single_neighbors :
  exists m : NeighborMap,
    getNeighborsInBB fs_default ef_single [[0]] (Fin 0.15) = Ok m /\
    m !!! 0 = ([] : list Vector3f).
Proof.
  destruct (getNeighborsInBB_lookup fs_default ef_single [[0]] (Fin 0.15)
              single_grid_wf single_candidate_wf) as [m [Hm Hlook]].
  exists m. split; [exact Hm|]. fold tbl in Hlook.
  change (concat [[0]]) with [0] in Hlook.
  rewrite Hlook, flat_map_pick_here, flat_map_pick_nil.
  rewrite app_nil_r. apply single_window.
Qed.

Lemma single_estimateGradients :
  exists mean std,
    estimateGradients fs_default ef_single 1 [[0]] (Fin 0.15) =
    Ok ([0], [], mean, std).
Proof.
  destruct single_neighbors as [m [Hm H0]].
  eexists _, _.
  rewrite (estimateGradients_closed _ _ _ _ _ m Hm); [| zbounds | zbounds |].
  - cbv zeta. change (concat [[0]]) with [0].
    unfold standalone_of, grouped_of, has_neighbors. cbn [List.filter].
    rewrite H0. cbn [map]. reflexivity.
  - intros idx Hin _. apply single_idx in Hin. subst idx. zbounds.
Qed.

Lemma cutoff_index_unclamped_witness :
  selectFeaturesFromCloudByGradient fs_default ef_single 1 [[0]] (Fin 0.15) 0.5
  = Err OutOfRange.
Proof.
  destruct single_estimateGradients as [mean [std Hest]].
  apply (cutoff_index_unclamped fs_default ef_single 1 [[0]] (Fin 0.15) 0.5
           [0] [] mean std).
  - discriminate.
  - exact Hest.
  - change (size (@nil (Z * fl))) with 0. rewrite (Zfloor_eq 0); [lia | simpl; lra].
Defined.

End Single.

(* ================================================================== *)
(** * Further properties of the code *)

(** ** The extent of the angular table *)

Section TableExtent.
Open Scope R_scope.

Lemma sin_abs_le_pos y : 0 <= y -> - y <= sin y <= y.
Proof.
  intros [Hp | <-]; [|rewrite sin_0; lra].
  pose proof (sin_lt_x y Hp). pose proof (SIN_bound y).
  destruct (Rle_lt_dec y 1); [|lra].
  assert (0 <= sin y).
  { apply sin_ge_0; [lra|]. pose proof PI2_1. pose proof PI_RGT_0. lra. }
  lra.
Qed.

Lemma sin_sqr_le y : sin y * sin y <= y * y.
Proof.
  destruct (Rle_lt_dec 0 y) as [Hp | Hn].
  - pose proof (sin_abs_le_pos y Hp). nra.
  - pose proof (sin_abs_le_pos (- y) ltac:(lra)) as H.
    rewrite sin_antisym in H. nra.
Qed.

Lemma cos_lower x : 1 - x * x / 2 <= cos x.
Proof.
  replace (cos x) with (cos (2 * (x / 2))) by (f_equal; lra).
  rewrite cos_2a_sin. pose proof (sin_sqr_le (x / 2)). nra.
Qed.

Lemma tan_upper x : 0 < x <= 1 -> tan x <= x / (1 - x * x / 2).
Proof.
  intros Hx. pose proof (cos_lower x) as Hc.
  pose proof (sin_lt_x x ltac:(lra)) as Hs.
  assert (Hd : 0 < 1 - x * x / 2) by nra.
  assert (Hcp : 0 < cos x) by lra.
  assert (Hsp : 0 <= sin x).
  { apply sin_ge_0; [lra|]. pose proof PI2_1. pose proof PI_RGT_0. lra. }
  unfold tan.
  apply Rle_trans with (x / cos x).
  - unfold Rdiv. apply Rmult_le_compat_r; [left; apply Rinv_0_lt_compat; lra | lra].
  - unfold Rdiv. apply Rmult_le_compat_l; [lra|].
    apply Rinv_le_contravar; lra.
Qed.

(** Up to 97.6 m the angle under which the radius is seen spans at least
    one column. *)
Lemma hfov_reached range :
  0 <= range <= 97.6 -> HFOV_RESOLUTION <= Fl.atan2 R_radius range.
Proof.
  intros [[Hpos | <-] Hhi].
  - rewrite atan2_pos_x by exact Hpos.
    assert (Hh : 0 < HFOV_RESOLUTION <= 1) by (unfold HFOV_RESOLUTION; lra).
    pose proof PI2_1 as Hpi.
    rewrite <- (atan_tan HFOV_RESOLUTION) by lra.
    apply atan_le.
    apply Rle_trans with (HFOV_RESOLUTION / (1 - HFOV_RESOLUTION * HFOV_RESOLUTION / 2)).
    + apply tan_upper, Hh.
    + apply Rle_trans with (R_radius / 97.6).
      * unfold HFOV_RESOLUTION, R_radius.
        apply Rmult_le_reg_r with (1 - 0.00613592315 * 0.00613592315 / 2); [lra|].
        unfold Rdiv at 1. rewrite Rmult_assoc, Rinv_l by lra. lra.
      * unfold R_radius, Rdiv. apply Rmult_le_compat_l; [lra|].
        apply Rinv_le_contravar; lra.
  - rewrite atan2_zero_x by (unfold R_radius; lra).
    pose proof PI2_1. unfold HFOV_RESOLUTION. lra.
Qed.

Lemma no_stop_before s : (0 <= s < 489)%Z -> stop_at s = false.
Proof.
  intros [Hs Hlt]. unfold stop_at. cbv zeta.
  assert (Hr : 0 <= range_of s <= 97.6).
  { unfold range_of, NEIGH_IDX_PREC_RANGE_RES.
    apply IZR_le in Hs. assert (s <= 488)%Z as Hle by lia. apply IZR_le in Hle. lra. }
  assert (Hh : (1 <= max_h_idx_of (range_of s) 0)%Z).
  { rewrite max_h_idx_of_row0. apply Zfloor_lub.
    pose proof (hfov_reached _ Hr) as Hreach. unfold HFOV_RESOLUTION in *.
    apply Rmult_le_reg_r with 0.00613592315; [lra|].
    unfold Rdiv. rewrite Rmult_assoc, Rinv_l by lra. lra. }
  destruct (Z.eqb_spec (max_h_idx_of (range_of s) 0) 0); [lia|].
  apply andb_false_r.
Qed.

Lemma built_table_exact : built_table = map bucket_of (zrange 0 490).
Proof.
  destruct built_table_spec as [n [Hn [Hstop [_ [_ Heq]]]]].
  assert (n = 489)%Z.
  { destruct (Z.eq_dec n 489%Z); [assumption|].
    rewrite no_stop_before in Hstop by lia. discriminate. }
  subst n. exact Heq.
Qed.

End TableExtent.

Section TableExtras.
Open Scope Z_scope.

(** X1.  The loop of the constructor sets [stop] at sample 489 (range
    97.8 m) and at no sample before it: the table it leaves holds exactly
    the 490 buckets of the samples 0 to 489, the last one being the single
    entry (0, 0). *)
Theorem table_has_490_buckets :
  table_loop 490 0 [] = Some built_table /\
  built_table = map bucket_of (zrange 0 490) /\
  size built_table = 490 /\
  (forall s, 0 <= s < 489 -> stop_at s = false) /\
  stop_at 489 = true /\
  last built_table = Some [(0, 0)].
Proof.
  destruct built_table_spec as [n [Hn [Hstop [_ [Hrun _]]]]].
  pose proof built_table_exact as Heq.
  assert (H489 : stop_at 489 = true) by (apply stop_at_far; lia).
  split; [exact Hrun|]. split; [exact Heq|]. split; [|split; [|split]].
  - rewrite Heq. unfold size. rewrite length_map, zrange_length. reflexivity.
  - apply no_stop_before.
  - exact H489.
  - rewrite Heq. change 490 with (489 + 1). rewrite zrange_snoc by lia.
    rewrite map_app. cbn [map]. rewrite last_snoc. f_equal.
    unfold stop_at in H489. cbv zeta in H489.
    apply andb_prop in H489 as [Hv Hh]. apply Z.eqb_eq in Hv, Hh.
    unfold bucket_of. cbv zeta. rewrite Hv.
    change (zrange 0 (0 + 1)) with [0]. cbn [map]. rewrite Hh. reflexivity.
Qed.

(** The row bound of a bucket does not grow with the range. *)
Lemma atan2_radius_decreasing r1 r2 :
  (0 <= r1 <= r2)%R -> (Fl.atan2 R_radius r2 <= Fl.atan2 R_radius r1)%R.
Proof.
  intros [[Hp | <-] Hle].
  - rewrite !atan2_pos_x by lra. apply atan_le.
    unfold R_radius, Rdiv. apply Rmult_le_compat_l; [lra|].
    apply Rinv_le_contravar; lra.
  - destruct Hle as [Hp | <-]; [|lra].
    rewrite atan2_zero_x by (unfold R_radius; lra).
    apply atan2_quadrant; [unfold R_radius|]; lra.
Qed.

Lemma range_of_le s t : s <= t -> (range_of s <= range_of t)%R.
Proof.
  intros H. apply IZR_le in H. unfold range_of, NEIGH_IDX_PREC_RANGE_RES. lra.
Qed.

Lemma Zfloor_div_le a b c : (0 < c)%R -> (a <= b)%R -> Zfloor (a / c) <= Zfloor (b / c).
Proof.
  intros Hc Hab. apply Zfloor_le. unfold Rdiv.
  apply Rmult_le_compat_r; [left; apply Rinv_0_lt_compat, Hc | exact Hab].
Qed.

(** For a row offset within the row bound, [k] stays within the radius. *)
Lemma k_of_bounds range i :
  (0 <= range)%R -> 0 <= i <= max_v_idx_of range ->
  (0 <= k_of range i <= R_radius)%R /\
  (range = 0 \/ 0 <= IZR i * VFOV_RESOLUTION <= atan (R_radius / range))%R.
Proof.
  intros Hr Hi. unfold k_of.
  destruct Hr as [Hpos | <-].
  2:{ rewrite Rmult_0_l. unfold R_radius. split; [lra | left; reflexivity]. }
  assert (Hang : (0 <= IZR i * VFOV_RESOLUTION <= atan (R_radius / range))%R).
  { destruct Hi as [Hi0 Hi1]. apply IZR_le in Hi0, Hi1.
    unfold max_v_idx_of in Hi1.
    rewrite atan2_pos_x in Hi1 by exact Hpos.
    pose proof (Zfloor_bound (atan (R_radius / range) / VFOV_RESOLUTION)) as [Hfl _].
    unfold VFOV_RESOLUTION in *. split; [nra|].
    apply Rmult_le_reg_r with (/ 0.03862995413)%R.
    - apply Rinv_0_lt_compat. lra.
    - rewrite Rmult_assoc, Rinv_r by lra. unfold Rdiv in Hfl. lra. }
  pose proof (atan_bound (R_radius / range)) as [_ Hub].
  assert (Htan : (0 <= tan (IZR i * VFOV_RESOLUTION) <= R_radius / range)%R).
  { split.
    - apply tan_nonneg; lra.
    - rewrite <- (tan_atan (R_radius / range)). apply tan_le; lra. }
  split; [|right; exact Hang]. split.
  - apply Rmult_le_pos; lra.
  - apply Rle_trans with (range * (R_radius / range))%R.
    + apply Rmult_le_compat_l; lra.
    + unfold Rdiv. rewrite (Rmult_comm R_radius), <- Rmult_assoc, Rinv_r by lra.
      lra.
Qed.

(** X2.  The envelope shrinks as the range grows: a later bucket has no
    larger row bound than an earlier one, and at every row offset it keeps,
    its column bound is no larger than the earlier bucket's at that
    offset. *)
Theorem envelope_shrinks_with_range (s t i : Z) :
  0 <= s <= t ->
  0 <= i <= max_v_idx_of (range_of t) ->
  max_v_idx_of (range_of t) <= max_v_idx_of (range_of s) /\
  max_h_idx_of (range_of t) i <= max_h_idx_of (range_of s) i.
Proof.
  intros [Hs Hst] Hi.
  pose proof (range_of_nonneg s Hs) as Hrs.
  pose proof (range_of_le s t Hst) as Hrst.
  assert (Hv : max_v_idx_of (range_of t) <= max_v_idx_of (range_of s)).
  { unfold max_v_idx_of. apply Zfloor_div_le; [unfold VFOV_RESOLUTION; lra|].
    apply atan2_radius_decreasing. lra. }
  split; [exact Hv|].
  destruct (k_of_bounds (range_of t) i ltac:(lra) Hi) as [Hkt Hat].
  destruct (k_of_bounds (range_of s) i Hrs ltac:(lia)) as [Hks Has].
  unfold max_h_idx_of. cbv zeta.
  apply Zfloor_div_le; [unfold HFOV_RESOLUTION; lra|].
  set (ks := k_of (range_of s) i) in *. set (kt := k_of (range_of t) i) in *.
  assert (Hk : (ks <= kt)%R).
  { subst ks kt. unfold k_of.
    destruct Hat as [H0 | Hat].
    - replace (range_of s) with (range_of t) by lra. lra.
    - apply Rmult_le_compat_r; [|exact Hrst].
      apply tan_nonneg; [lra|].
      pose proof (atan_bound (R_radius / range_of t)). lra. }
  assert (Hq : (sqrt (R_radius * R_radius - kt * kt)
                <= sqrt (R_radius * R_radius - ks * ks))%R).
  { apply sqrt_le_1_alt. nra. }
  set (qs := sqrt (R_radius * R_radius - ks * ks)) in *.
  set (qt := sqrt (R_radius * R_radius - kt * kt)) in *.
  assert (Hqt : (0 <= qt)%R) by apply sqrt_pos.
  destruct Hrs as [Hpos | Hzero].
  - rewrite !atan2_pos_x by lra. apply atan_le.
    apply Rle_trans with (qt / range_of s)%R.
    + unfold Rdiv. apply Rmult_le_compat_l; [exact Hqt|].
      apply Rinv_le_contravar; lra.
    + unfold Rdiv. apply Rmult_le_compat_r; [|exact Hq].
      left. apply Rinv_0_lt_compat. exact Hpos.
  - rewrite <- Hzero.
    assert (Hqs : qs = R_radius).
    { subst qs ks. unfold k_of. rewrite <- Hzero, Rmult_0_l.
      replace (R_radius * R_radius - 0 * 0)%R with (R_radius * R_radius)%R by lra.
      apply sqrt_square. unfold R_radius. lra. }
    rewrite Hqs, atan2_zero_x by (unfold R_radius; lra).
    apply atan2_quadrant; lra.
Qed.

Lemma envelope_shrinks_with_range_witness :
  max_v_idx_of (range_of 489) <= max_v_idx_of (range_of 0) /\
  max_h_idx_of (range_of 489) 0 <= max_h_idx_of (range_of 0) 0.
Proof.
  apply (envelope_shrinks_with_range 0 489 0).
  - lia.
  - split; [lia|]. apply max_v_idx_bounds, range_of_nonneg. lia.
Defined.

End TableExtras.

Section EnvelopeLookup.
Open Scope Z_scope.

(** X3.  Every bucket the constructor stores can be read the way
    [getNeighborsInBB] reads it: it is not empty, its last entry carries the
    row bound, it has one entry per row offset up to that bound and none
    beyond, and each entry repeats the row bound and holds a column bound
    between 0 and 325. *)
Theorem built_buckets_indexable (b : bucket) :
  b ∈ built_table ->
  exists e : Z * Z,
    back b = Ok e /\ 0 <= e.1 <= 51 /\ size b = e.1 + 1 /\
    at_ b (e.1 + 1) = Err OutOfRange /\
    forall dv, 0 <= dv <= e.1 ->
      exists e' : Z * Z, at_ b dv = Ok e' /\ e'.1 = e.1 /\ 0 <= e'.2 <= 325.
Proof.
  intros Hb. apply built_table_bucket_wf, bucket_wf_last in Hb.
  destruct Hb as [mv [e [Hlast [He [Hmv [Hsz Hall]]]]]].
  exists e. rewrite He. split; [apply back_last, Hlast|].
  split; [exact Hmv|]. split; [exact Hsz|]. split.
  - apply at_out. unfold size in Hsz. lia.
  - intros dv Hdv. destruct (bucket_wf_lookup b mv dv Hsz Hdv) as [e' [_ [Hat Hin]]].
    exists e'. split; [exact Hat|]. apply Hall, Hin.
Qed.

Lemma built_buckets_indexable_witness :
  exists e : Z * Z,
    back [(0, 0)] = Ok e /\ 0 <= e.1 <= 51 /\ size [(0, 0)] = e.1 + 1 /\
    at_ [(0, 0)] (e.1 + 1) = Err OutOfRange /\
    forall dv, 0 <= dv <= e.1 ->
      exists e' : Z * Z, at_ [(0, 0)] dv = Ok e' /\ e'.1 = e.1 /\ 0 <= e'.2 <= 325.
Proof.
  apply (built_buckets_indexable [(0, 0)]).
  apply last_Some_elem_of.
  destruct built_table_spec as [n [Hn [Hstop [_ [_ Heq]]]]].
  rewrite Heq, zrange_snoc, map_app by lia. cbn [map]. rewrite last_snoc. f_equal.
  unfold stop_at in Hstop. cbv zeta in Hstop.
  apply andb_prop in Hstop as [Hv Hh]. apply Z.eqb_eq in Hv, Hh.
  unfold bucket_of. cbv zeta. rewrite Hv.
  change (zrange 0 (0 + 1)) with [0]. cbn [map]. rewrite Hh. reflexivity.
Defined.

(** X4.  On an object the constructor has built, a distance [d] that lies
    at least a millimetre inside the range interval
    [s * 0.2, (s + 1) * 0.2) of a sample [s] (there the quotient [d / 0.2]
    has floor [s] in single precision as in exact arithmetic, for every
    sample up to 1000 m) is answered with the bucket computed for [s] when
    [s] is one of the 490 samples of the table, a bucket with one entry per
    row offset, and with the empty envelope beyond them. *)
Theorem limits_of_constructed (p : Params) (fs : FeatureSelection) (d : R)
    (s : Z) :
  FeatureSelection_new p 490 = Some fs ->
  0 <= s <= 5000 ->
  (range_of s + 0.001 <= d <= range_of (s + 1) - 0.001)%R ->
  getNearestNeighborLimits fs d = Ok (if s <? 490 then bucket_of s else []) /\
  (s < 490 -> size (bucket_of s) = max_v_idx_of (range_of s) + 1).
Proof.
  intros Hnew Hs Hd.
  rewrite FeatureSelection_new_built in Hnew. injection Hnew as <-.
  assert (Hfloor : Zfloor (d / NEIGH_IDX_PREC_RANGE_RES) = s).
  { apply Zfloor_eq. unfold range_of, NEIGH_IDX_PREC_RANGE_RES in *.
    rewrite plus_IZR in Hd. simpl in Hd. lra. }
  split.
  - destruct (Z.ltb_spec s 490) as [Hin | Hout].
    + apply limits_of_built; [reflexivity | exact Hfloor | lia |].
      intros j Hj. apply no_stop_before. lia.
    + apply limits_beyond; rewrite Hfloor; [lia|].
      cbn [_neigh_idxs_rows_cols init_members].
      rewrite built_table_exact. unfold size.
      rewrite length_map, zrange_length. lia.
  - intros Hin. unfold size. apply bucket_of_length. lia.
Qed.

Lemma limits_of_constructed_witness :
  getNearestNeighborLimits fs_default 0.5 =
    Ok (if 2 <? 490 then bucket_of 2 else []) /\
  (2 < 490 -> size (bucket_of 2) = max_v_idx_of (range_of 2) + 1).
Proof.
  apply (limits_of_constructed default_params fs_default 0.5 2
           (FeatureSelection_new_built default_params)).
  - lia.
  - unfold range_of, NEIGH_IDX_PREC_RANGE_RES. change (2 + 1) with 3. lra.
Defined.

End EnvelopeLookup.

Section ConstructorState.
Open Scope Z_scope.

(** X19.  For every set of parameters whose bounds are in order the
    constructor returns (within 490 passes of its loop) an object that holds
    the selection switch as given, the table of 490 buckets, which does not
    depend on the parameters, and, as its two resolutions, the midpoints of
    the given bounds, each within the bounds the object holds. *)
Theorem constructor_initial_state (p : Params) :
  (mapping_resolution_corners_min p <= mapping_resolution_corners_max p)%R ->
  (mapping_resolution_surfs_min p <= mapping_resolution_surfs_max p)%R ->
  exists fs,
    FeatureSelection_new p 490 = Some fs /\
    _neigh_idxs_rows_cols fs = built_table /\
    size (_neigh_idxs_rows_cols fs) = 490 /\
    _features_selection_enabled fs = feature_selection_enable p /\
    _resolution_corners fs =
      Fin ((mapping_resolution_corners_max p + mapping_resolution_corners_min p) / 2) /\
    _resolution_surfs fs =
      Fin ((mapping_resolution_surfs_max p + mapping_resolution_surfs_min p) / 2) /\
    within_bounds (_resolution_corners fs)
      (_resolution_corners_min fs) (_resolution_corners_max fs) /\
    within_bounds (_resolution_surfs fs)
      (_resolution_surfs_min fs) (_resolution_surfs_max fs).
Proof.
  intros Hc Hs. exists (init_members p built_table).
  split; [apply FeatureSelection_new_built|].
  cbn [init_members _neigh_idxs_rows_cols _features_selection_enabled
       _resolution_corners _resolution_surfs _resolution_corners_min
       _resolution_corners_max _resolution_surfs_min _resolution_surfs_max].
  split; [reflexivity|]. split.
  - rewrite built_table_exact. unfold size. rewrite length_map, zrange_length.
    reflexivity.
  - split; [reflexivity|]. split; [reflexivity|]. split; [reflexivity|].
    unfold within_bounds. split; lra.
Qed.

Lemma constructor_initial_state_witness :
  exists fs,
    FeatureSelection_new default_params 490 = Some fs /\
    _neigh_idxs_rows_cols fs = built_table /\
    size (_neigh_idxs_rows_cols fs) = 490 /\
    within_bounds (_resolution_corners fs)
      (_resolution_corners_min fs) (_resolution_corners_max fs) /\
    within_bounds (_resolution_surfs fs)
      (_resolution_surfs_min fs) (_resolution_surfs_max fs).
Proof.
  destruct (constructor_initial_state default_params) as [fs H].
  - simpl. lra.
  - simpl. lra.
  - exists fs. tauto.
Defined.

End ConstructorState.

(** ** What a returned neighbor map holds, whatever the grid *)

Section LoopInvariants.

Lemma forM_invariant {I S} (P : S -> Prop) (body : I -> S -> result S) xs :
  (forall x s s', x ∈ xs -> P s -> body x s = Ok s' -> P s') ->
  forall s s', P s -> forM body xs s = Ok s' -> P s'.
Proof.
  induction xs as [|x xs IH]; intros Hstep s s' Hs Hrun; simpl in Hrun.
  - injection Hrun as <-. exact Hs.
  - destruct (body x s) as [s1 | e] eqn:Hb; [|discriminate].
    simpl in Hrun. apply (IH (fun y t t' Hy => Hstep y t t' (list_elem_of_further _ _ _ Hy)) s1 s').
    + apply (Hstep x s s1); [left | exact Hs | exact Hb].
    + exact Hrun.
Qed.

End LoopInvariants.

Section ReturnedNeighbors.
Open Scope Z_scope.

Variable fs : FeatureSelection.
Variable ef : ExtractedFeatures.
Variable ordered_table : list (list Z).
Variable max_range : fl.

(** A visited cell adds what [cell_neighbor] says, when it does not raise. *)
Lemma visit_cell_inv idx i j (m m' : NeighborMap) :
  visit_cell ef ordered_table max_range idx
             (getRowColInRawData ef idx).1 (getRowColInRawData ef idx).2 i j m = Ok m' ->
  m' = append_at m idx
         (option_list (cell_neighbor ef ordered_table max_range idx (i, j))).
Proof.
  unfold visit_cell, cell_neighbor.
  destruct (getRowColInRawData ef idx) as [r c]. simpl fst. simpl snd.
  destruct ((i =? r) && (j =? c)); [intros [= <-]; reflexivity|].
  destruct (at_ ordered_table i) as [row|]; [|discriminate]. simpl.
  destruct (at_ row j) as [n|]; [|discriminate]. simpl.
  destruct (n =? -1); [intros [= <-]; reflexivity|].
  destruct (at_ (cloud_filt ef) n) as [np|]; [|discriminate]. simpl.
  destruct (at_ (cloud_filt ef) idx) as [p|]; [|discriminate]. simpl.
  destruct (Fl.lt _ max_range); intros [= <-]; reflexivity.
Qed.

Lemma from_cells_cell allowed idx i j (m m' : NeighborMap) :
  allowed idx -> from_cells ef ordered_table max_range allowed m ->
  visit_cell ef ordered_table max_range idx
             (getRowColInRawData ef idx).1 (getRowColInRawData ef idx).2 i j m = Ok m' ->
  from_cells ef ordered_table max_range allowed m'.
Proof.
  intros Hidx Hm Hv. apply visit_cell_inv in Hv. subst m'.
  intros idx' p. rewrite append_at_lookup.
  destruct (decide (idx = idx')) as [<- | Hne]; [|apply Hm].
  rewrite elem_of_app. intros [Hp | Hp]; [apply Hm, Hp|].
  split; [exact Hidx|]. exists i, j.
  destruct (cell_neighbor ef ordered_table max_range idx (i, j)) as [q|];
    simpl in Hp; [|inversion Hp].
  apply list_elem_of_singleton in Hp. subst q. reflexivity.
Qed.

Lemma from_cells_candidate allowed idx (m m' : NeighborMap) :
  allowed idx -> from_cells ef ordered_table max_range allowed m ->
  visit_candidate fs ef ordered_table max_range idx m = Ok m' ->
  from_cells ef ordered_table max_range allowed m'.
Proof.
  intros Hidx Hm. unfold visit_candidate.
  pose proof (from_cells_cell allowed idx) as Hcell.
  destruct (getRowColInRawData ef idx) as [r c]. simpl fst in Hcell. simpl snd in Hcell.
  destruct (getNearestNeighborLimits fs (getRange ef idx)) as [b|]; [|discriminate].
  simpl. destruct (back b) as [e|]; [|discriminate]. simpl.
  apply forM_invariant; [|exact Hm].
  intros i s s' _ Hs. unfold visit_row.
  destruct (at_ b _) as [e'|]; [|discriminate]. simpl.
  apply forM_invariant; [|exact Hs].
  intros j t t' _ Ht Hv. apply (Hcell i j t t' Hidx Ht Hv).
Qed.

End ReturnedNeighbors.

Section ReturnedNeighborsBatch.
Open Scope Z_scope.

Lemma getNeighborsInBB_from_cells fs ef (indices_in_filt : list (list Z)) max_range
    (m : NeighborMap) :
  getNeighborsInBB fs ef indices_in_filt max_range = Ok m ->
  from_cells ef (buildOrderedFeatureTable ef indices_in_filt) max_range
             (fun idx => idx ∈ concat indices_in_filt) m.
Proof.
  unfold getNeighborsInBB. cbv zeta. rewrite forM_concat.
  apply forM_invariant.
  - intros idx s s' Hin Hs Hv. eapply from_cells_candidate; eauto.
  - intros idx p. rewrite lookup_total_empty. intros Hp. inversion Hp.
Qed.

Lemma cell_neighbor_Some ef (tbl : list (list Z)) max_range idx i j p :
  cell_neighbor ef tbl max_range idx (i, j) = Some p ->
  (i, j) <> getRowColInRawData ef idx /\
  exists (row : list Z) (n : Z) (np pt : PointType) (d : R),
    at_ tbl i = Ok row /\ at_ row j = Ok n /\ n <> -1 /\
    at_ (cloud_filt ef) n = Ok np /\ at_ (cloud_filt ef) idx = Ok pt /\
    p = PointXYZI.xyz np /\ max_range = Fin d /\
    (Vec.norm (Vec.sub p (PointXYZI.xyz pt)) < d)%R.
Proof.
  unfold cell_neighbor.
  destruct (getRowColInRawData ef idx) as [r c].
  destruct ((i =? r) && (j =? c)) eqn:Hown; [discriminate|].
  destruct (at_ tbl i) as [row|] eqn:Hrow; [|discriminate]. simpl.
  destruct (at_ row j) as [n|] eqn:Hcell; [|discriminate].
  destruct (Z.eqb_spec n (-1)) as [|Hn]; [discriminate|].
  destruct (at_ (cloud_filt ef) n) as [np|] eqn:Hnp; [|discriminate].
  destruct (at_ (cloud_filt ef) idx) as [pt|] eqn:Hpt; [|discriminate].
  cbv zeta. unfold Fl.lt. destruct max_range as [d|]; [|discriminate].
  destruct (Rlt_dec _ d) as [Hlt|]; [|discriminate].
  intros [= <-]. split.
  - intros [= -> ->]. rewrite !Z.eqb_refl in Hown. discriminate.
  - exists row, n, np, pt, d. repeat split; try reflexivity; assumption.
Qed.


End ReturnedNeighborsBatch.

Section ReturnedNeighborsExamples.
Open Scope Z_scope.


(** With a radius that is not a positive number no cell contributes. *)
Lemma cell_neighbor_no_radius ef (tbl : list (list Z)) max_range idx cell :
  (forall d, max_range = Fin d -> (d <= 0)%R) ->
  cell_neighbor ef tbl max_range idx cell = None.
Proof.
  intros Hr. destruct cell as [i j].
  destruct (cell_neighbor ef tbl max_range idx (i, j)) as [p|] eqn:Hc; [|reflexivity].
  apply cell_neighbor_Some in Hc as [_ [row [n [np [pt [d H]]]]]].
  destruct H as [_ [_ [_ [_ [_ [_ [Hd Hlt]]]]]]].
  specialize (Hr d Hd).
  pose proof (norm_nonneg (Vec.sub p (PointXYZI.xyz pt))). lra.
Qed.

Lemma no_radius_lookup fs ef (indices_in_filt : list (list Z)) search_radius
    (m : NeighborMap) :
  (forall d, search_radius = Fin d -> (d <= 0)%R) ->
  getNeighborsInBB fs ef indices_in_filt search_radius = Ok m ->
  forall idx, m !!! idx = [].
Proof.
  intros Hr Hm idx. destruct (m !!! idx) as [|p l] eqn:Hl; [reflexivity|].
  destruct (getNeighborsInBB_from_cells _ _ _ _ _ Hm idx p) as [_ [i [j Hc]]].
  - rewrite Hl. apply list_elem_of_here.
  - rewrite cell_neighbor_no_radius in Hc by exact Hr. discriminate.
Qed.

(** Without neighbors every feature is standalone and the ranking empty. *)
Lemma all_standalone_estimate fs ef (features_count : Z)
    (indices_in_filt : list (list Z)) search_radius (m : NeighborMap) :
  getNeighborsInBB fs ef indices_in_filt search_radius = Ok m ->
  (forall idx, m !!! idx = []) ->
  0 <= features_count < 2 ^ 32 ->
  size (concat indices_in_filt) <= features_count ->
  estimateGradients fs ef features_count indices_in_filt search_radius =
  Ok (concat indices_in_filt, [],
      mean_of [], Fl.sqrt (Fl.div (deviations_of [] (mean_of []))
                                  (Fin (IZR features_count)))).
Proof.
  intros Hm Hnone Hfc Hsz.
  assert (Hhas : forall idx, has_neighbors m idx = false).
  { intros idx. unfold has_neighbors. rewrite Hnone. reflexivity. }
  rewrite (estimateGradients_closed _ _ _ _ _ m Hm); [| lia | exact Hsz |].
  - cbv zeta.
    assert (Hg : forall l, grouped_of ef m l = []).
    { intros l. unfold grouped_of. induction l as [|i l IH]; [reflexivity|].
      cbn [List.filter]. rewrite Hhas. exact IH. }
    assert (Hs : forall l, standalone_of m l = l).
    { intros l. unfold standalone_of. induction l as [|i l IH]; [reflexivity|].
      cbn [List.filter]. rewrite Hhas. cbn [negb]. f_equal. exact IH. }
    rewrite Hg, Hs. reflexivity.
  - intros idx _ Hh. rewrite Hhas in Hh. discriminate.
Qed.

(** The cutoff lookup on an empty ranking raises. *)
Lemma empty_ranking_raises fs ef (features_count : Z)
    (indices_in_filt : list (list Z)) search_radius (percentile : R)
    (alone : list Z) (mean std : fl) :
  features_count <> 0 ->
  estimateGradients fs ef features_count indices_in_filt search_radius =
    Ok (alone, [], mean, std) ->
  selectFeaturesFromCloudByGradient fs ef features_count indices_in_filt
    search_radius percentile = Err OutOfRange.
Proof.
  intros Hfc Hest. unfold selectFeaturesFromCloudByGradient.
  destruct (Z.eqb_spec features_count 0) as [|_]; [contradiction|].
  cbv zeta. rewrite Hest. cbn [mbind result_bind].
  change (size (@nil (Z * fl))) with 0. rewrite Rmult_0_r.
  rewrite (floor_to_unsigned_ok 64 _ 0) by (try apply (Zfloor_eq 0); simpl; lra || lia).
  reflexivity.
Qed.

(** X6.  A search radius that is zero, negative or not a number leaves every
    feature without neighbors: when the neighbor search returns, no index has
    a neighbor, every feature of the batch is standalone, and the selection
    of a non-empty batch ends in the out-of-range error of the cutoff
    lookup on the empty ranking. *)
Theorem no_neighbors_without_radius (fs : FeatureSelection) (ef : ExtractedFeatures)
    (features_count : Z) (indices_in_filt : list (list Z)) (search_radius : fl)
    (percentile : R) (m : NeighborMap) :
  (forall d, search_radius = Fin d -> (d <= 0)%R) ->
  getNeighborsInBB fs ef indices_in_filt search_radius = Ok m ->
  0 < features_count < 2 ^ 32 ->
  size (concat indices_in_filt) <= features_count ->
  (forall idx, m !!! idx = []) /\
  (exists mean std,
     estimateGradients fs ef features_count indices_in_filt search_radius =
     Ok (concat indices_in_filt, [], mean, std)) /\
  selectFeaturesFromCloudByGradient fs ef features_count indices_in_filt
    search_radius percentile = Err OutOfRange.
Proof.
  intros Hr Hm Hfc Hsz.
  pose proof (no_radius_lookup fs ef indices_in_filt search_radius m Hr Hm) as Hnone.
  pose proof (all_standalone_estimate fs ef features_count indices_in_filt
                search_radius m Hm Hnone ltac:(lia) Hsz) as Hest.
  split; [exact Hnone|]. split; [eexists _, _; exact Hest|].
  eapply empty_ranking_raises; [lia | exact Hest].
Qed.

End ReturnedNeighborsExamples.

Section ReturnedNeighborsMore.
Open Scope Z_scope.

Lemma no_neighbors_without_radius_witness :
  selectFeaturesFromCloudByGradient fs_default ef_chain 4 [[0; 1; 2; 3]]
    (Fin (-0.5)) 0.5 = Err OutOfRange.
Proof.
  destruct (getNeighborsInBB_lookup fs_default ef_chain [[0; 1; 2; 3]] (Fin (-0.5))
              chain_grid_wf chain_candidate_wf) as [m [Hm _]].
  apply (no_neighbors_without_radius fs_default ef_chain 4 [[0; 1; 2; 3]]
           (Fin (-0.5)) 0.5 m).
  - intros d [= <-]. lra.
  - exact Hm.
  - lia.
  - zbounds.
Defined.

Lemma flat_map_pick_count {B : Type} (W : Z -> list B) (idx : Z) (batch : list Z) :
  flat_map (fun i => if decide (i = idx) then W i else []) batch =
  concat (replicate (length (List.filter (Z.eqb idx) batch)) (W idx)).
Proof.
  induction batch as [|i batch IH]; [reflexivity|].
  cbn [flat_map List.filter]. rewrite IH.
  destruct (decide (i = idx)) as [-> | Hne].
  - rewrite Z.eqb_refl. reflexivity.
  - destruct (Z.eqb_spec idx i); [congruence | reflexivity].
Qed.

(** X7.  On a well-formed grid the list stored for an index is the list of
    its window neighbors, in the order the rows and columns are scanned,
    once for every time the batch lists the index: nothing for an index the
    batch does not list, and twice over for an index listed twice. *)
Theorem neighbors_per_occurrence (fs : FeatureSelection) (ef : ExtractedFeatures)
    (indices_in_filt : list (list Z)) (max_range : fl) :
  grid_wf ef (buildOrderedFeatureTable ef indices_in_filt) ->
  (forall idx, idx ∈ concat indices_in_filt -> candidate_wf fs ef idx) ->
  exists m : NeighborMap,
    getNeighborsInBB fs ef indices_in_filt max_range = Ok m /\
    forall idx,
      m !!! idx =
      concat (replicate
                (length (List.filter (Z.eqb idx) (concat indices_in_filt)))
                (windowRadiusSearch ef (buildOrderedFeatureTable ef indices_in_filt)
                   max_range (envelope_of fs ef idx) idx)).
Proof.
  intros Hgrid Hcand.
  destruct (getNeighborsInBB_lookup fs ef indices_in_filt max_range Hgrid Hcand)
    as [m [Hm Hlook]].
  exists m. split; [exact Hm|]. intros idx.
  rewrite Hlook.
  apply (flat_map_pick_count
           (fun i => windowRadiusSearch ef (buildOrderedFeatureTable ef indices_in_filt)
                       max_range (envelope_of fs ef i) i)).
Qed.

Lemma neighbors_per_occurrence_witness :
  exists m : NeighborMap,
    getNeighborsInBB fs_default ef_chain [[0; 1; 2; 3]] (Fin 0.15) = Ok m /\
    forall idx,
      m !!! idx =
      concat (replicate
                (length (List.filter (Z.eqb idx) (concat [[0; 1; 2; 3]])))
                (windowRadiusSearch ef_chain
                   (buildOrderedFeatureTable ef_chain [[0; 1; 2; 3]])
                   (Fin 0.15) (envelope_of fs_default ef_chain idx) idx)).
Proof.
  apply (neighbors_per_occurrence fs_default ef_chain [[0; 1; 2; 3]] (Fin 0.15)).
  - apply chain_grid_wf.
  - apply chain_candidate_wf.
Defined.

End ReturnedNeighborsMore.

(** ** What [estimateGradients] returns *)

Section GradientFacts.
Open Scope Z_scope.

(** An index that received a neighbor is an index of the filtered cloud. *)
Lemma neighbors_valid fs ef (indices_in_filt : list (list Z)) max_range
    (m : NeighborMap) idx :
  getNeighborsInBB fs ef indices_in_filt max_range = Ok m ->
  has_neighbors m idx = true ->
  idx ∈ concat indices_in_filt /\ 0 <= idx < size (cloud_filt ef).
Proof.
  intros Hm Hh. unfold has_neighbors in Hh.
  destruct (m !!! idx) as [|p l] eqn:Hl; [discriminate|].
  destruct (getNeighborsInBB_from_cells _ _ _ _ _ Hm idx p) as [Hin [i [j Hc]]].
  { rewrite Hl. apply list_elem_of_here. }
  split; [exact Hin|].
  apply cell_neighbor_Some in Hc as [_ [row [n [np [pt [d H]]]]]].
  destruct H as [_ [_ [_ [_ [Hpt _]]]]].
  apply at_Ok_inv in Hpt as [Hr _]. unfold size. exact Hr.
Qed.

Lemma estimateGradients_returns fs ef (features_count : Z)
    (indices_in_filt : list (list Z)) search_radius (neighbors : NeighborMap) :
  getNeighborsInBB fs ef indices_in_filt search_radius = Ok neighbors ->
  0 <= features_count < 2 ^ 32 ->
  size (concat indices_in_filt) <= features_count ->
  estimateGradients fs ef features_count indices_in_filt search_radius =
  Ok (standalone_of neighbors (concat indices_in_filt),
      sort_desc (normalized_of (grouped_of ef neighbors (concat indices_in_filt))),
      mean_of (normalized_of (grouped_of ef neighbors (concat indices_in_filt))),
      Fl.sqrt (Fl.div (deviations_of
                         (normalized_of (grouped_of ef neighbors (concat indices_in_filt)))
                         (mean_of (normalized_of
                                     (grouped_of ef neighbors (concat indices_in_filt)))))
                      (Fin (IZR features_count)))).
Proof.
  intros Hm Hfc Hsz.
  rewrite (estimateGradients_closed _ _ _ _ _ neighbors Hm Hfc Hsz); [reflexivity|].
  intros idx _ Hh. eapply neighbors_valid; eauto.
Qed.

Lemma filter_partition_perm {A} (f : A -> bool) (l : list A) :
  List.filter (fun x => negb (f x)) l ++ List.filter f l ≡ₚ l.
Proof.
  induction l as [|a l IH]; [reflexivity|]. cbn [List.filter].
  destruct (f a); cbn [negb].
  - rewrite <- Permutation_middle. constructor. exact IH.
  - simpl. constructor. exact IH.
Qed.

Lemma normalized_fst_eq raw : (normalized_of raw).*1 = raw.*1.
Proof.
  unfold normalized_of. generalize (max_of raw). intros mx.
  induction raw as [|e raw IH]; [reflexivity|].
  cbn [map fmap list_fmap fst]. f_equal. exact IH.
Qed.

Lemma grouped_fst_eq ef (m : NeighborMap) batch :
  (grouped_of ef m batch).*1 = List.filter (has_neighbors m) batch.
Proof.
  unfold grouped_of. induction (List.filter (has_neighbors m) batch) as [|i l IH];
    [reflexivity|]. cbn [map fmap list_fmap fst]. f_equal. exact IH.
Qed.

(** X8.  [estimateGradients] splits the batch: every index of the batch
    comes back exactly once, among the standalone indices when the search
    found no neighbor for it (these keep the order of the batch) and in the
    ranking otherwise. *)
Theorem estimateGradients_splits_batch (fs : FeatureSelection)
    (ef : ExtractedFeatures) (features_count : Z)
    (indices_in_filt : list (list Z)) (search_radius : fl) (m : NeighborMap) :
  getNeighborsInBB fs ef indices_in_filt search_radius = Ok m ->
  0 <= features_count < 2 ^ 32 ->
  size (concat indices_in_filt) <= features_count ->
  exists alone ranking mean std,
    estimateGradients fs ef features_count indices_in_filt search_radius =
      Ok (alone, ranking, mean, std) /\
    alone ++ ranking.*1 ≡ₚ concat indices_in_filt /\
    size alone + size ranking = size (concat indices_in_filt) /\
    alone = List.filter (fun idx => bool_decide (m !!! idx = []))
                        (concat indices_in_filt) /\
    (forall e, e ∈ ranking -> m !!! e.1 <> []).
Proof.
  intros Hm Hfc Hsz. eexists _, _, _, _.
  split; [apply (estimateGradients_returns _ _ _ _ _ m Hm Hfc Hsz)|].
  set (batch := concat indices_in_filt).
  assert (Hfst : (sort_desc (normalized_of (grouped_of ef m batch))).*1
                 ≡ₚ List.filter (has_neighbors m) batch).
  { rewrite sort_desc_perm, normalized_fst_eq, grouped_fst_eq. reflexivity. }
  split; [|split; [|split]].
  - rewrite Hfst. apply filter_partition_perm.
  - unfold size. rewrite sort_desc_length.
    unfold normalized_of. rewrite length_map.
    pose proof (grouped_standalone_length ef m batch). lia.
  - unfold standalone_of. apply List.filter_ext. intros idx.
    unfold has_neighbors. destruct (m !!! idx) as [|p l]; reflexivity.
  - intros e He. apply elem_of_sort_desc, normalized_fst in He.
    destruct He as [e' [He' ->]].
    unfold grouped_of in He'. apply list_elem_of_In, in_map_iff in He'.
    destruct He' as [idx [<- Hin]]. apply filter_In in Hin as [_ Hh].
    unfold has_neighbors in Hh. cbn [fst].
    destruct (m !!! idx); [discriminate | discriminate].
Qed.

Lemma estimateGradients_splits_batch_witness :
  exists alone ranking mean std,
    estimateGradients fs_default ef_chain 4 [[0; 1; 2; 3]] (Fin 0.15) =
      Ok (alone, ranking, mean, std) /\
    alone ++ ranking.*1 ≡ₚ concat [[0; 1; 2; 3]] /\
    size alone + size ranking = size (concat [[0; 1; 2; 3]]).
Proof.
  destruct chain_neighbors as [m [Hm _]].
  destruct (estimateGradients_splits_batch fs_default ef_chain 4 [[0; 1; 2; 3]]
              (Fin 0.15) m Hm ltac:(lia) ltac:(zbounds))
    as [alone [ranking [mean [std [H1 [H2 [H3 _]]]]]]].
  exists alone, ranking, mean, std. split; [exact H1|]. split; assumption.
Defined.

End GradientFacts.

(** ** Normalized gradients *)

Section FiniteGradients.
Open Scope R_scope.

Lemma fold_fmax_fin (raw : list (Z * fl)) : forall a,
  Forall (fun e : Z * fl => exists r, e.2 = Fin r) raw ->
  exists mx,
    fold_left (fun m e => Fl.fmax m e.2) raw (Fin a) = Fin mx /\ a <= mx /\
    (forall e r, e ∈ raw -> e.2 = Fin r -> r <= mx) /\
    (mx = a \/ exists e, e ∈ raw /\ e.2 = Fin mx).
Proof.
  induction raw as [|e raw IH]; intros a Hall.
  - exists a. split; [reflexivity|]. split; [lra|]. split; [|left; reflexivity].
    intros e r He. inversion He.
  - apply Forall_cons_1 in Hall as [[r Hr] Hall].
    cbn [fold_left]. rewrite Hr. unfold Fl.fmax at 2.
    destruct (IH (Rmax a r) Hall) as [mx [Hfold [Hge [Hub Hatt]]]].
    exists mx. split; [exact Hfold|].
    pose proof (Rmax_l a r). pose proof (Rmax_r a r).
    split; [lra|]. split.
    + intros e' r' He' Hr'. apply elem_of_cons in He' as [-> | He'].
      * rewrite Hr in Hr'. injection Hr' as <-. lra.
      * eapply Hub; eauto.
    + destruct Hatt as [Heq | [e' [He' Hm]]].
      * destruct (Rle_dec a r) as [Hd | Hd].
        -- rewrite Rmax_right in Heq by lra.
           right. exists e. split; [left|]. rewrite Hr, Heq. reflexivity.
        -- rewrite Rmax_left in Heq by lra. left. exact Heq.
      * right. exists e'. split; [right; exact He' | exact Hm].
Qed.

Lemma grouped_of_nonneg ef (m : NeighborMap) batch e :
  e ∈ grouped_of ef m batch -> exists r, e.2 = Fin r /\ 0 <= r.
Proof.
  unfold grouped_of. intros He. apply list_elem_of_In, in_map_iff in He.
  destruct He as [idx [<- _]]. unfold grad_norm_of. cbn [snd].
  eexists. split; [reflexivity | apply norm_nonneg].
Qed.

(** With a grouped feature of non-zero magnitude the running maximum is a
    positive number that bounds every magnitude and that one of them
    attains. *)
Lemma max_of_grouped ef (m : NeighborMap) batch :
  nondegenerate ef m batch ->
  exists mx, max_of (grouped_of ef m batch) = Fin mx /\ 0 < mx /\
    (forall e, e ∈ grouped_of ef m batch -> exists r, e.2 = Fin r /\ 0 <= r <= mx) /\
    (exists e, e ∈ grouped_of ef m batch /\ e.2 = Fin mx).
Proof.
  intros [idx [Hin [Hh Hne]]].
  set (raw := grouped_of ef m batch).
  assert (Hfin : Forall (fun e : Z * fl => exists r, e.2 = Fin r) raw).
  { apply Forall_forall. intros e He.
    destruct (grouped_of_nonneg _ _ _ _ He) as [r [Hr _]]. eauto. }
  destruct (fold_fmax_fin raw 0 Hfin) as [mx [Hfold [Hge [Hub Hatt]]]].
  assert (Hidx : (idx, grad_norm_of ef m idx) ∈ raw).
  { unfold raw, grouped_of. apply list_elem_of_In, in_map_iff. exists idx.
    split; [reflexivity|]. apply filter_In. split; [apply list_elem_of_In, Hin | exact Hh]. }
  destruct (grouped_of_nonneg _ _ _ _ Hidx) as [r [Hr Hr0]]. cbn [snd] in Hr.
  assert (Hrpos : 0 < r).
  { destruct Hr0 as [Hlt | <-]; [exact Hlt|]. contradiction. }
  pose proof (Hub _ r Hidx Hr) as Hle.
  exists mx. split; [exact Hfold|]. split; [lra|]. split.
  - intros e He. destruct (grouped_of_nonneg _ _ _ _ He) as [r' [Hr' Hr'0]].
    exists r'. split; [exact Hr'|]. split; [exact Hr'0 | eapply Hub; eauto].
  - destruct Hatt as [Heq | Hex]; [lra | exact Hex].
Qed.

Lemma in_unit_fin v : in_unit v <-> exists r, v = Fin r /\ 0 <= r <= 1.
Proof.
  destruct v as [r|]; simpl; split.
  - intros H. exists r. auto.
  - intros [r' [[= <-] H]]. exact H.
  - contradiction.
  - intros [r' [[=] _]].
Qed.

Lemma normalized_of_unit ef (m : NeighborMap) batch :
  nondegenerate ef m batch ->
  Forall (fun e : Z * fl => in_unit e.2) (normalized_of (grouped_of ef m batch)) /\
  exists e, e ∈ normalized_of (grouped_of ef m batch) /\ e.2 = Fin 1.
Proof.
  intros Hnd. destruct (max_of_grouped ef m batch Hnd) as [mx [Hmax [Hpos [Hall [e [He Hm]]]]]].
  unfold normalized_of. rewrite Hmax. split.
  - apply Forall_forall. intros x Hx.
    apply list_elem_of_In, in_map_iff in Hx as [e' [<- He']].
    rewrite <- list_elem_of_In in He'. destruct (Hall e' He') as [r [Hr [Hr0 Hr1]]].
    cbn [snd]. rewrite Hr, div_fin by lra. simpl. split.
    + apply Rmult_le_pos; [exact Hr0 | left; apply Rinv_0_lt_compat, Hpos].
    + apply Rmult_le_reg_r with mx; [exact Hpos|].
      unfold Rdiv. rewrite Rmult_assoc, Rinv_l by lra. lra.
  - exists (e.1, Fl.div e.2 (Fin mx)). split.
    + apply list_elem_of_In, in_map_iff. exists e.
      split; [reflexivity | apply list_elem_of_In, He].
    + cbn [snd]. rewrite Hm, div_fin by lra. apply fin_eq.
      unfold Rdiv. apply Rinv_r. lra.
Qed.

Lemma ge_fin_inv a b :
  Fl.ge a b = true -> exists x y, a = Fin x /\ b = Fin y /\ y <= x.
Proof.
  unfold Fl.ge. destruct a as [x|], b as [y|]; try discriminate.
  destruct (Rle_dec y x); [|discriminate]. intros _. exists x, y. auto.
Qed.

Lemma insert_desc_descending e l :
  (exists r, e.2 = Fin r) ->
  Forall (fun x : Z * fl => exists r, x.2 = Fin r) l ->
  descending l -> descending (insert_desc e l).
Proof.
  intros [re Hre] Hfin Hd. induction l as [|h t IH].
  - split; [constructor | exact I].
  - apply Forall_cons_1 in Hfin as [[rh Hrh] Ht]. destruct Hd as [Hht Hdt].
    cbn [insert_desc]. rewrite Hrh, Hre.
    destruct (Rlt_dec re rh) as [Hlt | Hge].
    + rewrite gt_fin_true by exact Hlt. split; [|apply IH; assumption].
      rewrite insert_desc_perm. apply Forall_cons. split; [|exact Hht].
      rewrite Hrh, Hre. apply ge_fin_true. lra.
    + rewrite gt_fin_false by lra. split; [|split; assumption].
      apply Forall_cons. split.
      * rewrite Hre, Hrh. apply ge_fin_true. lra.
      * eapply Forall_impl; [exact Hht|]. intros b Hb. cbv beta in Hb.
        apply ge_fin_inv in Hb as [x [y [Hx [Hy Hle]]]].
        rewrite Hrh in Hx. injection Hx as <-.
        rewrite Hre, Hy. apply ge_fin_true. lra.
Qed.

Lemma sort_desc_descending l :
  Forall (fun x : Z * fl => exists r, x.2 = Fin r) l -> descending (sort_desc l).
Proof.
  intros Hfin. induction l as [|e l IH]; [exact I|].
  apply Forall_cons_1 in Hfin as [He Hl].
  unfold sort_desc. cbn [foldr]. apply insert_desc_descending.
  - exact He.
  - fold (sort_desc l). rewrite sort_desc_perm. exact Hl.
  - apply IH, Hl.
Qed.

Lemma in_unit_finite l :
  Forall (fun e : Z * fl => in_unit e.2) l ->
  Forall (fun x : Z * fl => exists r, x.2 = Fin r) l.
Proof.
  intros H. eapply Forall_impl; [exact H|]. intros x Hx. cbv beta in Hx.
  apply in_unit_fin in Hx as [r [Hr _]]. eauto.
Qed.

(** The first entry of a descending ranking of numbers in the unit interval
    that holds a 1 is a 1. *)
Lemma descending_head l e :
  Forall (fun e : Z * fl => in_unit e.2) l -> descending l -> e ∈ l -> e.2 = Fin 1 ->
  exists e0 t, l = e0 :: t /\ e0.2 = Fin 1.
Proof.
  intros Hb Hd He H1. destruct l as [|e0 t]; [inversion He|].
  exists e0, t. split; [reflexivity|].
  apply Forall_cons_1 in Hb as [Hu _]. apply in_unit_fin in Hu as [r0 [Hr0 Hu]].
  destruct Hd as [Hall _].
  apply elem_of_cons in He as [-> | He]; [exact H1|].
  rewrite Forall_forall in Hall. apply Hall in He.
  apply ge_fin_inv in He as [x [y [Hx [Hy Hle]]]].
  rewrite Hr0 in Hx. injection Hx as <-. rewrite H1 in Hy. injection Hy as <-.
  rewrite Hr0. apply fin_eq. lra.
Qed.

End FiniteGradients.

Section RankingExtras.
Open Scope Z_scope.

Lemma nondegenerate_ranking ef (m : NeighborMap) batch :
  nondegenerate ef m batch ->
  Forall (fun e : Z * fl => in_unit e.2) (ranking_of ef m batch) /\
  descending (ranking_of ef m batch) /\
  exists e0 rest, ranking_of ef m batch = e0 :: rest /\ e0.2 = Fin 1.
Proof.
  intros Hnd. destruct (normalized_of_unit ef m batch Hnd) as [Hunit [e [He H1]]].
  unfold ranking_of.
  assert (Hu : Forall (fun e : Z * fl => in_unit e.2)
                      (sort_desc (normalized_of (grouped_of ef m batch))))
    by (rewrite sort_desc_perm; exact Hunit).
  assert (Hd : descending (sort_desc (normalized_of (grouped_of ef m batch))))
    by (apply sort_desc_descending, in_unit_finite, Hunit).
  split; [exact Hu|]. split; [exact Hd|].
  apply (descending_head _ e Hu Hd); [|exact H1].
  apply elem_of_sort_desc, He.
Qed.


End RankingExtras.

Section RankingWitness.
Open Scope Z_scope.

Lemma chain_nondegenerate (m : NeighborMap) :
  m !!! 0 = ([(0.5, 0.1, 0)%R] : list Vector3f) ->
  nondegenerate ef_chain m (concat [[0; 1; 2; 3]]).
Proof.
  intros H0. exists 0. split; [apply list_elem_of_here|]. split.
  - unfold has_neighbors. rewrite H0. reflexivity.
  - rewrite (chain_grad_norm0 m H0). intros [= H]. lra.
Qed.


End RankingWitness.

(** ** Mean and deviation *)

Section Statistics.
Open Scope R_scope.

Lemma add_swap a x y : Fl.add (Fl.add a x) y = Fl.add (Fl.add a y) x.
Proof.
  unfold Fl.add, Fl.lift2. destruct a, x, y; try reflexivity.
  apply fin_eq. lra.
Qed.

Lemma fold_add_perm (g : Z * fl -> fl) l1 l2 :
  l1 ≡ₚ l2 -> forall a,
  fold_left (fun s e => Fl.add s (g e)) l1 a =
  fold_left (fun s e => Fl.add s (g e)) l2 a.
Proof.
  induction 1 as [|x l l' _ IH|x y l|l l' l'' _ IH1 _ IH2]; intros a; cbn [fold_left].
  - reflexivity.
  - apply IH.
  - rewrite add_swap. reflexivity.
  - rewrite IH1. apply IH2.
Qed.

Lemma sum_of_perm l1 l2 : l1 ≡ₚ l2 -> sum_of l1 = sum_of l2.
Proof. intros H. unfold sum_of. apply (fold_add_perm snd), H. Qed.

Lemma mean_of_perm l1 l2 : l1 ≡ₚ l2 -> mean_of l1 = mean_of l2.
Proof.
  intros H. unfold mean_of, size. rewrite (sum_of_perm _ _ H).
  rewrite (Permutation_length H). reflexivity.
Qed.

Lemma deviations_of_perm l1 l2 mean :
  l1 ≡ₚ l2 -> deviations_of l1 mean = deviations_of l2 mean.
Proof.
  intros H. unfold deviations_of.
  apply (fold_add_perm (fun e => Fl.mul (Fl.sub e.2 mean) (Fl.sub e.2 mean))), H.
Qed.

Lemma population_stddev_perm l1 l2 :
  l1 ≡ₚ l2 -> population_stddev l1 = population_stddev l2.
Proof.
  intros H. unfold population_stddev, size.
  rewrite (mean_of_perm _ _ H), (deviations_of_perm _ _ _ H), (Permutation_length H).
  reflexivity.
Qed.

Lemma fold_sum_unit l : forall a,
  Forall (fun e : Z * fl => in_unit e.2) l ->
  exists total,
    fold_left (fun s e => Fl.add s e.2) l (Fin a) = Fin total /\
    a <= total <= a + INR (length l).
Proof.
  induction l as [|e l IH]; intros a Hall.
  - exists a. split; [reflexivity | simpl; lra].
  - apply Forall_cons_1 in Hall as [He Hl]. apply in_unit_fin in He as [r [Hr Hu]].
    cbn [fold_left]. rewrite Hr. unfold Fl.add at 2, Fl.lift2.
    destruct (IH (a + r) Hl) as [total [Hfold Hb]].
    exists total. split; [exact Hfold|].
    change (length (e :: l)) with (S (length l)). rewrite S_INR. lra.
Qed.

Lemma fold_deviations_fin mean l : forall a,
  0 <= a ->
  Forall (fun x : Z * fl => exists r, x.2 = Fin r) l ->
  exists total,
    fold_left (fun s e => Fl.add s (Fl.mul (Fl.sub e.2 (Fin mean))
                                           (Fl.sub e.2 (Fin mean))))
              l (Fin a) = Fin total /\ 0 <= total.
Proof.
  induction l as [|e l IH]; intros a Ha Hall.
  - exists a. split; [reflexivity | exact Ha].
  - apply Forall_cons_1 in Hall as [[r Hr] Hl].
    cbn [fold_left]. rewrite Hr. unfold Fl.add at 2, Fl.mul, Fl.sub, Fl.lift2.
    apply IH; [|exact Hl].
    pose proof (Rle_0_sqr (r - mean)) as Hsq. unfold Rsqr in Hsq. lra.
Qed.

End Statistics.

Section StatisticsExtras.
Open Scope Z_scope.



End StatisticsExtras.

(** ** What the selection keeps *)

Section SelectionForms.
Open Scope Z_scope.

Lemma cutoff_in_range (percentile : R) (n : Z) :
  (0 <= percentile < 1)%R -> 1 <= n ->
  0 <= Zfloor (percentile * IZR n) < n.
Proof.
  intros Hp Hn. apply (IZR_le 1) in Hn as Hn'. split.
  - apply Zfloor_lub. simpl. nra.
  - apply Z.lt_le_pred. apply Zfloor_upper.
    rewrite <- Z.sub_1_r, minus_IZR. simpl. nra.
Qed.

Lemma descending_take (l : list (Z * fl)) : forall (i : nat) (e : Z * fl),
  descending l -> l !! i = Some e -> (exists r, e.2 = Fin r) ->
  Forall (fun a : Z * fl => Fl.ge a.2 e.2 = true) (take (S i) l).
Proof.
  induction l as [|a l IH]; intros i e Hd Hl Hfin; [discriminate|].
  destruct Hd as [Hall Hd]. destruct i as [|i].
  - injection Hl as <-. cbn [take]. rewrite take_0. apply Forall_cons. split; [|constructor].
    destruct Hfin as [r ->]. apply ge_fin_true. lra.
  - cbn [lookup list_lookup] in Hl. change (take (S (S i)) (a :: l)) with (a :: take (S i) l).
    apply Forall_cons. split.
    + rewrite Forall_forall in Hall. apply Hall. eapply list_elem_of_lookup_2, Hl.
    + apply IH; assumption.
Qed.

Lemma filter_all {A} (f : A -> bool) (l : list A) :
  Forall (fun a => f a = true) l -> List.filter f l = l.
Proof.
  induction l as [|a l IH]; intros H; [reflexivity|].
  apply Forall_cons_1 in H as [Ha Hl]. cbn [List.filter]. rewrite Ha.
  f_equal. apply IH, Hl.
Qed.

Lemma retained_at_least (ranking : list (Z * fl)) (i : nat) (e : Z * fl) :
  descending ranking -> ranking !! i = Some e -> (exists r, e.2 = Fin r) ->
  (S i <= length (retained_of ranking e.2))%nat.
Proof.
  intros Hd Hl Hfin. unfold retained_of.
  rewrite <- (take_drop (S i) ranking) at 1. rewrite List.filter_app, length_app.
  rewrite (filter_all _ _ (descending_take ranking i e Hd Hl Hfin)).
  rewrite length_take. apply lookup_lt_Some in Hl. lia.
Qed.

End SelectionForms.

Section SelectionExtras.
Open Scope Z_scope.

Variable fs : FeatureSelection.
Variable ef : ExtractedFeatures.
Variable features_count : Z.
Variable indices_in_filt : list (list Z).
Variable search_radius : fl.
Variable percentile : R.
Variable m : NeighborMap.

Hypothesis Hcount : features_count = size (concat indices_in_filt).
Hypothesis Hfc : 0 < features_count < 2 ^ 32.
Hypothesis Hcloud : size (cloud_filt ef) <= 2 ^ 31.
Hypothesis Hvalid :
  forall idx, idx ∈ concat indices_in_filt -> 0 <= idx < size (cloud_filt ef).
Hypothesis Hm : getNeighborsInBB fs ef indices_in_filt search_radius = Ok m.
Hypothesis Hnd : nondegenerate ef m (concat indices_in_filt).

(** The entry at an index inside the ranking is the cutoff the selection
    uses, and what it returns. *)
Lemma selection_at (i : Z) :
  Zfloor (percentile * IZR (size (ranking_of ef m (concat indices_in_filt)))) = i ->
  0 <= i < size (ranking_of ef m (concat indices_in_filt)) ->
  exists (e : Z * fl) (c : R),
    ranking_of ef m (concat indices_in_filt) !! Z.to_nat i = Some e /\
    e.2 = Fin c /\ (0 <= c <= 1)%R /\
    selectFeaturesFromCloudByGradient fs ef features_count indices_in_filt
      search_radius percentile =
    Ok (map (point_of ef) (standalone_of m (concat indices_in_filt))
          ++ map (fun g => point_of ef g.1)
                 (retained_of (ranking_of ef m (concat indices_in_filt)) (Fin c)),
        replicate (length (standalone_of m (concat indices_in_filt))) (Fin 1)
          ++ map snd (ranking_of ef m (concat indices_in_filt)),
        mean_of (normalized_of (grouped_of ef m (concat indices_in_filt))),
        Fl.sqrt (Fl.div (deviations_of
                           (normalized_of (grouped_of ef m (concat indices_in_filt)))
                           (mean_of (normalized_of
                                       (grouped_of ef m (concat indices_in_filt)))))
                        (Fin (IZR features_count))),
        Fin c).
Proof.
  intros Hi Hr.
  destruct (at_in_range _ i Hr) as [e [Hat Hin]].
  destruct (nondegenerate_ranking ef m _ Hnd) as [Hu _].
  rewrite Forall_forall in Hu. apply Hu, in_unit_fin in Hin as [c [Hc Hcu]].
  exists e, c. split; [apply at_lookup in Hat as [_ Hl]; exact Hl|].
  split; [exact Hc|]. split; [exact Hcu|].
  rewrite <- Hi in Hat.
  pose proof (selection_returns fs ef features_count indices_in_filt search_radius
                percentile m e Hcount Hfc Hcloud Hvalid Hm Hat) as Hsel.
  cbv zeta in Hsel. rewrite Hc in Hsel. exact Hsel.
Qed.

Lemma ranking_size_pos : 1 <= size (ranking_of ef m (concat indices_in_filt)).
Proof.
  destruct (nondegenerate_ranking ef m _ Hnd) as [_ [_ [e0 [rest [Heq _]]]]].
  rewrite Heq. unfold size. simpl. lia.
Qed.

Lemma ranking_size_le :
  size (standalone_of m (concat indices_in_filt))
  + size (ranking_of ef m (concat indices_in_filt)) = features_count.
Proof.
  unfold ranking_of, size. rewrite sort_desc_length. unfold normalized_of.
  rewrite length_map.
  pose proof (grouped_standalone_length ef m (concat indices_in_filt)).
  rewrite Hcount. unfold size. lia.
Qed.

End SelectionExtras.

Section SelectionTheorems.
Open Scope Z_scope.

(** With a keep-percentile in [0, 1) the cutoff index falls inside the
    ranking: the selection returns, with a cutoff of the unit interval. *)
Lemma selection_total (fs : FeatureSelection) (ef : ExtractedFeatures)
    (features_count : Z) (indices_in_filt : list (list Z)) (search_radius : fl)
    (percentile : R) (m : NeighborMap) :
  features_count = size (concat indices_in_filt) ->
  0 < features_count < 2 ^ 32 ->
  size (cloud_filt ef) <= 2 ^ 31 ->
  (forall idx, idx ∈ concat indices_in_filt -> 0 <= idx < size (cloud_filt ef)) ->
  getNeighborsInBB fs ef indices_in_filt search_radius = Ok m ->
  nondegenerate ef m (concat indices_in_filt) ->
  (0 <= percentile < 1)%R ->
  exists selected norms mean std (c : R),
    selectFeaturesFromCloudByGradient fs ef features_count indices_in_filt
      search_radius percentile = Ok (selected, norms, mean, std, Fin c) /\
    (0 <= c <= 1)%R.
Proof.
  intros Hcount Hfc Hcloud Hvalid Hm Hnd Hp.
  pose proof (ranking_size_pos ef indices_in_filt m Hnd) as Hpos.
  pose proof (cutoff_in_range percentile _ Hp Hpos) as Hi.
  destruct (selection_at fs ef features_count indices_in_filt search_radius
              percentile m Hcount Hfc Hcloud Hvalid Hm Hnd _ eq_refl Hi)
    as [e [c [_ [_ [Hcu Hsel]]]]].
  eexists _, _, _, _, c. split; [exact Hsel | exact Hcu].
Qed.




End SelectionTheorems.

Section SelectionWitnesses.
Open Scope Z_scope.

Lemma chain_valid idx :
  idx ∈ concat [[0; 1; 2; 3]] -> 0 <= idx < size (cloud_filt ef_chain).
Proof.
  intros Hin. apply chain_idx in Hin.
  destruct Hin as [-> | [-> | [-> | ->]]]; zbounds.
Qed.

Lemma chain_ranking (m : NeighborMap) :
  m !!! 0 = ([(0.5, 0.1, 0)%R] : list Vector3f) ->
  m !!! 1 = ([(0.5, 0, 0)%R; (0.5, 0.24, 0)%R] : list Vector3f) ->
  m !!! 2 = ([(0.5, 0.1, 0)%R] : list Vector3f) ->
  m !!! 3 = ([] : list Vector3f) ->
  ranking_of ef_chain m (concat [[0; 1; 2; 3]]) =
  [(2, Fin 1); (0, Fin (5 / 7)); (1, Fin (1 / 7))].
Proof.
  intros H0 H1 H2 H3. unfold ranking_of.
  change (concat [[0; 1; 2; 3]]) with [0; 1; 2; 3].
  rewrite (chain_grouped m H0 H1 H2 H3), chain_normalized, chain_sorted.
  reflexivity.
Qed.




End SelectionWitnesses.

(** ** [selectFeatures] with selection switched on *)

Section SelectFeaturesEnabled.
Open Scope Z_scope.

Lemma estimateResolution_fin c (l : list fl) lo hi :
  estimateResolution (Fin c) l lo hi = Fin (lo + c * (hi - lo)).
Proof. reflexivity. Qed.


End SelectFeaturesEnabled.

(** ** Two features, corners and surfaces alike *)

Section Pair.
Open Scope Z_scope.

Let tbl : list (list Z) := buildOrderedFeatureTable ef_pair [[0; 1]].

Lemma pair_grid_wf : grid_wf ef_pair tbl.
Proof.
  apply (grid_wf_check ef_pair tbl 2); [reflexivity | zbounds | zbounds | reflexivity].
Qed.

Lemma pair_idx idx : idx ∈ concat [[0; 1]] -> idx = 0 \/ idx = 1.
Proof.
  intros Hin. apply list_elem_of_In in Hin. simpl in Hin. intuition.
Qed.

Lemma pair_range idx : idx = 0 \/ idx = 1 -> (0 <= getRange ef_pair idx < 0.8)%R.
Proof.
  intros [-> | ->]; simpl; unfold PointXYZI.xyz; simpl;
    apply norm_bounds; simpl; lra.
Qed.

Lemma pair_candidate_wf idx :
  idx ∈ concat [[0; 1]] -> candidate_wf fs_enabled ef_pair idx.
Proof.
  intros Hin. apply pair_idx in Hin.
  apply near_candidate_wf; [reflexivity | | | | apply pair_range, Hin];
    destruct Hin as [-> | ->]; zbounds.
Qed.

Lemma pair_valid idx :
  idx ∈ concat [[0; 1]] -> 0 <= idx < size (cloud_filt ef_pair).
Proof.
  intros Hin. apply pair_idx in Hin. destruct Hin as [-> | ->]; zbounds.
Qed.

Lemma pair_window0 (d : R) :
  (0.1 < d)%R ->
  windowRadiusSearch ef_pair tbl (Fin d) (envelope_of fs_enabled ef_pair 0) 0
  = [(0.5, 0.1, 0)%R].
Proof.
  intros Hd.
  rewrite (ring_window_eval fs_enabled ef_pair tbl _ 0 0 [(0, 32)]
             eq_refl (pair_range 0 ltac:(auto)) eq_refl eq_refl eq_refl).
  cbn [omap list_omap]. erewrite cell_neighbor_at by reflexivity.
  rewrite lt_norm_true; [reflexivity | lra |].
  unfold Vec.sub, PointXYZI.xyz. simpl. nra.
Qed.

Lemma pair_neighbors (d : R) :
  (0.1 < d)%R ->
  exists m : NeighborMap,
    getNeighborsInBB fs_enabled ef_pair [[0; 1]] (Fin d) = Ok m /\
    m !!! 0 = ([(0.5, 0.1, 0)%R] : list Vector3f).
Proof.
  intros Hd.
  destruct (getNeighborsInBB_lookup fs_enabled ef_pair [[0; 1]] (Fin d)
              pair_grid_wf pair_candidate_wf) as [m [Hm Hlook]].
  exists m. split; [exact Hm|]. fold tbl in Hlook.
  change (concat [[0; 1]]) with [0; 1] in Hlook.
  rewrite Hlook, flat_map_pick_here, flat_map_pick_skip, flat_map_pick_nil
    by discriminate.
  rewrite app_nil_r. apply pair_window0, Hd.
Qed.

Lemma pair_selectable (d : R) :
  (0.1 < d)%R -> selectable fs_enabled ef_pair 2 [[0; 1]] (Fin d).
Proof.
  intros Hd. split; [reflexivity|]. split; [lia|]. split; [apply pair_valid|].
  destruct (pair_neighbors d Hd) as [m [Hm H0]].
  exists m. split; [exact Hm|].
  exists 0. split; [apply list_elem_of_here|]. split.
  - unfold has_neighbors. rewrite H0. reflexivity.
  - unfold grad_norm_of, point_xyz_of. rewrite H0.
    change (at_ (cloud_filt ef_pair) 0) with (Ok (PointXYZI.mk 0.5 0 0 1)).
    unfold sum_gradient, PointXYZI.xyz, Vec.div, Vec.add, Vec.sub, Vec.Zero.
    cbn [fold_left PointXYZI.x PointXYZI.y PointXYZI.z].
    change (size [(0.5, 0.1, 0)%R]) with 1.
    intros [= H]. rewrite (norm_eq _ _ _ 0.1) in H by lra. lra.
Qed.


End Pair.

(** ** [fillRowNeighbors] and [fillColNeighbors] *)

Section BreakLoops.

Lemma for_break_invariant {I S} (P : S -> Prop) (body : I -> S -> result (option S)) xs :
  (forall x s s', x ∈ xs -> P s -> body x s = Ok (Some s') -> P s') ->
  forall s s', P s -> for_break body xs s = Ok s' -> P s'.
Proof.
  induction xs as [|x xs IH]; intros Hstep s s' Hs Hrun; simpl in Hrun.
  - injection Hrun as <-. exact Hs.
  - destruct (body x s) as [[s1|] | e] eqn:Hb; simpl in Hrun; [| |discriminate].
    + apply (IH (fun y t t' Hy => Hstep y t t' (list_elem_of_further _ _ _ Hy)) s1 s').
      * apply (Hstep x s s1); [left | exact Hs | exact Hb].
      * exact Hrun.
    + injection Hrun as <-. exact Hs.
Qed.

Lemma for_break_total {I S} (P : S -> Prop) (body : I -> S -> result (option S)) xs :
  (forall x s, x ∈ xs -> P s ->
     exists o, body x s = Ok o /\ forall s', o = Some s' -> P s') ->
  forall s, P s -> exists s', for_break body xs s = Ok s' /\ P s'.
Proof.
  induction xs as [|x xs IH]; intros Hstep s Hs; simpl.
  - exists s. split; [reflexivity | exact Hs].
  - destruct (Hstep x s ltac:(left) Hs) as [o [Hb Ho]]. rewrite Hb. simpl.
    destruct o as [s1|].
    + apply IH; [|apply Ho; reflexivity].
      intros y t Hy. apply Hstep. right. exact Hy.
    + exists s. split; [reflexivity | exact Hs].
Qed.

Lemma forM_total {I S} (P : S -> Prop) (body : I -> S -> result S) xs :
  (forall x s, x ∈ xs -> P s -> exists s', body x s = Ok s' /\ P s') ->
  forall s, P s -> exists s', forM body xs s = Ok s' /\ P s'.
Proof.
  induction xs as [|x xs IH]; intros Hstep s Hs; simpl.
  - exists s. split; [reflexivity | exact Hs].
  - destruct (Hstep x s ltac:(left) Hs) as [s1 [Hb H1]]. rewrite Hb. simpl.
    apply IH; [|exact H1]. intros y t Hy. apply Hstep. right. exact Hy.
Qed.

End BreakLoops.

Section Extends.
Open Scope Z_scope.

Lemma extends_refl (m : NeighborMap) : extends m m.
Proof.
  intros k. destruct (m !! k) as [l|] eqn:Hk; [|reflexivity].
  exists []. rewrite app_nil_r. reflexivity.
Qed.

Lemma extends_trans (m1 m2 m3 : NeighborMap) :
  extends m1 m2 -> extends m2 m3 -> extends m1 m3.
Proof.
  intros H12 H23 k. specialize (H12 k). specialize (H23 k).
  destruct (m1 !! k) as [l|].
  - destruct H12 as [l' H12]. rewrite H12 in H23. destruct H23 as [l'' H23].
    exists (l' ++ l''). rewrite H23, app_assoc. reflexivity.
  - rewrite H12 in H23. exact H23.
Qed.

Lemma push_back_existing_extends (m m' : NeighborMap) idx n :
  push_back_existing m idx n = Ok m' ->
  extends m m' /\ forall k, k <> idx -> m' !! k = m !! k.
Proof.
  unfold push_back_existing. destruct (m !! idx) as [l|] eqn:Hidx; [|discriminate].
  intros [= <-]. split.
  - intros k. destruct (decide (k = idx)) as [-> | Hne].
    + rewrite Hidx, lookup_insert_eq. eauto.
    + rewrite lookup_insert_ne by congruence.
      destruct (m !! k) as [l0|]; [|reflexivity].
      exists []. rewrite app_nil_r. reflexivity.
  - intros k Hne. apply lookup_insert_ne. congruence.
Qed.

Lemma extends_keys (m m' : NeighborMap) k :
  extends m m' -> (m' !! k = None <-> m !! k = None).
Proof.
  intros H. specialize (H k). destruct (m !! k) as [l|].
  - destruct H as [l' ->]. split; discriminate.
  - rewrite H. tauto.
Qed.

End Extends.

Section FillRowNeighbors.
Open Scope Z_scope.

Variable cloud : PointCloud.
Variable row : list Z.
Variable max_range_sq : fl.

(** What the loops keep true of the map, relative to the map [m0] they
    started from. *)
Let kept (m0 m : NeighborMap) : Prop :=
  extends m0 m /\ forall k, k ∉ row -> m !! k = m0 !! k.

Lemma kept_refl m0 : kept m0 m0.
Proof. split; [apply extends_refl | reflexivity]. Qed.

Lemma kept_push m0 (m m' : NeighborMap) idx n :
  idx ∈ row -> kept m0 m -> push_back_existing m idx n = Ok m' -> kept m0 m'.
Proof.
  intros Hidx [Hext Hout] Hpush.
  apply push_back_existing_extends in Hpush as [Hext' Hsame]. split.
  - eapply extends_trans; eassumption.
  - intros k Hk. rewrite Hsame; [apply Hout, Hk|].
    intros ->. contradiction.
Qed.

Lemma row_neighbor_step_kept m0 point_idx d1 leftwards k (m m' : NeighborMap) :
  point_idx ∈ row -> kept m0 m ->
  row_neighbor_step cloud row max_range_sq point_idx d1 leftwards k m = Ok (Some m') ->
  kept m0 m'.
Proof.
  intros Hidx Hm. unfold row_neighbor_step.
  destruct (at_ row k) as [v|]; [|discriminate]. cbn [mbind result_bind].
  destruct (at_ cloud (i32 v)) as [np|]; [|discriminate]. cbn [mbind result_bind].
  cbv zeta. destruct (Fl.gt _ max_range_sq); [discriminate|].
  destruct (push_back_existing m point_idx (PointXYZI.xyz np)) as [m1|] eqn:Hpush;
    [|discriminate].
  cbn [mbind result_bind]. intros [= <-]. eapply kept_push; eassumption.
Qed.

Lemma fillRowNeighbors_point_kept m0 i (m m' : NeighborMap) :
  kept m0 m ->
  fillRowNeighbors_point cloud row max_range_sq i m = Ok m' -> kept m0 m'.
Proof.
  intros Hm. unfold fillRowNeighbors_point.
  destruct (at_ row i) as [point_idx|] eqn:Hat; [|discriminate].
  cbn [mbind result_bind].
  assert (Hidx : point_idx ∈ row).
  { apply at_lookup in Hat as [_ Hl]. eapply list_elem_of_lookup_2, Hl. }
  destruct (at_ cloud point_idx) as [point|]; [|discriminate].
  cbn [mbind result_bind]. cbv zeta.
  destruct (for_break _ (rev _) m) as [m1|] eqn:Hleft; [|discriminate].
  cbn [mbind result_bind]. intros Hright.
  assert (H1 : kept m0 m1).
  { revert Hleft. apply for_break_invariant; [|exact Hm].
    intros k s s' _ Hs. apply row_neighbor_step_kept; assumption. }
  revert Hright. apply for_break_invariant; [|exact H1].
  intros k s s' _ Hs. apply row_neighbor_step_kept; assumption.
Qed.

Lemma fillRowNeighbors_kept (m m' : NeighborMap) :
  fillRowNeighbors m cloud row max_range_sq = Ok m' -> kept m m'.
Proof.
  unfold fillRowNeighbors. apply forM_invariant; [|apply kept_refl].
  intros i s s' _ Hs. apply fillRowNeighbors_point_kept, Hs.
Qed.

End FillRowNeighbors.

Section FillRowNeighborsTheorems.
Open Scope Z_scope.

(** X16.  [fillRowNeighbors] never adds or removes a key of the map it is
    handed: when it returns, every list of the map has at most grown at the
    back, a key the map did not hold is still not held, and the lists of the
    indices that the row does not name are as they were.  On an empty map it
    can only return the empty map. *)
Theorem fillRowNeighbors_keeps_keys (m m' : NeighborMap) (cloud : PointCloud)
    (row : list Z) (max_range_sq : fl) :
  fillRowNeighbors m cloud row max_range_sq = Ok m' ->
  extends m m' /\
  (forall k, m' !! k = None <-> m !! k = None) /\
  (forall k, k ∉ row -> m' !! k = m !! k) /\
  (m = ∅ -> m' = ∅).
Proof.
  intros Hrun. apply fillRowNeighbors_kept in Hrun as [Hext Hout].
  split; [exact Hext|]. split; [|split; [exact Hout|]].
  - intros k. apply extends_keys, Hext.
  - intros ->. apply map_eq. intros k. rewrite lookup_empty.
    apply (extends_keys _ _ k Hext). apply lookup_empty.
Qed.

End FillRowNeighborsTheorems.

Section FillRowNeighborsRuns.
Open Scope Z_scope.

Variable cloud : PointCloud.
Variable row : list Z.
Variable max_range_sq : fl.

Hypothesis Hsize : size row < 2 ^ 31.
Hypothesis Hcloud : forall v, v ∈ row -> 0 <= v < size cloud /\ v < 2 ^ 31.

(** Every index the row names has a list in the map. *)
Let covered (m : NeighborMap) : Prop := forall v, v ∈ row -> is_Some (m !! v).

Lemma covered_push (m m' : NeighborMap) idx n :
  covered m -> push_back_existing m idx n = Ok m' -> covered m'.
Proof.
  intros Hm Hpush v Hv. apply push_back_existing_extends in Hpush as [Hext _].
  destruct (Hm v Hv) as [l Hl]. specialize (Hext v). rewrite Hl in Hext.
  destruct Hext as [l' ->]. eauto.
Qed.

Lemma row_neighbor_step_runs point_idx d1 leftwards k (m : NeighborMap) :
  point_idx ∈ row -> 0 <= k < size row -> covered m ->
  exists o,
    row_neighbor_step cloud row max_range_sq point_idx d1 leftwards k m = Ok o /\
    forall m', o = Some m' -> covered m'.
Proof.
  intros Hidx Hk Hm. unfold row_neighbor_step.
  destruct (at_in_range row k Hk) as [v [Hat Hv]]. rewrite Hat.
  cbn [mbind result_bind]. destruct (Hcloud v Hv) as [Hvr Hv31].
  rewrite i32_small by lia.
  destruct (at_in_range cloud v Hvr) as [np [Hnp _]]. rewrite Hnp.
  cbn [mbind result_bind]. cbv zeta.
  destruct (Fl.gt _ max_range_sq).
  - exists None. split; [reflexivity | discriminate].
  - destruct (Hm point_idx Hidx) as [l Hl].
    destruct (push_back_existing m point_idx (PointXYZI.xyz np)) as [m1|] eqn:Hpush.
    + exists (Some m1). split; [reflexivity|]. intros m' [= <-].
      eapply covered_push; eassumption.
    + unfold push_back_existing in Hpush. rewrite Hl in Hpush. discriminate.
Qed.

Lemma fillRowNeighbors_point_runs i (m : NeighborMap) :
  0 <= i < size row -> covered m ->
  exists m', fillRowNeighbors_point cloud row max_range_sq i m = Ok m' /\ covered m'.
Proof.
  intros Hi Hm. unfold fillRowNeighbors_point.
  destruct (at_in_range row i Hi) as [point_idx [Hat Hidx]]. rewrite Hat.
  cbn [mbind result_bind]. destruct (Hcloud point_idx Hidx) as [Hpr _].
  destruct (at_in_range cloud point_idx Hpr) as [point [Hpt _]]. rewrite Hpt.
  cbn [mbind result_bind]. cbv zeta.
  set (d1 := Vec.norm (PointXYZI.xyz point)).
  assert (Hleft : forall k, k ∈ rev (zrange 0 (i32 (u32 (i - 1)) + 1)) ->
                            0 <= k < size row).
  { intros k Hkin. rewrite list_elem_of_In, <- in_rev, in_zrange in Hkin.
    destruct (Z.eq_dec i 0) as [-> | Hne].
    - change (i32 (u32 (0 - 1))) with (-1) in Hkin. lia.
    - rewrite u32_small, i32_small in Hkin by lia. lia. }
  assert (Hright : forall k, k ∈ zrange (u32 (i + 1)) (size row) ->
                             0 <= k < size row).
  { intros k Hkin. apply elem_of_zrange in Hkin.
    rewrite u32_small in Hkin by lia. lia. }
  destruct (for_break_total covered
              (row_neighbor_step cloud row max_range_sq point_idx d1 true)
              (rev (zrange 0 (i32 (u32 (i - 1)) + 1)))) with (s := m)
    as [m1 [Hrun1 Hm1]].
  { intros k s Hk Hs. apply row_neighbor_step_runs; auto. }
  { exact Hm. }
  rewrite Hrun1. cbn [mbind result_bind].
  apply for_break_total; [|exact Hm1].
  intros k s Hk Hs. apply row_neighbor_step_runs; auto.
Qed.

Lemma fillRowNeighbors_runs (m : NeighborMap) :
  covered m -> exists m', fillRowNeighbors m cloud row max_range_sq = Ok m'.
Proof.
  intros Hm. unfold fillRowNeighbors.
  destruct (forM_total covered (fillRowNeighbors_point cloud row max_range_sq)
              (zrange 0 (size row))) with (s := m) as [m' [Hrun _]].
  - intros i s Hi Hs. apply elem_of_zrange in Hi.
    apply fillRowNeighbors_point_runs; assumption.
  - exact Hm.
  - exists m'. exact Hrun.
Qed.

End FillRowNeighborsRuns.

Section FillRowNeighborsReturns.
Open Scope Z_scope.

(** X17.  [fillRowNeighbors] returns, without raising, for a row of fewer
    than 2^31 indices that are all indices of the cloud and all keys of the
    map; the map it returns holds the lists of the map it was handed, grown
    at the back. *)
Theorem fillRowNeighbors_returns (m : NeighborMap) (cloud : PointCloud)
    (row : list Z) (max_range_sq : fl) :
  size row < 2 ^ 31 ->
  (forall v, v ∈ row -> 0 <= v < size cloud /\ v < 2 ^ 31) ->
  (forall v, v ∈ row -> is_Some (m !! v)) ->
  exists m', fillRowNeighbors m cloud row max_range_sq = Ok m' /\ extends m m'.
Proof.
  intros Hsize Hcloud Hkeys.
  destruct (fillRowNeighbors_runs cloud row max_range_sq Hsize Hcloud m Hkeys)
    as [m' Hrun].
  exists m'. split; [exact Hrun|].
  apply fillRowNeighbors_kept in Hrun as [Hext _]. exact Hext.
Qed.

Lemma pair_row_cloud v :
  v ∈ [0; 1] -> 0 <= v < size (cloud_filt ef_pair) /\ v < 2 ^ 31.
Proof.
  intros Hv. apply list_elem_of_In in Hv. simpl in Hv.
  destruct Hv as [<- | [<- | []]]; zbounds.
Qed.

Lemma pair_row_keys v : v ∈ [0; 1] -> is_Some (two_keys !! v).
Proof.
  intros Hv. apply list_elem_of_In in Hv. simpl in Hv.
  destruct Hv as [<- | [<- | []]]; eexists; reflexivity.
Qed.

Lemma fillRowNeighbors_returns_witness :
  exists m', fillRowNeighbors two_keys (cloud_filt ef_pair) [0; 1] (Fin 1) = Ok m' /\
             extends two_keys m'.
Proof.
  apply (fillRowNeighbors_returns two_keys (cloud_filt ef_pair) [0; 1] (Fin 1)).
  - zbounds.
  - apply pair_row_cloud.
  - apply pair_row_keys.
Defined.

Lemma fillRowNeighbors_keeps_keys_witness :
  exists m', fillRowNeighbors two_keys (cloud_filt ef_pair) [0; 1] (Fin 1) = Ok m' /\
             extends two_keys m' /\
             (forall k, m' !! k = None <-> two_keys !! k = None).
Proof.
  destruct (fillRowNeighbors_runs (cloud_filt ef_pair) [0; 1] (Fin 1) ltac:(zbounds)
              pair_row_cloud two_keys pair_row_keys) as [m' Hrun].
  exists m'. split; [exact Hrun|].
  destruct (fillRowNeighbors_keeps_keys two_keys m' (cloud_filt ef_pair) [0; 1]
              (Fin 1) Hrun) as [H1 [H2 _]].
  split; assumption.
Defined.

End FillRowNeighborsReturns.

Section FillColNeighbors.
Open Scope Z_scope.

Lemma forM_skip {I S} (xs : list I) (s : S) :
  forM (fun (_ : I) (t : S) => Ok t) xs s = Ok s.
Proof. induction xs as [|x xs IH]; [reflexivity | exact IH]. Qed.

Lemma forM_unchanged {I S} (body : I -> S -> result S) xs (s : S) :
  (forall x t, x ∈ xs -> body x t = Ok t) -> forM body xs s = Ok s.
Proof.
  induction xs as [|x xs IH]; intros H; [reflexivity|]. simpl.
  rewrite H by left. simpl. apply IH. intros y t Hy. apply H. right. exact Hy.
Qed.

(** X18.  [fillColNeighbors] is without effect: for every map and every
    batch it returns the map it was handed and never raises, every row and
    index it reads being within bounds (the next row is only read below the
    last row, and not at all for an empty batch). *)
Theorem fillColNeighbors_without_effect (m : NeighborMap) (ef : ExtractedFeatures)
    (indices_in_filt : list (list Z)) (max_range_sq : fl) :
  fillColNeighbors m ef indices_in_filt max_range_sq = Ok m.
Proof.
  unfold fillColNeighbors. cbv zeta.
  set (n := u32 (size indices_in_filt)).
  assert (Hn : 0 <= n <= size indices_in_filt /\ n < 2 ^ 32).
  { unfold n, u32. pose proof (Z.mod_pos_bound (size indices_in_filt) (2 ^ 32) ltac:(lia)).
    pose proof (Z.mod_le (size indices_in_filt) (2 ^ 32)
                  ltac:(unfold size; lia) ltac:(lia)). lia. }
  apply forM_unchanged. intros r t Hr. apply elem_of_zrange in Hr.
  destruct (at_in_range indices_in_filt r ltac:(lia)) as [row [Hrow _]].
  rewrite Hrow. cbn [mbind result_bind].
  apply forM_unchanged. intros i t' Hi. apply elem_of_zrange in Hi.
  unfold fillColNeighbors_point. rewrite Hrow. cbn [mbind result_bind].
  destruct (at_in_range row i Hi) as [point_idx [Hpt _]]. rewrite Hpt.
  cbn [mbind result_bind].
  rewrite (u32_small (n - 1)) by lia.
  destruct (Z.ltb_spec r (n - 1)); [|reflexivity].
  rewrite u32_small by lia.
  destruct (at_in_range indices_in_filt (r + 1) ltac:(lia)) as [next [Hnext _]].
  rewrite Hnext. cbn [mbind result_bind]. apply forM_skip.
Qed.

End FillColNeighbors.

(** ** A count smaller than a class of the batch *)

Section GradientOverflow.
Open Scope Z_scope.

Variable ef : ExtractedFeatures.
Variable neighbors : NeighborMap.
Variable features_count : Z.
Hypothesis Hfc : 0 <= features_count < 2 ^ 32.

(** The step of the first loop for an index whose class has room left. *)
Lemma gradient_step_room done idx :
  (if has_neighbors neighbors idx
   then size (grouped_of ef neighbors done) < features_count
   else size (standalone_of neighbors done) < features_count) ->
  (has_neighbors neighbors idx = true -> 0 <= idx < size (cloud_filt ef)) ->
  gradient_step ef neighbors idx (grad_state_of ef neighbors features_count done) =
  Ok (grad_state_of ef neighbors features_count (done ++ [idx])).
Proof.
  intros Hroom Hvalid.
  unfold grad_state_of. cbv zeta.
  rewrite grouped_of_app, standalone_of_app, grouped_of_one, standalone_of_one.
  set (g := grouped_of ef neighbors done) in *.
  set (s := standalone_of neighbors done) in *.
  unfold gradient_step.
  cbn [grouped_features_count standalone_features_count grad_norm_max
       standalone_points_indices gradient_norms].
  change (0 <? size (neighbors !!! idx)) with (has_neighbors neighbors idx).
  unfold size in Hroom.
  destruct (has_neighbors neighbors idx) eqn:Hn.
  - destruct (at_in_range _ idx (Hvalid eq_refl)) as [p [Hp _]].
    rewrite Hp. cbn [mbind result_bind].
    replace (Z.to_nat features_count - length g)%nat
      with (S (Z.to_nat features_count - length (g ++ [(idx, grad_norm_of ef neighbors idx)])))
      by (rewrite length_app; simpl; lia).
    assert (Hgn : Fin (Vec.norm (Vec.div
                   (sum_gradient (PointXYZI.xyz p) (neighbors !!! idx))
                   (IZR (size (neighbors !!! idx)))))
                  = grad_norm_of ef neighbors idx).
    { unfold grad_norm_of, point_xyz_of. rewrite Hp. reflexivity. }
    rewrite Hgn, set_at_next. cbn [mbind result_bind].
    rewrite max_of_snoc, !app_nil_r, !size_app.
    rewrite u32_small by (unfold size; simpl; lia).
    reflexivity.
  - replace (Z.to_nat features_count - length s)%nat
      with (S (Z.to_nat features_count - length (s ++ [idx])))
      by (rewrite length_app; simpl; lia).
    rewrite set_at_next. cbn [mbind result_bind].
    rewrite !app_nil_r, !size_app.
    rewrite u32_small by (unfold size; simpl; lia).
    reflexivity.
Qed.

(** The step for an index whose class already fills its vector. *)
Lemma gradient_step_full done idx :
  (if has_neighbors neighbors idx
   then size (grouped_of ef neighbors done) = features_count
   else size (standalone_of neighbors done) = features_count) ->
  (has_neighbors neighbors idx = true -> 0 <= idx < size (cloud_filt ef)) ->
  gradient_step ef neighbors idx (grad_state_of ef neighbors features_count done) =
  Err OutOfRange.
Proof.
  intros Hfull Hvalid.
  unfold grad_state_of. cbv zeta.
  set (g := grouped_of ef neighbors done) in *.
  set (s := standalone_of neighbors done) in *.
  unfold gradient_step.
  cbn [grouped_features_count standalone_features_count grad_norm_max
       standalone_points_indices gradient_norms].
  change (0 <? size (neighbors !!! idx)) with (has_neighbors neighbors idx).
  unfold size in Hfull.
  destruct (has_neighbors neighbors idx) eqn:Hn.
  - destruct (at_in_range _ idx (Hvalid eq_refl)) as [p [Hp _]].
    rewrite Hp. cbn [mbind result_bind].
    unfold set_at. rewrite length_app, length_replicate.
    destruct (Z.ltb_spec (size g) (Z.of_nat (length g + (Z.to_nat features_count - length g))));
      [unfold size in *; lia|].
    rewrite andb_false_r. reflexivity.
  - unfold set_at. rewrite length_app, length_replicate.
    destruct (Z.ltb_spec (size s) (Z.of_nat (length s + (Z.to_nat features_count - length s))));
      [unfold size in *; lia|].
    rewrite andb_false_r. reflexivity.
Qed.

Lemma gradient_loop_overflow : forall todo done,
  size (grouped_of ef neighbors done) <= features_count ->
  size (standalone_of neighbors done) <= features_count ->
  features_count < size (grouped_of ef neighbors (done ++ todo)) \/
  features_count < size (standalone_of neighbors (done ++ todo)) ->
  (forall idx, idx ∈ todo -> has_neighbors neighbors idx = true ->
               0 <= idx < size (cloud_filt ef)) ->
  forM (gradient_step ef neighbors) todo
       (grad_state_of ef neighbors features_count done) = Err OutOfRange.
Proof.
  induction todo as [|idx todo IH]; intros done Hg Hs Hover Hvalid.
  - rewrite app_nil_r in Hover. lia.
  - cbn [forM].
    assert (Hv : has_neighbors neighbors idx = true -> 0 <= idx < size (cloud_filt ef))
      by (apply Hvalid; left).
    pose proof (grouped_of_one ef neighbors idx) as Hg1.
    pose proof (standalone_of_one neighbors idx) as Hs1.
    destruct (has_neighbors neighbors idx) eqn:Hn.
    + destruct (Z.eq_dec (size (grouped_of ef neighbors done)) features_count) as [Heq | Hne].
      * rewrite gradient_step_full; [reflexivity | rewrite Hn; exact Heq | intros Hc; first [apply Hv; reflexivity | congruence]].
      * rewrite gradient_step_room; [| rewrite Hn; lia | intros Hc; first [apply Hv; reflexivity | congruence]].
        cbn [mbind result_bind].
        replace (done ++ idx :: todo) with ((done ++ [idx]) ++ todo) in Hover
          by (rewrite <- app_assoc; reflexivity).
        apply IH; [| | exact Hover |].
        -- rewrite grouped_of_app, Hg1, size_app. unfold size in *. simpl. lia.
        -- rewrite standalone_of_app, Hs1, app_nil_r. exact Hs.
        -- intros i Hi. apply Hvalid. right. exact Hi.
    + destruct (Z.eq_dec (size (standalone_of neighbors done)) features_count) as [Heq | Hne].
      * rewrite gradient_step_full; [reflexivity | rewrite Hn; exact Heq | intros Hc; first [apply Hv; reflexivity | congruence]].
      * rewrite gradient_step_room; [| rewrite Hn; lia | intros Hc; first [apply Hv; reflexivity | congruence]].
        cbn [mbind result_bind].
        replace (done ++ idx :: todo) with ((done ++ [idx]) ++ todo) in Hover
          by (rewrite <- app_assoc; reflexivity).
        apply IH; [| | exact Hover |].
        -- rewrite grouped_of_app, Hg1, app_nil_r. exact Hg.
        -- rewrite standalone_of_app, Hs1, size_app. unfold size in *. simpl. lia.
        -- intros i Hi. apply Hvalid. right. exact Hi.
Qed.

End GradientOverflow.

Section CountTooSmall.
Open Scope Z_scope.

(** X20.  A [features_count] smaller than the number of standalone features
    of the batch, or smaller than the number of its grouped features, makes
    [estimateGradients] raise [std::out_of_range]: the vector of that class
    was given [features_count] places, and the write for the first feature
    beyond them is bounds-checked. *)
Theorem estimateGradients_count_too_small (fs : FeatureSelection)
    (ef : ExtractedFeatures) (features_count : Z)
    (indices_in_filt : list (list Z)) (search_radius : fl) (m : NeighborMap) :
  getNeighborsInBB fs ef indices_in_filt search_radius = Ok m ->
  0 <= features_count < 2 ^ 32 ->
  features_count < size (grouped_of ef m (concat indices_in_filt)) \/
  features_count < size (standalone_of m (concat indices_in_filt)) ->
  estimateGradients fs ef features_count indices_in_filt search_radius
  = Err OutOfRange.
Proof.
  intros Hm Hfc Hover. unfold estimateGradients. cbv zeta.
  rewrite Hm. cbn [mbind result_bind].
  rewrite forM_concat, <- (grad_state_of_nil ef m features_count).
  rewrite (gradient_loop_overflow ef m features_count Hfc _ []).
  - reflexivity.
  - unfold size. simpl. lia.
  - unfold size. simpl. lia.
  - exact Hover.
  - intros idx _ Hh. eapply neighbors_valid; eauto.
Qed.

Lemma estimateGradients_count_too_small_witness :
  estimateGradients fs_default ef_chain 2 [[0; 1; 2; 3]] (Fin 0.15) = Err OutOfRange.
Proof.
  destruct chain_neighbors as [m [Hm [H0 [H1 [H2 H3]]]]].
  apply (estimateGradients_count_too_small fs_default ef_chain 2 [[0; 1; 2; 3]]
           (Fin 0.15) m Hm).
  - lia.
  - left. change (concat [[0; 1; 2; 3]]) with [0; 1; 2; 3].
    rewrite (chain_grouped m H0 H1 H2 H3). zbounds.
Defined.

End CountTooSmall.

(** ** A resolution that is not positive *)

Section StoredResolution.
Open Scope Z_scope.

(** X21.  The stored corner resolution is the search radius of the next
    call: once it is zero, negative or not a number, [selectFeatures] with
    selection switched on raises [std::out_of_range] on every scan whose
    corner count is positive and not below the number of corner indices
    (and on which the neighbor search returns), no corner having a neighbor
    within such a radius. *)
Theorem nonpositive_resolution_raises (fs : FeatureSelection)
    (ef : ExtractedFeatures) (m : NeighborMap) :
  _features_selection_enabled fs = true ->
  (forall d, _resolution_corners fs = Fin d -> (d <= 0)%R) ->
  getNeighborsInBB fs ef (indices_corners_less_sharp ef) (_resolution_corners fs)
    = Ok m ->
  0 < corner_points_less_sharp_count ef < 2 ^ 32 ->
  size (concat (indices_corners_less_sharp ef)) <= corner_points_less_sharp_count ef ->
  selectFeatures fs ef = Err OutOfRange.
Proof.
  intros Hon Hr Hm Hfc Hsz.
  pose proof (no_radius_lookup fs ef _ _ m Hr Hm) as Hnone.
  assert (Hfc' : 0 <= corner_points_less_sharp_count ef < 2 ^ 32) by lia.
  pose proof (all_standalone_estimate fs ef _ _ _ m Hm Hnone Hfc' Hsz) as Hest.
  assert (Hne : corner_points_less_sharp_count ef <> 0) by lia.
  unfold selectFeatures. rewrite Hon. cbn [negb].
  rewrite (empty_ranking_raises fs ef _ _ _ (_corners_keep_percentile fs) _ _ _
             Hne Hest).
  reflexivity.
Qed.

Lemma pair_candidate_wf_after idx :
  idx ∈ concat [[0; 1]] -> candidate_wf fs_after_empty ef_pair idx.
Proof.
  intros Hin. apply pair_idx in Hin.
  apply near_candidate_wf; [reflexivity | | | | apply pair_range, Hin];
    destruct Hin as [-> | ->]; zbounds.
Qed.

Lemma nonpositive_resolution_raises_witness :
  exists out fs',
    selectFeatures fs_enabled ef_empty = Ok (out, fs') /\
    selectFeatures fs' ef_pair = Err OutOfRange.
Proof.
  exists ([], [], Fin (0.05 + -1 * (0.6 - 0.05)), Fin (0.1 + -1 * (1.0 - 0.1))), fs_after_empty.
  split; [reflexivity|].
  destruct (getNeighborsInBB_lookup fs_after_empty ef_pair [[0; 1]]
              (Fin (0.05 + -1 * (0.6 - 0.05))) pair_grid_wf pair_candidate_wf_after)
    as [m [Hm _]].
  apply (nonpositive_resolution_raises fs_after_empty ef_pair m).
  - reflexivity.
  - intros d [= <-]. lra.
  - exact Hm.
  - zbounds.
  - zbounds.
Defined.

End StoredResolution.

(** ** The keep-percentile *)

Section Monotone.
Open Scope Z_scope.

Lemma descending_lookup (l : list (Z * fl)) : forall (i j : nat) (a b : Z * fl),
  descending l -> l !! i = Some a -> l !! j = Some b -> (i < j)%nat ->
  Fl.ge a.2 b.2 = true.
Proof.
  induction l as [|x l IH]; intros i j a b Hd Hi Hj Hlt; [discriminate|].
  destruct Hd as [Hall Hd]. destruct j as [|j]; [lia|].
  cbn [lookup list_lookup] in Hj. destruct i as [|i].
  - injection Hi as <-. rewrite Forall_forall in Hall.
    apply Hall. eapply list_elem_of_lookup_2, Hj.
  - cbn [lookup list_lookup] in Hi. apply (IH i j); auto. lia.
Qed.

Lemma filter_length_le {A} (f g : A -> bool) (l : list A) :
  (forall a, a ∈ l -> f a = true -> g a = true) ->
  (length (List.filter f l) <= length (List.filter g l))%nat.
Proof.
  induction l as [|a l IH]; intros H; [simpl; lia|].
  cbn [List.filter].
  assert (IH' : (length (List.filter f l) <= length (List.filter g l))%nat).
  { apply IH. intros b Hb. apply H. right. exact Hb. }
  destruct (f a) eqn:Hf.
  - rewrite (H a ltac:(left) Hf). simpl. lia.
  - destruct (g a); simpl; lia.
Qed.



End Monotone.

(** ** A neighbor outside the envelope *)

Section SharperArcTangent.
Open Scope R_scope.

(** An angle whose tangent exceeds [u] exceeds the arc tangent of [u]; the
    tangent is bounded from below through the third-order bound of the sine
    at the angle and at its half. *)
Lemma atan_lt_of_lt_sin_cos u a :
  0 <= u -> 0 < a <= 1 ->
  u * (1 - 2 * ((a / 2 - (a / 2) ^ 3 / 6) * (a / 2 - (a / 2) ^ 3 / 6)))
    < a - a ^ 3 / 6 ->
  atan u < a.
Proof.
  intros Hu Ha Hlt. pose proof PI2_1 as Hpi.
  rewrite <- (atan_tan a) by lra.
  apply atan_increasing.
  assert (Hc : 0 < cos a) by (apply cos_gt_0; lra).
  pose proof (sin_lb_poly a ltac:(lra)) as Hs.
  pose proof (sin_lb_poly (a / 2) ltac:(lra)) as Hh.
  set (lb := a / 2 - (a / 2) ^ 3 / 6) in *.
  assert (Hlb : 0 <= lb) by (unfold lb; nra).
  assert (Hcos : cos a <= 1 - 2 * (lb * lb)).
  { replace a with (2 * (a / 2)) at 1 by lra. rewrite cos_2a_sin. nra. }
  unfold tan. apply Rmult_lt_reg_r with (cos a); [exact Hc|].
  unfold Rdiv. rewrite Rmult_assoc, Rinv_l by lra. nra.
Qed.

(** A metre from the sensor the envelope is narrower than 91 columns. *)
Lemma max_h_idx_at_one_metre : (max_h_idx_of (range_of 5) 0 <= 90)%Z.
Proof.
  rewrite max_h_idx_of_row0. apply Zfloor_upper.
  assert (Hr : range_of 5 = 1) by (unfold range_of, NEIGH_IDX_PREC_RANGE_RES; lra).
  rewrite Hr, atan2_pos_x by lra.
  assert (Hat : atan (R_radius / 1) < 0.558).
  { apply atan_lt_of_lt_sin_cos; unfold R_radius; lra. }
  unfold HFOV_RESOLUTION.
  apply Rmult_lt_reg_r with 0.00613592315; [lra|].
  unfold Rdiv in *. rewrite Rmult_assoc, Rinv_l by lra. simpl. lra.
Qed.

(** At 0.8 m it is at least 91 columns wide. *)
Lemma max_h_idx_at_80_cm : (91 <= max_h_idx_of (range_of 4) 0)%Z.
Proof.
  rewrite max_h_idx_of_row0. apply Zfloor_lub.
  assert (Hr : range_of 4 = 0.8) by (unfold range_of, NEIGH_IDX_PREC_RANGE_RES; lra).
  rewrite Hr, atan2_pos_x by lra.
  assert (Hat : 0.56 <= atan (R_radius / 0.8)).
  { pose proof PI2_1 as Hpi. rewrite <- (atan_tan 0.56) by lra.
    apply atan_le.
    apply Rle_trans with (0.56 / (1 - 0.56 * 0.56 / 2)); [apply tan_upper; lra|].
    unfold R_radius. lra. }
  unfold HFOV_RESOLUTION.
  apply Rmult_le_reg_r with 0.00613592315; [lra|].
  unfold Rdiv in *. rewrite Rmult_assoc, Rinv_l by lra. simpl. lra.
Qed.

End SharperArcTangent.

Section MidRing.
Open Scope Z_scope.

Let tbl : list (list Z) := [0 :: replicate 90 (-1) ++ 1 :: replicate 932 (-1)].

Lemma mid_table : buildOrderedFeatureTable ef_mid [[0; 1]] = tbl.
Proof. reflexivity. Qed.

Lemma mid_grid_wf : grid_wf ef_mid tbl.
Proof.
  apply (grid_wf_check ef_mid tbl 2); [reflexivity | zbounds | zbounds | reflexivity].
Qed.

Lemma mid_range0 : Zfloor (getRange ef_mid 0 / NEIGH_IDX_PREC_RANGE_RES) = 5.
Proof.
  assert (H : (1 <= getRange ef_mid 0 < 1.2)%R).
  { simpl. unfold PointXYZI.xyz. simpl. apply norm_bounds; simpl; lra. }
  apply Zfloor_eq. unfold NEIGH_IDX_PREC_RANGE_RES. lra.
Qed.

Lemma mid_range1 : Zfloor (getRange ef_mid 1 / NEIGH_IDX_PREC_RANGE_RES) = 4.
Proof.
  assert (H : (0.8 <= getRange ef_mid 1 < 1)%R).
  { simpl. unfold PointXYZI.xyz. simpl. apply norm_bounds; simpl; lra. }
  apply Zfloor_eq. unfold NEIGH_IDX_PREC_RANGE_RES. lra.
Qed.

Lemma mid_envelope idx s :
  Zfloor (getRange ef_mid idx / NEIGH_IDX_PREC_RANGE_RES) = s -> 0 <= s < 489 ->
  envelope_of fs_default ef_mid idx = bucket_of s.
Proof.
  intros Hs Hr. unfold envelope_of.
  rewrite (limits_of_built fs_default _ s eq_refl Hs); [reflexivity | lia |].
  intros j Hj. apply no_stop_before. lia.
Qed.

Lemma mid_candidate_wf idx :
  idx ∈ concat [[0; 1]] -> candidate_wf fs_default ef_mid idx.
Proof.
  intros Hin. apply list_elem_of_In in Hin. simpl in Hin.
  destruct Hin as [<- | [<- | []]]; constructor.
  - zbounds.
  - zbounds.
  - zbounds.
  - rewrite (mid_envelope 0 5 mid_range0) by lia. apply bucket_of_wf. lia.
  - zbounds.
  - zbounds.
  - zbounds.
  - rewrite (mid_envelope 1 4 mid_range1) by lia. apply bucket_of_wf. lia.
Qed.

(** The window of the first point ends before the column of the second. *)
Lemma mid_window0 :
  windowRadiusSearch ef_mid tbl (Fin 0.55) (envelope_of fs_default ef_mid 0) 0 = [].
Proof.
  rewrite windowRadiusSearch_sparse.
  assert (Hocc : List.filter (occupied ef_mid tbl 0) (grid_cells ef_mid tbl)
                 = [(0, 91)]) by reflexivity.
  rewrite Hocc, (mid_envelope 0 5 mid_range0) by lia.
  pose proof (bucket_of_wf 5 ltac:(lia)) as Hwf.
  destruct (bucket_wf_last _ Hwf) as [mv [e [Hlast [He [Hmv [Hsz _]]]]]].
  assert (Hmv' : max_v_idx_of (range_of 5) = mv).
  { pose proof (bucket_of_length 5 ltac:(lia)) as Hlen. unfold size in Hsz. lia. }
  pose proof (bucket_of_lookup0 5 ltac:(lia)) as H0. rewrite Hmv' in H0.
  change (getRowColInRawData ef_mid 0) with (0, 0). simpl fst. simpl snd.
  cbn [List.filter].
  destruct e as [e1 e2]. simpl in He. subst e1.
  rewrite (in_window_own_row _ _ _ _ _ _ _ Hlast (proj1 Hmv) H0).
  pose proof max_h_idx_at_one_metre.
  destruct (Z.leb_spec (Z.abs (91 - 0)) (max_h_idx_of (range_of 5) 0));
    [lia | reflexivity].
Qed.

(** The window of the second point reaches the column of the first. *)
Lemma mid_window1 :
  windowRadiusSearch ef_mid tbl (Fin 0.55) (envelope_of fs_default ef_mid 1) 1
  = [(1.02, 0, 0)%R].
Proof.
  rewrite windowRadiusSearch_sparse.
  assert (Hocc : List.filter (occupied ef_mid tbl 1) (grid_cells ef_mid tbl)
                 = [(0, 0)]) by reflexivity.
  rewrite Hocc, (mid_envelope 1 4 mid_range1) by lia.
  pose proof (bucket_of_wf 4 ltac:(lia)) as Hwf.
  destruct (bucket_wf_last _ Hwf) as [mv [e [Hlast [He [Hmv [Hsz _]]]]]].
  assert (Hmv' : max_v_idx_of (range_of 4) = mv).
  { pose proof (bucket_of_length 4 ltac:(lia)) as Hlen. unfold size in Hsz. lia. }
  pose proof (bucket_of_lookup0 4 ltac:(lia)) as H0. rewrite Hmv' in H0.
  change (getRowColInRawData ef_mid 1) with (0, 91). simpl fst. simpl snd.
  cbn [List.filter].
  destruct e as [e1 e2]. simpl in He. subst e1.
  rewrite (in_window_own_row _ _ _ _ _ _ _ Hlast (proj1 Hmv) H0).
  pose proof max_h_idx_at_80_cm.
  destruct (Z.leb_spec (Z.abs (0 - 91)) (max_h_idx_of (range_of 4) 0)); [|lia].
  cbn [omap list_omap].
  rewrite (cell_neighbor_at ef_mid tbl (Fin 0.55) 1 0 0 0 91 0
             (PointXYZI.mk 1.02 0 0 1) (PointXYZI.mk 0.73 0.46 0 1))
    by reflexivity.
  rewrite lt_norm_true; [reflexivity | lra |].
  unfold Vec.sub, PointXYZI.xyz. simpl. lra.
Qed.

(** The exhaustive search finds the second point next to the first. *)
Lemma mid_brute0 :
  (0.73, 0.46, 0)%R ∈ bruteForceRadiusSearch ef_mid tbl (Fin 0.55) 0.
Proof.
  apply elem_of_bruteForce. exists 0, 91.
  split; [zbounds|]. split; [zbounds|].
  unfold cell_neighbor.
  change (getRowColInRawData ef_mid 0) with (0, 0).
  change ((0 =? 0) && (91 =? 0)) with false. cbv iota.
  change (at_ tbl 0 ≫= λ row : list Z, at_ row 91) with (Ok 1 : result Z).
  cbv iota. change (1 =? -1) with false. cbv iota.
  change (at_ (cloud_filt ef_mid) 1) with (Ok (PointXYZI.mk 0.73 0.46 0 1)).
  change (at_ (cloud_filt ef_mid) 0) with (Ok (PointXYZI.mk 1.02 0 0 1)).
  cbv iota zeta. unfold PointXYZI.xyz. simpl.
  unfold Fl.lt.
  destruct (Rlt_dec _ _) as [_ | Hn]; [reflexivity|].
  exfalso. apply Hn. unfold Vec.sub.
  apply (norm_bounds _ 0 0.55); simpl; lra.
Qed.

(** C1.  Two surface features of one ring of 1024 columns, the first 1.02 m
    ahead in column 0, the second 0.544 m from it, 91 columns further on:
    with the search radius 0.55 the exhaustive search finds the second next
    to the first, and [getNeighborsInBB] returns no neighbor for the first,
    its envelope being at most 90 columns wide at that range; the second,
    closer to the sensor and with a wider envelope, does get the first. *)
Theorem envelope_misses_neighbor :
  exists m : NeighborMap,
    getNeighborsInBB fs_default ef_mid [[0; 1]] (Fin 0.55) = Ok m /\
    m !!! 0 = ([] : list Vector3f) /\
    m !!! 1 = ([(1.02, 0, 0)%R] : list Vector3f) /\
    (0.73, 0.46, 0)%R ∈
      bruteForceRadiusSearch ef_mid (buildOrderedFeatureTable ef_mid [[0; 1]])
        (Fin 0.55) 0.
Proof.
  destruct (getNeighborsInBB_lookup fs_default ef_mid [[0; 1]] (Fin 0.55))
    as [m [Hm Hlook]].
  - rewrite mid_table. apply mid_grid_wf.
  - apply mid_candidate_wf.
  - exists m. split; [exact Hm|]. rewrite mid_table in *.
    change (concat [[0; 1]]) with [0; 1] in Hlook. split; [|split].
    + rewrite Hlook, flat_map_pick_here, flat_map_pick_skip, flat_map_pick_nil
        by discriminate.
      rewrite mid_window0. reflexivity.
    + rewrite Hlook, flat_map_pick_skip, flat_map_pick_here, flat_map_pick_nil
        by discriminate.
      rewrite mid_window1. reflexivity.
    + apply mid_brute0.
Qed.

End MidRing.
